(** * podcast-txt: the chunked transcription pipeline of [app.py]

    A shallow embedding of the splitting / transcription / stitching /
    formatting code of [app.py] (and of [format_timestamp], which
    [podcast_transcriber.py] repeats verbatim), with the properties the
    specification states about it.

    Conventions of the embedding.
    - Python [int] is [Z]; a Python [float] is the rational number it
      stands for, in [Q]. The sums, quotients and products of durations,
      sizes and progress values are taken exactly. Where the text the
      program prints depends on how a product is rounded, in
      [format_timestamp], the rounding to the nearest double is applied
      ([Double.round64]); the order of the stitched start times is proved
      for the exact sums and for the rounded ones.
    - Python [str] is [string]; a character stands for the code point of the
      same number, so texts are restricted to code points below 256.
    - The file system, the status dictionaries and the clock are explicit
      state; the libraries the program calls (pydub, librosa, the
      transcription backend, feedparser, requests) are oracles collected in
      an environment record.
    - A Python exception is a [Raise] result that keeps the state reached
      when it was raised.
    - What the program prints is not part of the state. *)

From Stdlib Require Import QArith Qround Qabs Qpower Ascii Lqa.
From stdpp Require Import gmap strings list pretty.

Local Open Scope Z_scope.

(** ** Python numbers *)

Module Py.

(** [int(x)] on a float: truncation toward zero. *)
Definition int (x : Q) : Z := Z.quot (Qnum x) (Zpos (Qden x)).

(** [x // y] on floats: the floor of the quotient, as a float. *)
Definition floordiv (x y : Q) : Q := inject_Z (Qfloor (x / y)).

(** [x % y] on floats: the remainder that goes with [//]. *)
Definition mod_ (x y : Q) : Q := (x - y * inject_Z (Qfloor (x / y)))%Q.

(** [x <= y] and [x > y] on floats. *)
Definition le (x y : Q) : bool := Qle_bool x y.
Definition gt (x y : Q) : bool := negb (Qle_bool x y).

(** [max(x, y)]: the first argument unless the second is larger. *)
Definition max (x y : Q) : Q := if gt y x then y else x.

(** ** Python strings *)

Definition nl : string := String (ascii_of_nat 10) EmptyString.

(** [str.isspace] on one character, for code points below 256. *)
Definition isspace (c : ascii) : bool :=
  let n := nat_of_ascii c in
  ((9 <=? n)%nat && (n <=? 13)%nat) || ((28 <=? n)%nat && (n <=? 32)%nat)
  || (n =? 133)%nat || (n =? 160)%nat.

Fixpoint lstrip (s : string) : string :=
  match s with
  | String c s' => if isspace c then lstrip s' else s
  | EmptyString => EmptyString
  end.

(** [s.strip()]. *)
Definition strip (s : string) : string :=
  String.rev (lstrip (String.rev (lstrip s))).

Fixpoint zeros (n : nat) : string :=
  match n with
  | O => EmptyString
  | S n' => String "0"%char (zeros n')
  end.

Definition zfill (width : nat) (s : string) : string :=
  zeros (width - String.length s) +:+ s.

(** [f"{z}"]. *)
Definition str_int (z : Z) : string := pretty z.

(** [f"{z:0Wd}"]: zero padding to width [W], after the sign. *)
Definition fmt_0d (width : nat) (z : Z) : string :=
  match z with
  | Zneg p => "-" +:+ zfill (width - 1) (pretty (Zpos p))
  | _ => zfill width (pretty z)
  end.

(** [s.startswith(p)]. *)
Definition startswith (p s : string) : bool :=
  String.prefix p s.

End Py.

(** ** Doubles

    A finite IEEE 754 double is [m * 2^e] with a mantissa [m] of 53 bits.
    The result of an arithmetic operation on doubles is the exact result
    rounded to the nearest double, to the one with the even mantissa when
    two are equally near. Infinities and NaN have no counterpart: the
    times rounded here stay far below the largest double. *)

Module Double.

(** [floor(log2 |x|)], for [x] other than 0. *)
Definition ilog2 (x : Q) : Z :=
  let l := Z.log2 (Z.abs (Qnum x)) - Z.log2 (Zpos (Qden x)) in
  if Qle_bool (2 ^ l) (Qabs x) then l else l - 1.

(** The exponent of the last place of a double of the size of [x]: 52
    places below the leading bit, and -1074 for the subnormal numbers. *)
Definition exponent (x : Q) : Z := Z.max (-1074) (ilog2 x - 52).

(** The nearest integer, the even one of two that are equally near. *)
Definition nearest_even (t : Q) : Z :=
  let f := Qfloor t in
  match (t - inject_Z f ?= 1 # 2)%Q with
  | Lt => f
  | Gt => f + 1
  | Eq => if Z.even f then f else f + 1
  end.

(** Rounding to the nearest double. *)
Definition round64 (x : Q) : Q :=
  if Qeq_bool x 0 then 0%Q
  else
    let e := exponent x in
    Qred (inject_Z (nearest_even (x / 2 ^ e)) * 2 ^ e).

(** The numbers that are doubles. *)
Definition is_double (x : Q) : Prop :=
  ∃ m e : Z, Z.abs m < 2 ^ 53 ∧ -1074 ≤ e ≤ 971 ∧ (x == inject_Z m * 2 ^ e)%Q.

(** A decimal literal, or a number of a JSON text, as Python reads it. *)
Definition literal (x : Q) : Q := round64 x.

End Double.

(** ** [format_timestamp] (app.py 276-282, podcast_transcriber.py 93-99)

    On a double that is not negative and is below 2^53, [//] and [%] by a
    whole number give the exact quotient and remainder, and [int]
    truncates; the product of the fraction with 1000 is rounded. *)

Definition format_timestamp (seconds : Q) : string :=
  let hours := Py.int (Py.floordiv seconds 3600) in
  let minutes := Py.int (Py.floordiv (Py.mod_ seconds 3600) 60) in
  let secs := Py.int (Py.mod_ seconds 60) in
  let millisecs := Py.int (Double.round64 (Py.mod_ seconds 1 * 1000)) in
  Py.fmt_0d 2 hours +:+ ":" +:+ Py.fmt_0d 2 minutes +:+ ":"
    +:+ Py.fmt_0d 2 secs +:+ "," +:+ Py.fmt_0d 3 millisecs.

(** ** [os.path.splitext] *)

Module OsPath.

(** [s.rfind(c)] scanning from the left: [last] is the answer so far. *)
Fixpoint rfind_from (c : ascii) (s : string) (i last : Z) : Z :=
  match s with
  | EmptyString => last
  | String a s' => rfind_from c s' (i + 1) (if Ascii.eqb a c then i else last)
  end.

Definition rfind (c : ascii) (s : string) : Z := rfind_from c s 0 (-1).

Fixpoint take (n : nat) (s : string) : string :=
  match n, s with
  | S n', String a s' => String a (take n' s')
  | _, _ => EmptyString
  end.

Fixpoint drop (n : nat) (s : string) : string :=
  match n, s with
  | S n', String _ s' => drop n' s'
  | _, _ => s
  end.

Fixpoint has_non_dot (s : string) : bool :=
  match s with
  | EmptyString => false
  | String a s' => negb (Ascii.eqb a ".") || has_non_dot s'
  end.

(** The extension starts at the last dot of the last path component,
    unless only dots precede it there. *)
Definition splitext (p : string) : string * string :=
  let sepIndex := rfind "/" p in
  let dotIndex := rfind "." p in
  if (sepIndex <? dotIndex)
     && has_non_dot (take (Z.to_nat (dotIndex - (sepIndex + 1)))
                          (drop (Z.to_nat (sepIndex + 1)) p))
  then (take (Z.to_nat dotIndex) p, drop (Z.to_nat dotIndex) p)
  else (p, EmptyString).

End OsPath.

(** ** The world the program runs in *)

(** A decoded audio segment is the span of the source timeline it holds,
    in milliseconds. *)
Record AudioSegment := { a_start : Z; a_end : Z }.

Definition audio_len (a : AudioSegment) : Z := a_end a - a_start a.

(** [audio[start:end]]: both positions are clamped to the length. The
    splitter only passes positions that are not negative. *)
Definition audio_slice (a : AudioSegment) (start_time end_time : Z) : AudioSegment :=
  let s := Z.min start_time (audio_len a) in
  let e := Z.min end_time (audio_len a) in
  {| a_start := a_start a + s; a_end := a_start a + Z.max s e |}.

Inductive file :=
| AudioFile (size : Z) (decoded : option AudioSegment)
| TextFile (text : string).

Fixpoint utf8_length (s : string) : Z :=
  match s with
  | EmptyString => 0
  | String c s' => (if (nat_of_ascii c <? 128)%nat then 1 else 2) + utf8_length s'
  end.

Definition file_size (f : file) : Z :=
  match f with
  | AudioFile size _ => size
  | TextFile text => utf8_length text
  end.

Inductive value :=
| VStr (s : string)
| VInt (z : Z)
| VFloat (q : Q).

Inductive exn :=
| FileNotFoundError (path : string)
| PermissionError (path : string)
| ZeroDivisionError
| CouldntDecodeError (path : string)
| EncodeError (path : string)
| KeyError (key : string)
| IndexError
| TypeError
| AttributeError (name : string)
| BackendError (msg : string)
| HTTPError (msg : string)
| PlainException (msg : string).

(** [str(e)]. *)
Definition str_exn (e : exn) : string :=
  match e with
  | FileNotFoundError p => "[Errno 2] No such file or directory: '" +:+ p +:+ "'"
  | PermissionError p => "[Errno 13] Permission denied: '" +:+ p +:+ "'"
  | ZeroDivisionError => "integer division or modulo by zero"
  | CouldntDecodeError p => "Decoding failed: " +:+ p
  | EncodeError p => "Encoding failed: " +:+ p
  | KeyError k => "'" +:+ k +:+ "'"
  | IndexError => "list index out of range"
  | TypeError => "int() argument must be a string, a bytes-like object or a real number"
  | AttributeError n => "object has no attribute '" +:+ n +:+ "'"
  | BackendError m => m
  | HTTPError m => m
  | PlainException m => m
  end.

Record world := {
  w_fs : gmap string file;
  (** [transcription_status] *)
  w_status : gmap string (gmap string value);
  (** [transcription_results] *)
  w_results : gmap string (gmap string value);
  (** every store into [transcription_status[task][key]], newest first *)
  w_trace : list (string * string * value);
  (** reads of the clock and of the random source so far *)
  w_ticks : nat
}.

Definition set_fs (fs : gmap string file) (w : world) : world :=
  {| w_fs := fs; w_status := w_status w; w_results := w_results w;
     w_trace := w_trace w; w_ticks := w_ticks w |}.

Inductive result (A : Type) :=
| Ok (a : A)
| Raise (e : exn).
Arguments Ok {A} a.
Arguments Raise {A} e.

Definition M (A : Type) : Type := world → result A * world.

Global Instance M_ret : MRet M := λ A a w, (Ok a, w).
Global Instance M_bind : MBind M := λ A B k m w,
  match m w with
  | (Ok a, w') => k a w'
  | (Raise e, w') => (Raise e, w')
  end.

Definition raise {A} (e : exn) : M A := λ w, (Raise e, w).

(** [try: body  except Exception as e: handler e]. *)
Definition try_except {A} (body : M A) (handler : exn → M A) : M A := λ w,
  match body w with
  | (Ok a, w') => (Ok a, w')
  | (Raise e, w') => handler e w'
  end.

(** ** Data of the pipeline *)

(** A timed segment as the backend reports it and as the stitcher stores it
    (keys ['start'], ['end'], ['text']). *)
Record TimedSegment := { seg_start : Q; seg_end : Q; seg_text : string }.

(** What the backend returns for one chunk; [ct_segments] is [None] when the
    attribute is missing or holds [None]. *)
Record ChunkTranscript := {
  ct_text : string;
  ct_segments : option (list TimedSegment)
}.

Record enclosure := { enc_type : option string; enc_href : option string }.

(** A feed entry; a field is [None] when feedparser did not find it. *)
Record entry := {
  e_title : option string;
  e_published : option string;
  e_description : option string;
  e_enclosures : option (list enclosure)
}.

(** A streamed HTTP response: the status line, the address the answer came
    from, the [content-length] header, the sizes of the blocks
    [iter_content] yields, and what pydub decodes from the complete body
    ([None] when it cannot decode it). The header, when there is one, is a
    number, and the body arrives whole. *)
Record http_response := {
  r_status_code : Z;
  r_reason : string;
  r_url : string;
  r_content_length : option Z;
  r_blocks : list Z;
  r_decoded : option AudioSegment
}.

(** The text of the [HTTPError] that [raise_for_status] raises: empty for
    a status that is no error. *)
Definition http_error_msg (r : http_response) : string :=
  if (400 <=? r_status_code r) && (r_status_code r <? 500) then
    Py.str_int (r_status_code r) +:+ " Client Error: " +:+ r_reason r
      +:+ " for url: " +:+ r_url r
  else if (500 <=? r_status_code r) && (r_status_code r <? 600) then
    Py.str_int (r_status_code r) +:+ " Server Error: " +:+ r_reason r
      +:+ " for url: " +:+ r_url r
  else "".

(** [raise_for_status] does not raise. *)
Definition r_status_ok (r : http_response) : bool :=
  bool_decide (http_error_msg r = "").

(** ** The libraries and the outside, as oracles *)

Record Env := {
  (** [client] is not [None] *)
  client : bool;
  (** [librosa.get_duration]; [None] when librosa is missing or raises *)
  librosa_get_duration : file → option Q;
  (** size in bytes of the MP3 rendered for a segment; [None] when the
      export raises *)
  mp3_export : AudioSegment → option Z;
  (** [os.remove] is refused on this path *)
  remove_denied : string → bool;
  (** [open(path, 'w')] is refused on this path *)
  write_denied : string → bool;
  (** [client.audio.transcriptions.create] on an opened chunk file *)
  transcriptions_create : file → exn + ChunkTranscript;
  (** [time.time()] at the n-th read *)
  clock : nat → Q;
  (** [str(uuid.uuid4())] at the n-th read *)
  uuid4 : nat → string;
  (** [f"{x:.1f}"] *)
  fmt_1f : Q → string;
  (** [feedparser.parse(url).entries] *)
  feedparser_parse : option string → exn + list entry;
  (** [requests.get(url, stream=True)] *)
  requests_get : string → exn + http_response;
  (** [urlparse(url).path] *)
  urlparse_path : string → string
}.

(** ** File system calls *)

Definition os_path_getsize (path : string) : M Z := λ w,
  match w_fs w !! path with
  | Some f => (Ok (file_size f), w)
  | None => (Raise (FileNotFoundError path), w)
  end.

Definition os_path_exists (path : string) : M bool := λ w,
  (Ok (bool_decide (is_Some (w_fs w !! path))), w).

Definition os_remove (env : Env) (path : string) : M unit := λ w,
  match w_fs w !! path with
  | None => (Raise (FileNotFoundError path), w)
  | Some _ =>
      if remove_denied env path then (Raise (PermissionError path), w)
      else (Ok tt, set_fs (delete path (w_fs w)) w)
  end.

(** [open(path, 'rb')]. *)
Definition open_rb (path : string) : M file := λ w,
  match w_fs w !! path with
  | Some f => (Ok f, w)
  | None => (Raise (FileNotFoundError path), w)
  end.

(** [with open(path, 'w', encoding='utf-8') as f: f.write(text)]. *)
Definition write_text (env : Env) (path text : string) : M unit := λ w,
  if write_denied env path then (Raise (PermissionError path), w)
  else (Ok tt, set_fs (<[path := TextFile text]> (w_fs w)) w).

(** [AudioSegment.from_file(path)]. *)
Definition AudioSegment_from_file (path : string) : M AudioSegment := λ w,
  match w_fs w !! path with
  | None => (Raise (FileNotFoundError path), w)
  | Some (AudioFile _ (Some audio)) => (Ok audio, w)
  | Some _ => (Raise (CouldntDecodeError path), w)
  end.

(** [chunk.export(chunk_file, format="mp3")]. *)
Definition export (env : Env) (chunk : AudioSegment) (chunk_file : string) : M unit := λ w,
  match mp3_export env chunk with
  | Some size =>
      (Ok tt, set_fs (<[chunk_file := AudioFile size (Some chunk)]> (w_fs w)) w)
  | None => (Raise (EncodeError chunk_file), w)
  end.

(** [a // b] on ints. *)
Definition int_floordiv (a b : Z) : M Z :=
  if b =? 0 then raise ZeroDivisionError else mret (a `div` b).

(** [a / b] on floats. *)
Definition float_div (a b : Q) : M Q :=
  if Qeq_bool b 0 then raise ZeroDivisionError else mret (a / b)%Q.

Definition MB : Q := inject_Z (1024 * 1024).

(** ** [get_audio_duration] (app.py 71-81) *)

Definition get_audio_duration (env : Env) (audio_file : string) : M Q :=
  try_except
    (λ w, match w_fs w !! audio_file ≫= librosa_get_duration env with
          | Some duration => (Ok duration, w)
          | None => (Raise (PlainException "librosa"), w)
          end)
    (λ _,
      size ← os_path_getsize audio_file;
      let file_size_mb := (inject_Z size / MB)%Q in
      mret (file_size_mb * 60)%Q).

(** ** [split_audio_if_needed] (app.py 84-140) *)

Definition chunk_name (base_name : string) (i : Z) : string :=
  base_name +:+ "_chunk_" +:+ Py.str_int (i + 1) +:+ ".mp3".

(** The body of [for i in range(num_chunks)], over the remaining indices. *)
Fixpoint split_loop (env : Env) (audio : AudioSegment) (base_name : string)
    (total_duration_ms chunk_duration_ms : Z)
    (indices : list Z) (chunk_files : list string) : M (list string) :=
  match indices with
  | [] => mret chunk_files
  | i :: rest =>
      let start_time := i * chunk_duration_ms in
      let end_time := Z.min ((i + 1) * chunk_duration_ms) total_duration_ms in
      let chunk := audio_slice audio start_time end_time in
      let chunk_file := chunk_name base_name i in
      export env chunk chunk_file;;
      _ ← os_path_getsize chunk_file;
      split_loop env audio base_name total_duration_ms chunk_duration_ms
        rest (chunk_files ++ [chunk_file])
  end.

(** The [try] block. *)
Definition split_audio_try (env : Env) (audio_file : string) (num_chunks : Z)
    : M (list string) :=
  audio ← AudioSegment_from_file audio_file;
  let total_duration_ms := audio_len audio in
  chunk_duration_ms ← int_floordiv total_duration_ms num_chunks;
  let base_name := (OsPath.splitext audio_file).1 in
  chunk_files ← split_loop env audio base_name total_duration_ms
                  chunk_duration_ms (seqZ 0 num_chunks) [];
  os_remove env audio_file;;
  mret chunk_files.

Definition split_audio_if_needed (env : Env) (audio_file : string)
    (max_size_mb : Q) : M (list string) :=
  size ← os_path_getsize audio_file;
  let file_size_mb := (inject_Z size / MB)%Q in
  if Py.le file_size_mb max_size_mb then mret [audio_file]
  else
    ratio ← float_div file_size_mb max_size_mb;
    let num_chunks := Py.int (ratio + 1)%Q in
    try_except (split_audio_try env audio_file num_chunks)
               (λ _, mret [audio_file]).

(** ** The status store *)

(** [transcription_status[task_id][key] = v]. *)
Definition set_status (task_id key : string) (v : value) : M unit := λ w,
  match w_status w !! task_id with
  | None => (Raise (KeyError task_id), w)
  | Some d =>
      (Ok tt,
       {| w_fs := w_fs w;
          w_status := <[task_id := <[key := v]> d]> (w_status w);
          w_results := w_results w;
          w_trace := (task_id, key, v) :: w_trace w;
          w_ticks := w_ticks w |})
  end.

(** [transcription_status[task_id].get(key, default)]. *)
Definition get_status (task_id key : string) (default : value) : M value := λ w,
  match w_status w !! task_id with
  | None => (Raise (KeyError task_id), w)
  | Some d => (Ok (from_option id default (d !! key)), w)
  end.

(** [transcription_results[task_id] = d]. *)
Definition set_result (task_id : string) (d : gmap string value) : M unit := λ w,
  (Ok tt,
   {| w_fs := w_fs w; w_status := w_status w;
      w_results := <[task_id := d]> (w_results w);
      w_trace := w_trace w; w_ticks := w_ticks w |}).

Definition tick (w : world) : world :=
  {| w_fs := w_fs w; w_status := w_status w; w_results := w_results w;
     w_trace := w_trace w; w_ticks := S (w_ticks w) |}.

(** [time.time()]. *)
Definition time_time (env : Env) : M Q := λ w, (Ok (clock env (w_ticks w)), tick w).

(** [str(uuid.uuid4())]. *)
Definition new_uuid (env : Env) : M string := λ w, (Ok (uuid4 env (w_ticks w)), tick w).

Definition lift_call {A} (r : exn + A) : M A :=
  match r with
  | inl e => raise e
  | inr a => mret a
  end.

(** ** Subtitle output (app.py 241-253) *)

(** The [for i, segment in enumerate(transcript.segments, 1)] loop; [buf] is
    what has been written to the file so far. *)
Fixpoint srt_loop (i : Z) (segments : list TimedSegment) (buf : string) : string :=
  match segments with
  | [] => buf
  | segment :: rest =>
      let start_time_srt := format_timestamp (seg_start segment) in
      let end_time_srt := format_timestamp (seg_end segment) in
      let buf := buf +:+ (Py.str_int i +:+ Py.nl) in
      let buf := buf +:+ (start_time_srt +:+ " --> " +:+ end_time_srt +:+ Py.nl) in
      let buf := buf +:+ (Py.strip (seg_text segment) +:+ Py.nl +:+ Py.nl) in
      srt_loop (i + 1) rest buf
  end.

(** What the [with open(output_srt, 'w')] block writes. *)
Definition srt_content (text : string) (segments : list TimedSegment) : string :=
  match segments with
  | _ :: _ => srt_loop 1 segments ""
  | [] =>
      let buf := "" +:+ ("1" +:+ Py.nl) in
      let buf := buf +:+ ("00:00:00,000 --> 00:00:01,000" +:+ Py.nl) in
      buf +:+ text
  end.

(** ** Stitching (app.py 202-214) *)

Definition adjusted_segment (segment : TimedSegment) (time_offset : Q) : TimedSegment :=
  {| seg_start := seg_start segment + time_offset;
     seg_end := seg_end segment + time_offset;
     seg_text := seg_text segment |}.

(** The [for segment in chunk_transcript.segments] loop. *)
Fixpoint append_adjusted (time_offset : Q) (segments all_segments : list TimedSegment)
    : list TimedSegment :=
  match segments with
  | [] => all_segments
  | segment :: rest =>
      append_adjusted time_offset rest
        (all_segments ++ [adjusted_segment segment time_offset])
  end.

(** The timestamp adjustment of chunk [i] of [n]. *)
Definition stitch_chunk (audio_duration : Q) (n i : Z)
    (chunk_transcript : ChunkTranscript) (all_segments : list TimedSegment)
    : M (list TimedSegment) :=
  match ct_segments chunk_transcript with
  | Some (s :: l) =>
      chunk_duration ← float_div audio_duration (inject_Z n);
      let time_offset := (inject_Z i * chunk_duration)%Q in
      mret (append_adjusted time_offset (s :: l) all_segments)
  | _ => mret all_segments
  end.

(** ** [transcribe_audio_openai] (app.py 142-274) *)

(** The [for i, chunk_file in enumerate(audio_chunks)] loop over the
    remaining chunks; [n] is [len(audio_chunks)]. *)
Fixpoint transcribe_chunks (env : Env) (task_id : string) (audio_duration : Q)
    (n i : Z) (chunks : list string)
    (all_segments : list TimedSegment) (full_text : string)
    : M (list TimedSegment * string) :=
  match chunks with
  | [] => mret (all_segments, full_text)
  | chunk_file :: rest =>
      fraction ← float_div (inject_Z i) (inject_Z n);
      let progress := (10 + fraction * 60)%Q in
      set_status task_id "progress" (VFloat progress);;
      set_status task_id "status"
        (VStr ("transcribing chunk " +:+ Py.str_int (i + 1) +:+ "/" +:+ Py.str_int n));;
      _ ← os_path_getsize chunk_file;
      f ← open_rb chunk_file;
      chunk_transcript ← lift_call (transcriptions_create env f);
      let full_text := full_text +:+ (ct_text chunk_transcript +:+ " ") in
      all_segments ← stitch_chunk audio_duration n i chunk_transcript all_segments;
      os_remove env chunk_file;;
      transcribe_chunks env task_id audio_duration n (i + 1) rest
        all_segments full_text
  end.

Definition list_first {A} (l : list A) : M A :=
  match l with
  | x :: _ => mret x
  | [] => raise IndexError
  end.

Definition len {A} (l : list A) : Z := Z.of_nat (length l).

(** The [try] block of [transcribe_audio_openai]. *)
Definition transcribe_try (env : Env)
    (audio_file output_txt output_srt task_id : string) : M unit :=
  (if client env then mret tt
   else raise (PlainException
          "OpenAI API key not configured. Please check your .env file."));;
  set_status task_id "status" (VStr "splitting");;
  set_status task_id "progress" (VInt 5);;
  set_status task_id "debug" (VStr ("Before splitting: " +:+ audio_file));;
  audio_chunks ← split_audio_if_needed env audio_file 24;
  set_status task_id "debug"
    (VStr ("Split into " +:+ Py.str_int (len audio_chunks) +:+ " chunks"));;
  first ← list_first audio_chunks;
  audio_duration ← get_audio_duration env first;
  let audio_duration :=
    if 1 <? len audio_chunks
    then (audio_duration * inject_Z (len audio_chunks))%Q
    else audio_duration in
  set_status task_id "audio_duration" (VFloat audio_duration);;
  let estimated_transcription_time := Py.max 30 (audio_duration * (1 # 10))%Q in
  set_status task_id "status" (VStr "transcribing");;
  set_status task_id "progress" (VInt 10);;
  set_status task_id "eta"
    (VStr (fmt_1f env (estimated_transcription_time / 60)%Q +:+ " min"));;
  upload_start ← time_time env;
  '(all_segments, full_text) ←
    transcribe_chunks env task_id audio_duration (len audio_chunks) 0
      audio_chunks [] "";
  let text := Py.strip full_text in
  let language := "no" in
  let language_probability := 1%Q in
  set_status task_id "status" (VStr "processing");;
  set_status task_id "progress" (VInt 50);;
  set_status task_id "language" (VStr language);;
  set_status task_id "language_probability" (VFloat language_probability);;
  write_text env output_txt text;;
  set_status task_id "progress" (VInt 75);;
  write_text env output_srt (srt_content text all_segments);;
  set_status task_id "status" (VStr "completed");;
  set_status task_id "progress" (VInt 100);;
  episode_title ← get_status task_id "episode_title" (VStr "Unknown");
  now ← time_time env;
  set_result task_id
    (<["txt_file" := VStr output_txt]>
     (<["srt_file" := VStr output_srt]>
      (<["episode_title" := episode_title]>
       (<["language" := VStr language]>
        (<["language_probability" := VFloat language_probability]>
         (<["transcription_time" := VFloat (now - upload_start)%Q]> ∅))))));;
  still_there ← os_path_exists audio_file;
  if still_there : bool then os_remove env audio_file else mret tt.

Definition transcribe_audio_openai (env : Env)
    (audio_file output_txt output_srt task_id : string) : M unit :=
  try_except (transcribe_try env audio_file output_txt output_srt task_id)
    (λ e,
      (set_status task_id "status" (VStr "error");;
       set_status task_id "error" (VStr (str_exn e))) : M unit).

(** ** [get_episodes_from_rss] (app.py 284-314) *)

Record episode := {
  ep_index : Z;
  ep_title : string;
  ep_published : string;
  ep_audio_url : string;
  ep_description : string
}.

(** The [for enclosure in entry.enclosures] loop, up to its [break]. *)
Fixpoint find_audio_enclosure (enclosures : list enclosure) : exn + option string :=
  match enclosures with
  | [] => inr None
  | enclosure :: rest =>
      match enc_type enclosure with
      | None => inl (AttributeError "type")
      | Some type =>
          if Py.startswith "audio/" type then
            match enc_href enclosure with
            | None => inl (AttributeError "href")
            | Some href => inr (Some href)
            end
          else find_audio_enclosure rest
      end
  end.

(** Truth value of [audio_url]: [None] and the empty string are false. *)
Definition truthy_url (audio_url : option string) : option string :=
  match audio_url with
  | Some EmptyString => None
  | other => other
  end.

Definition short_description (description : string) : string :=
  if (200 <? String.length description)%nat
  then OsPath.take 200 description +:+ "..."
  else description.

(** The [for i, entry in enumerate(feed.entries)] loop. *)
Fixpoint collect_episodes (i : Z) (entries : list entry) (episodes : list episode)
    : exn + list episode :=
  match entries with
  | [] => inr episodes
  | entry :: rest =>
      match from_option find_audio_enclosure (inr None) (e_enclosures entry) with
      | inl e => inl e
      | inr audio_url =>
          match truthy_url audio_url with
          | None => collect_episodes (i + 1) rest episodes
          | Some audio_url =>
              match e_title entry with
              | None => inl (AttributeError "title")
              | Some title =>
                  collect_episodes (i + 1) rest
                    (episodes ++
                     [{| ep_index := i;
                         ep_title := title;
                         ep_published := default "Unknown date" (e_published entry);
                         ep_audio_url := audio_url;
                         ep_description :=
                           short_description (default "" (e_description entry)) |}])
              end
          end
      end
  end.

(** Returns the pair [(episodes, error)]. *)
Definition get_episodes_from_rss (env : Env) (rss_url : option string)
    : option (list episode) * option string :=
  let attempt :=
    match feedparser_parse env rss_url with
    | inl e => inl e
    | inr [] => inr (None, Some "No episodes found in RSS feed")
    | inr entries =>
        match collect_episodes 0 entries [] with
        | inl e => inl e
        | inr episodes => inr (Some episodes, None)
        end
    end in
  match attempt with
  | inr answer => answer
  | inl e => (None, Some ("Error parsing RSS feed: " +:+ str_exn e))
  end.

(** ** [download_audio] (app.py 42-69) *)

Definition put_file (path : string) (f : file) : M unit := λ w,
  (Ok tt, set_fs (<[path := f]> (w_fs w)) w).

(** The [for chunk in response.iter_content(...)] loop; a block is given by
    its length. *)
Fixpoint download_blocks (env : Env) (filename task_id : string)
    (total_size : Z) (start_time : Q) (blocks : list Z) (downloaded : Z) : M Z :=
  match blocks with
  | [] => mret downloaded
  | chunk :: rest =>
      if chunk =? 0 then
        download_blocks env filename task_id total_size start_time rest downloaded
      else
        let downloaded := downloaded + chunk in
        put_file filename (AudioFile downloaded None);;
        (if 0 <? total_size then
           let progress := (inject_Z downloaded / inject_Z total_size * 100)%Q in
           now ← time_time env;
           let elapsed := (now - start_time)%Q in
           (if Py.gt progress 0 then
              let eta_seconds := (elapsed / progress * (100 - progress))%Q in
              let eta_minutes := (eta_seconds / 60)%Q in
              set_status task_id "eta" (VStr (fmt_1f env eta_minutes +:+ " min"))
            else mret tt);;
           set_status task_id "download_progress" (VFloat progress);;
           set_status task_id "download_speed"
             (VStr (if Py.gt elapsed 0
                    then fmt_1f env (inject_Z downloaded / 1024 / 1024 / elapsed)%Q
                         +:+ " MB/s"
                    else "0 MB/s"))
         else mret tt);;
        download_blocks env filename task_id total_size start_time rest downloaded
  end.

Definition download_audio (env : Env) (url filename task_id : string) : M string :=
  response ← lift_call (requests_get env url);
  (if r_status_ok response then mret tt
   else raise (HTTPError (http_error_msg response)));;
  let total_size := default 0 (r_content_length response) in
  start_time ← time_time env;
  (if write_denied env filename then raise (PermissionError filename)
   else put_file filename (AudioFile 0 None));;
  downloaded ← download_blocks env filename task_id total_size start_time
                 (r_blocks response) 0;
  put_file filename (AudioFile downloaded (r_decoded response));;
  mret filename.

(** ** [start_transcription] (app.py 344-393) *)

Record form := {
  form_rss_url : option string;
  (** [None]: the field is missing or is not an integer *)
  form_episode_index : option Z
}.

Inductive response :=
| JsonError (code : Z) (message : string)
| JsonTask (task_id : string).

(** What the background thread closes over. *)
Record thread := {
  th_episode : episode;
  th_task_id : string;
  th_audio_filename : string;
  th_txt_filename : string;
  th_srt_filename : string
}.

(** [l[i]] on a list, negative indices counting from the end. *)
Definition list_index {A} (l : list A) (i : Z) : M A :=
  let j := if i <? 0 then len l + i else i in
  if j <? 0 then raise IndexError
  else match l !! Z.to_nat j with
       | Some x => mret x
       | None => raise IndexError
       end.

(** [transcription_status[task_id] = d]. *)
Definition new_status (task_id : string) (d : list (string * value)) : M unit := λ w,
  (Ok tt,
   {| w_fs := w_fs w;
      w_status := <[task_id := list_to_map d]> (w_status w);
      w_results := w_results w;
      w_trace := (reverse ((λ kv, (task_id, kv.1, kv.2)) <$> d)) ++ w_trace w;
      w_ticks := w_ticks w |}).

(** The view function up to [thread.start()]: the response and the thread
    it started, if any. *)
Definition start_transcription (env : Env) (request : form)
    : M (response * option thread) :=
  let rss_url := form_rss_url request in
  episode_index ← from_option mret (raise TypeError) (form_episode_index request);
  let '(episodes, error) := get_episodes_from_rss env rss_url in
  invalid ←
    match error, episodes with
    | Some (String _ _), _ => mret true
    | _, Some episodes => mret (bool_decide (len episodes ≤ episode_index))
    | _, None => raise TypeError
    end;
  if invalid : bool then mret (JsonError 400 "Invalid episode selection", None)
  else
    episode ← list_index (default [] episodes) episode_index;
    task_id ← new_uuid env;
    now ← time_time env;
    new_status task_id
      [("status", VStr "starting");
       ("progress", VInt 0);
       ("episode_title", VStr (ep_title episode));
       ("download_progress", VInt 0);
       ("eta", VStr "Calculating...");
       ("start_time", VFloat now)];;
    let parsed_path := urlparse_path env (ep_audio_url episode) in
    let audio_filename :=
      ("temp_audio_" +:+ task_id) +:+ (OsPath.splitext parsed_path).2 in
    let txt_filename := "transcript_" +:+ task_id +:+ ".txt" in
    let srt_filename := "transcript_" +:+ task_id +:+ ".srt" in
    mret (JsonTask task_id,
          Some {| th_episode := episode; th_task_id := task_id;
                  th_audio_filename := audio_filename;
                  th_txt_filename := txt_filename;
                  th_srt_filename := srt_filename |}).

(** [transcribe_thread], the body of the background thread. *)
Definition transcribe_thread (env : Env) (th : thread) : M unit :=
  let task_id := th_task_id th in
  try_except
    (set_status task_id "status" (VStr "downloading");;
     download_audio env (ep_audio_url (th_episode th)) (th_audio_filename th) task_id;;
     transcribe_audio_openai env (th_audio_filename th) (th_txt_filename th)
       (th_srt_filename th) task_id)
    (λ e,
      (set_status task_id "status" (VStr "error");;
       set_status task_id "error" (VStr (str_exn e))) : M unit).

(** One task from submission to the end of its thread. *)
Definition run_task (env : Env) (request : form) : M response :=
  '(answer, started) ← start_transcription env request;
  match started with
  | Some th => transcribe_thread env th;; mret answer
  | None => mret answer
  end.

(** ** Reading the history of a task *)

(** The values stored under [key] of task [task_id], oldest first. *)
Definition history (task_id key : string) (w : world) : list value :=
  omap (λ '(t, k, v), if decide (t = task_id ∧ k = key) then Some v else None)
       (reverse (w_trace w)).

Definition empty_world : world :=
  {| w_fs := ∅; w_status := ∅; w_results := ∅; w_trace := []; w_ticks := 0 |}.

(** ** Vocabulary of the properties *)

(** The span of the source timeline that iteration [i] of the splitting loop
    cuts out. *)
Definition chunk_span (audio : AudioSegment) (total_duration_ms chunk_duration_ms i : Z)
    : AudioSegment :=
  audio_slice audio (i * chunk_duration_ms)
    (Z.min ((i + 1) * chunk_duration_ms) total_duration_ms).

(** The number of chunks the splitter computes for an oversized file. *)
Definition num_chunks_for (size : Z) (max_size_mb : Q) : Z :=
  Py.int (inject_Z size / MB / max_size_mb + 1)%Q.

(** Everything but the file system is the same in both worlds. *)
Definition same_stores (w w' : world) : Prop :=
  w_status w' = w_status w ∧ w_results w' = w_results w ∧
  w_trace w' = w_trace w ∧ w_ticks w' = w_ticks w.

(** The audio span stored in a file, if it is a decodable audio file. *)
Definition span_of (fs : gmap string file) (path : string) : option AudioSegment :=
  match fs !! path with
  | Some (AudioFile _ (Some a)) => Some a
  | _ => None
  end.

Definition is_digit (c : ascii) : bool :=
  (48 <=? nat_of_ascii c)%nat && (nat_of_ascii c <=? 57)%nat.

Definition two_digits (s : string) : bool :=
  match s with
  | String a (String b EmptyString) => is_digit a && is_digit b
  | _ => false
  end.

Definition three_digits (s : string) : bool :=
  match s with
  | String a (String b (String c EmptyString)) => is_digit a && is_digit b && is_digit c
  | _ => false
  end.

(** The text has the shape [HH:MM:SS,mmm]. *)
Definition is_srt_timestamp (s : string) : bool :=
  two_digits (OsPath.take 2 s)
  && bool_decide (OsPath.take 1 (OsPath.drop 2 s) = ":")
  && two_digits (OsPath.take 2 (OsPath.drop 3 s))
  && bool_decide (OsPath.take 1 (OsPath.drop 5 s) = ":")
  && two_digits (OsPath.take 2 (OsPath.drop 6 s))
  && bool_decide (OsPath.take 1 (OsPath.drop 8 s) = ",")
  && three_digits (OsPath.drop 9 s).

(** The segments a chunk contributes: none when the backend reported none. *)
Definition segments_of (ct : ChunkTranscript) : list TimedSegment :=
  default [] (ct_segments ct).

(** A segment moved by [offset] seconds, its text unchanged. *)
Definition shifted (offset : Q) (s : TimedSegment) : TimedSegment :=
  {| seg_start := seg_start s + offset;
     seg_end := seg_end s + offset;
     seg_text := seg_text s |}.

(** The merged timeline as the specification describes it: the segments of
    chunk [i], [i+1], ... in chunk order, chunk [j] moved by
    [j * (audio_duration / n)]. *)
Fixpoint stitched (audio_duration : Q) (n i : Z) (cts : list ChunkTranscript)
    : list TimedSegment :=
  match cts with
  | [] => []
  | ct :: rest =>
      (shifted (inject_Z i * (audio_duration / inject_Z n)) <$> segments_of ct)
      ++ stitched audio_duration n (i + 1) rest
  end.

(** Every element is at most every later element. *)
Fixpoint non_decreasing (l : list Q) : Prop :=
  match l with
  | [] => True
  | x :: rest => Forall (Qle x) rest ∧ non_decreasing rest
  end.

Definition starts (l : list TimedSegment) : list Q := seg_start <$> l.

(** Two segments with equal times and the same text. *)
Definition same_segment (a b : TimedSegment) : Prop :=
  (seg_start a == seg_start b)%Q ∧ (seg_end a == seg_end b)%Q
  ∧ seg_text a = seg_text b.

(** One subtitle record as the specification describes it. *)
Definition srt_record (index : Z) (s : TimedSegment) : string :=
  Py.str_int index +:+ Py.nl
  +:+ format_timestamp (seg_start s) +:+ " --> " +:+ format_timestamp (seg_end s)
  +:+ Py.nl
  +:+ Py.strip (seg_text s) +:+ Py.nl +:+ Py.nl.

(** The records of the segments, numbered from [index] in order. *)
Fixpoint srt_records (index : Z) (segments : list TimedSegment) : string :=
  match segments with
  | [] => ""
  | s :: rest => srt_record index s +:+ srt_records (index + 1) rest
  end.

(** A progress value as a number. *)
Definition progress_number (v : value) : Q :=
  match v with
  | VInt z => inject_Z z
  | VFloat q => q
  | VStr _ => 0
  end.

(** The status a task had when each value of [key] was stored: the pairs
    (value stored, latest status stored before it), oldest first. *)
Fixpoint with_status_go (task_id key : string) (status : option value)
    (trace : list (string * string * value)) : list (value * option value) :=
  match trace with
  | [] => []
  | (t, k, v) :: rest =>
      if decide (t = task_id) then
        if decide (k = "status") then with_status_go task_id key (Some v) rest
        else if decide (k = key) then
          (v, status) :: with_status_go task_id key status rest
        else with_status_go task_id key status rest
      else with_status_go task_id key status rest
  end.

Definition with_status (task_id key : string) (w : world) : list (value * option value) :=
  with_status_go task_id key None (reverse (w_trace w)).

Definition is_audio_enclosure (e : enclosure) : bool :=
  match enc_type e with
  | Some type => Py.startswith "audio/" type
  | None => false
  end.

(** No entry of the feed carries an audio enclosure. *)
Definition no_audio_enclosure (entries : list entry) : Prop :=
  Forall (λ e, Forall (λ enc, is_audio_enclosure enc = false)
                      (default [] (e_enclosures e))) entries.

(** Decoding, every export and the removal of the original succeed, for a
    file [f] at [audio_file] cut into [n] chunks. *)
Definition splitting_succeeds (env : Env) (f : file) (audio_file : string) (n : Z)
    : Prop :=
  ∃ size audio,
    f = AudioFile size (Some audio) ∧
    remove_denied env audio_file = false ∧
    ∀ i, 0 ≤ i < n →
      is_Some (mp3_export env
                 (chunk_span audio (audio_len audio) (audio_len audio `div` n) i)).

(** ** Concrete runs *)

Module Scenario.

(** One segment per chunk: [0, 5) seconds, and [0, 4) for a chunk that
    starts 40 minutes or more into the source. *)
Definition backend (f : file) : exn + ChunkTranscript :=
  match f with
  | AudioFile _ (Some a) =>
      inr {| ct_text := "hei";
             ct_segments :=
               Some [ {| seg_start := 0;
                         seg_end := if a_start a <? 2400000 then 5 else 4;
                         seg_text := " hei " |} ] |}
  | _ => inl (BackendError "Invalid file format.")
  end.

Definition entries : list entry :=
  [ {| e_title := Some "Episode 1";
       e_published := None;
       e_description := Some "First";
       e_enclosures :=
         Some [ {| enc_type := Some "audio/mpeg";
                   enc_href := Some "http://pod.example/ep.mp3" |} ] |} ].

(** An outside in which everything works: librosa reports the exact
    duration, an export takes 16 bytes per millisecond, nothing is
    refused, and the feed has one episode whose download is [body]. *)
Definition env (body : http_response) : Env :=
  {| client := true;
     librosa_get_duration := λ f,
       match f with
       | AudioFile _ (Some a) => Some (inject_Z (audio_len a) / 1000)%Q
       | _ => None
       end;
     mp3_export := λ a, Some (audio_len a * 16);
     remove_denied := λ _, false;
     write_denied := λ _, false;
     transcriptions_create := backend;
     clock := λ n, inject_Z (Z.of_nat n);
     uuid4 := λ _, "t";
     fmt_1f := λ q, Py.str_int (Qfloor q) +:+ ".0";
     feedparser_parse := λ _, inr entries;
     requests_get := λ _, inr body;
     urlparse_path := λ _, "/ep.mp3" |}.

Definition body_of (size : Z) (decoded : option AudioSegment) : http_response :=
  {| r_status_code := 200; r_reason := "OK"; r_url := "http://pod.example/ep.mp3";
     r_content_length := Some size; r_blocks := [size]; r_decoded := decoded |}.

Definition no_body : http_response := body_of 0 None.

(** A world with one audio file, [ep.mp3], and one task, [t]. *)
Definition world_with (f : file) : world :=
  {| w_fs := {[ "ep.mp3" := f ]};
     w_status := {[ "t" := ∅ ]};
     w_results := ∅; w_trace := []; w_ticks := 0 |}.

(** 10 MiB, ten minutes. *)
Definition asset_10mb : file :=
  AudioFile 10485760 (Some {| a_start := 0; a_end := 600000 |}).

(** 50 MiB, one hour and one millisecond. *)
Definition asset_50mb : file :=
  AudioFile 52428800 (Some {| a_start := 0; a_end := 3600001 |}).

(** 50 MiB that pydub cannot decode. *)
Definition broken_50mb : file := AudioFile 52428800 None.

(** 80 MiB, one hour. *)
Definition audio_80mb : AudioSegment := {| a_start := 0; a_end := 3600000 |}.

Definition submit : form :=
  {| form_rss_url := Some "http://pod.example/rss"; form_episode_index := Some 0 |}.

End Scenario.

(** The start times of chunk [i] are in order and not negative, and each
    of them, moved by the offset of the chunk, is at most the offset of the
    next chunk. *)
Definition starts_within_slot (audio_duration : Q) (n i : Z)
    (ct : ChunkTranscript) : Prop :=
  let d := (audio_duration / inject_Z n)%Q in
  non_decreasing (starts (segments_of ct)) ∧
  Forall (λ s, (0 <= seg_start s)%Q ∧
               (seg_start (shifted (inject_Z i * d) s) <= inject_Z (i + 1) * d)%Q)
         (segments_of ct).

(** Arithmetic that rounds: [fl] gives the number that is stored for an
    exact result. It keeps the order, leaves what it has rounded as it is,
    and leaves 0. *)
Record rounding (fl : Q → Q) : Prop := {
  fl_monotone : ∀ x y, (x <= y)%Q → (fl x <= fl y)%Q;
  fl_idempotent : ∀ x, (fl (fl x) == fl x)%Q;
  fl_zero : (fl 0 == 0)%Q
}.

(** The stitcher's arithmetic with every quotient, product and sum rounded
    by [fl]: the offset of chunk [i], a segment moved by an offset, the
    merged timeline, and the condition on the start times of chunk [i]. *)
Definition offset_with (fl : Q → Q) (audio_duration : Q) (n i : Z) : Q :=
  fl (inject_Z i * fl (audio_duration / inject_Z n))%Q.

Definition shifted_with (fl : Q → Q) (offset : Q) (s : TimedSegment) : TimedSegment :=
  {| seg_start := fl (seg_start s + offset)%Q;
     seg_end := fl (seg_end s + offset)%Q;
     seg_text := seg_text s |}.

Fixpoint stitched_with (fl : Q → Q) (audio_duration : Q) (n i : Z)
    (cts : list ChunkTranscript) : list TimedSegment :=
  match cts with
  | [] => []
  | ct :: rest =>
      (shifted_with fl (offset_with fl audio_duration n i) <$> segments_of ct)
      ++ stitched_with fl audio_duration n (i + 1) rest
  end.

Definition starts_within_slot_with (fl : Q → Q) (audio_duration : Q) (n i : Z)
    (ct : ChunkTranscript) : Prop :=
  non_decreasing (starts (segments_of ct)) ∧
  Forall (λ s, (0 <= seg_start s)%Q ∧
               (seg_start (shifted_with fl (offset_with fl audio_duration n i) s)
                <= offset_with fl audio_duration n (i + 1))%Q)
         (segments_of ct).

(** The chunk-local start times are in order and not negative. *)
Definition chunk_local_sorted (ct : ChunkTranscript) : Prop :=
  non_decreasing (starts (segments_of ct)) ∧
  Forall (λ s, 0 <= seg_start s)%Q (segments_of ct).

Module Scenario2.

(** Two segments per chunk, at 0 s and at 600 s of the chunk. *)
Definition backend (f : file) : exn + ChunkTranscript :=
  inr {| ct_text := "hei";
         ct_segments :=
           Some [ {| seg_start := 0; seg_end := 5; seg_text := "en" |};
                  {| seg_start := 600; seg_end := 605; seg_text := "to" |} ] |}.

(** As [Scenario.env], but librosa is not installed, so that durations are
    estimated from file sizes, and an export takes 8 bytes per
    millisecond. *)
Definition env : Env :=
  let e := Scenario.env Scenario.no_body in
  {| client := client e;
     librosa_get_duration := λ _, None;
     mp3_export := λ a, Some (audio_len a * 8);
     remove_denied := remove_denied e;
     write_denied := write_denied e;
     transcriptions_create := backend;
     clock := clock e;
     uuid4 := uuid4 e;
     fmt_1f := fmt_1f e;
     feedparser_parse := feedparser_parse e;
     requests_get := requests_get e;
     urlparse_path := urlparse_path e |}.

(** The steps of [transcribe_try] between the split and the end of the
    chunk loop, on the 50 MiB file. *)
Definition after_split : result (list string) * world :=
  split_audio_if_needed env "ep.mp3" 24 (Scenario.world_with Scenario.asset_50mb).

Definition chunks : list string :=
  ["ep_chunk_1.mp3"; "ep_chunk_2.mp3"; "ep_chunk_3.mp3"].

Definition first_duration : result Q * world :=
  get_audio_duration env "ep_chunk_1.mp3" after_split.2.

(** 9600000 bytes are 9.155... MiB, estimated as 549.3... seconds. *)
Definition audio_duration : Q := (inject_Z 9600000 / MB * 60 * 3)%Q.

End Scenario2.

Module Scenario3.

(** The feed has one episode whose download is 80 MiB and lasts an hour. *)
Definition env : Env :=
  Scenario.env (Scenario.body_of 83886080 (Some Scenario.audio_80mb)).

(** The task from its submission to the end of its thread. *)
Definition run : result response * world :=
  run_task env Scenario.submit empty_world.

(** A feed whose only entry has a picture and no audio. *)
Definition picture_entries : list entry :=
  [ {| e_title := Some "Episode 1";
       e_published := None;
       e_description := None;
       e_enclosures :=
         Some [ {| enc_type := Some "image/png";
                   enc_href := Some "http://pod.example/ep.png" |} ] |} ].

Definition picture_env : Env :=
  let e := Scenario.env Scenario.no_body in
  {| client := client e;
     librosa_get_duration := librosa_get_duration e;
     mp3_export := mp3_export e;
     remove_denied := remove_denied e;
     write_denied := write_denied e;
     transcriptions_create := transcriptions_create e;
     clock := clock e;
     uuid4 := uuid4 e;
     fmt_1f := fmt_1f e;
     feedparser_parse := λ _, inr picture_entries;
     requests_get := requests_get e;
     urlparse_path := urlparse_path e |}.

End Scenario3.

(** ** Vocabulary of the further properties *)

(** The first enclosure of an entry that is an audio enclosure. *)
Definition first_audio (e : entry) : option enclosure :=
  head (filter (λ enc, is_audio_enclosure enc = true) (default [] (e_enclosures e))).

(** The feed positions are strictly increasing along the list. *)
Definition increasing_positions (episodes : list episode) : Prop :=
  ∀ j k a b, (j < k)%nat → episodes !! j = Some a → episodes !! k = Some b →
    ep_index a < ep_index b.

(** The episode was made from the entry at its feed position, counted from
    [base]: its address is the non-empty [href] of the entry's first audio
    enclosure, and title, date and description are the entry's. *)
Definition episode_from (entries : list entry) (base : Z) (ep : episode) : Prop :=
  base ≤ ep_index ep ∧
  ∃ e enc,
    entries !! Z.to_nat (ep_index ep - base) = Some e ∧
    first_audio e = Some enc ∧
    enc_href enc = Some (ep_audio_url ep) ∧ ep_audio_url ep ≠ "" ∧
    e_title e = Some (ep_title ep) ∧
    ep_published ep = default "Unknown date" (e_published e) ∧
    ep_description ep = short_description (default "" (e_description e)).

(** The byte counts after each block that is not empty, starting from
    [downloaded]. *)
Fixpoint running_totals (downloaded : Z) (blocks : list Z) : list Z :=
  match blocks with
  | [] => []
  | b :: rest =>
      if b =? 0 then running_totals downloaded rest
      else (downloaded + b) :: running_totals (downloaded + b) rest
  end.

Definition total_bytes (blocks : list Z) : Z := foldr Z.add 0 blocks.

(** The values that the stores [delta] (newest first) put under [key] of
    task [task_id], oldest first. *)
Definition stored (task_id key : string) (delta : list (string * string * value))
    : list value :=
  omap (λ '(t, k, v), if decide (t = task_id ∧ k = key) then Some v else None)
       (reverse delta).

(** A dictionary after the stores [delta] (newest first). *)
Definition replay (delta : list (string * string * value)) (d : gmap string value)
    : gmap string value :=
  foldr (λ e acc, <[e.1.2 := e.2]> acc) d delta.

(** [w'] is reached from [w] by the stores [delta] into the dictionary of
    task [task_id], and by nothing else that touches the status store. *)
Definition run_from (task_id : string) (w w' : world)
    (delta : list (string * string * value)) : Prop :=
  w_trace w' = delta ++ w_trace w ∧
  Forall (λ e, e.1.1 = task_id) delta ∧
  (∀ d, w_status w !! task_id = Some d →
        w_status w' !! task_id = Some (replay delta d)) ∧
  (∀ other, other ≠ task_id → w_status w' !! other = w_status w !! other).

(** The keys of the stores. *)
Definition keys_of (delta : list (string * string * value)) : list string :=
  (λ e, e.1.2) <$> delta.

(** The stores of status and progress among [delta] (newest first), as
    pairs of key and value, oldest first. *)
Fixpoint sp_of (delta : list (string * string * value)) : list (string * value) :=
  match delta with
  | [] => []
  | (_, k, v) :: rest =>
      sp_of rest ++
      (if (k =? "status")%string || (k =? "progress")%string then [(k, v)] else [])
  end.

(** The stores of status and progress for chunk [i] of [n]. *)
Definition chunk_events (n i : Z) : list (string * value) :=
  [ ("progress", VFloat (10 + inject_Z i / inject_Z n * 60)%Q);
    ("status",
     VStr ("transcribing chunk " +:+ Py.str_int (i + 1) +:+ "/" +:+ Py.str_int n)) ].

(** Those for [count] chunks from chunk [i] on. *)
Fixpoint loop_events (n i : Z) (count : nat) : list (string * value) :=
  match count with
  | O => []
  | S c => chunk_events n i ++ loop_events n (i + 1) c
  end.

(** Those of a whole run of [transcribe_audio_openai] with [n] chunks that
    meets no exception. *)
Definition run_events (n : Z) : list (string * value) :=
  [ ("status", VStr "splitting"); ("progress", VInt 5);
    ("status", VStr "transcribing"); ("progress", VInt 10) ]
  ++ loop_events n 0 (Z.to_nat n)
  ++ [ ("status", VStr "processing"); ("progress", VInt 50);
       ("progress", VInt 75);
       ("status", VStr "completed"); ("progress", VInt 100) ].

(** The values of [key] among such pairs. *)
Definition values_of (key : string) (events : list (string * value)) : list value :=
  omap (λ kv, if decide (kv.1 = key) then Some kv.2 else None) events.

(** The status of a task in the store. *)
Definition status_of (task_id : string) (w : world) : option value :=
  w_status w !! task_id ≫= (λ d, d !! "status").

(** The keys that [download_audio] stores under, besides the status. *)
Definition download_keys : list string := ["eta"; "download_progress"; "download_speed"].

(** The keys that [transcribe_audio_openai] stores under before its
    handler runs. *)
Definition run_keys : list string :=
  ["status"; "progress"; "debug"; "audio_duration"; "eta"; "language";
   "language_probability"].

(** An entry of a task's dictionary in the status store. *)
Definition entry_of (task_id key : string) (w : world) : option value :=
  w_status w !! task_id ≫= (λ d, d !! key).

(** ** The routes that read the stores (app.py 320-342, 395-435) *)

(** [s.replace(old, new)] for two characters. *)
Fixpoint str_replace (old new : ascii) (s : string) : string :=
  match s with
  | EmptyString => EmptyString
  | String c rest =>
      String (if Ascii.eqb c old then new else c) (str_replace old new rest)
  end.

Module Routes.

(** Exceptions of these routes that the pipeline does not raise. *)
Inductive error :=
| Builtin (e : exn)
| ValueError (msg : string).

(** What is left to the outside. *)
Record Outside := {
  (** [url_for('download_file', task_id=..., file_type=...)] *)
  url_for_download_file : string → string → string;
  (** [os.path.exists(n)] for an integer, which is taken as a descriptor *)
  fd_exists : Z → bool
}.

(** *** [parse_rss] (app.py 320-342) *)

Inductive parse_response :=
(** [flash(message, 'error')], then [redirect(url_for('index'))] *)
| FlashRedirect (message : string)
(** [render_template('episode_selection.html', ...)] *)
| EpisodeSelection (episodes all_episodes : list episode) (rss_url : string)
    (has_more : bool).

Definition parse_rss (env : Env) (rss_url : option string) : exn + parse_response :=
  match rss_url with
  | None | Some EmptyString => inr (FlashRedirect "Please enter an RSS feed URL")
  | Some url =>
      let '(episodes, error) := get_episodes_from_rss env rss_url in
      match error with
      | Some (String c message) => inr (FlashRedirect (String c message))
      | _ =>
          match episodes with
          | None => inl TypeError
          | Some episodes =>
              let episodes_to_show := take 10 episodes in
              let has_more := bool_decide (10 < len episodes) in
              inr (EpisodeSelection episodes_to_show episodes url has_more)
          end
      end
  end.

(** *** [get_status] (app.py 395-414) *)

Inductive status_response :=
(** [jsonify({'error': 'Task not found'}), 404] *)
| TaskNotFound
(** [jsonify(status)] *)
| StatusJson (status : gmap string value).

Definition number_of (v : value) : option Q :=
  match v with
  | VInt z => Some (inject_Z z)
  | VFloat q => Some q
  | VStr _ => None
  end.

Definition is_completed (v : value) : bool :=
  match v with
  | VStr s => String.eqb s "completed"
  | _ => false
  end.

Definition get_status (env : Env) (out : Outside) (task_id : string) (w : world)
    : (error + status_response) * world :=
  match w_status w !! task_id with
  | None => (inr TaskNotFound, w)
  | Some d =>
      (* status = transcription_status[task_id].copy() *)
      let status := d in
      let timed : (error + gmap string value) * world :=
        match status !! "start_time" with
        | None => (inr status, w)
        | Some start_time =>
            let now := clock env (w_ticks w) in
            match number_of start_time with
            | None => (inl (Builtin TypeError), tick w)
            | Some t =>
                let elapsed := (now - t)%Q in
                (inr (<["elapsed_time" := VStr (fmt_1f env (elapsed / 60) +:+ " min")]>
                        status),
                 tick w)
            end
        end in
      match timed with
      | (inl e, w) => (inl e, w)
      | (inr status, w) =>
          match status !! "status" with
          | None => (inl (Builtin (KeyError "status")), w)
          | Some s =>
              if is_completed s then
                match w_results w !! task_id with
                | None => (inr (StatusJson status), w)
                | Some result =>
                    let status :=
                      <["download_txt" := VStr (url_for_download_file out task_id "txt")]>
                        status in
                    let status :=
                      <["download_srt" := VStr (url_for_download_file out task_id "srt")]>
                        status in
                    match result !! "transcription_time" with
                    | None => (inr (StatusJson status), w)
                    | Some seconds =>
                        match number_of seconds with
                        | None =>
                            (inl (ValueError
                                    "Unknown format code 'f' for object of type 'str'"),
                             w)
                        | Some seconds =>
                            (inr (StatusJson
                                    (<["actual_transcription_time" :=
                                         VStr (fmt_1f env seconds +:+ " seconds")]>
                                       status)),
                             w)
                        end
                    end
                end
              else (inr (StatusJson status), w)
          end
      end
  end.

(** *** [download_file] (app.py 416-435) *)

Inductive download_response :=
(** [return body, code] *)
| TextAnswer (body : string) (code : Z)
(** [send_file(filename, as_attachment=True, download_name=download_name)] *)
| SendFile (filename : value) (download_name : string).

(** [result[key]]. *)
Definition item (result : gmap string value) (key : string) : M value :=
  match result !! key with
  | Some v => mret v
  | None => raise (KeyError key)
  end.

(** [f"{title.replace(' ', '_')}.{ext}"]. *)
Definition download_name_of (title : value) (ext : string) : M string :=
  match title with
  | VStr s => mret (str_replace " " "_" s +:+ "." +:+ ext)
  | _ => raise (AttributeError "replace")
  end.

(** [os.path.exists(filename)]. *)
Definition exists_value (out : Outside) (filename : value) : M bool :=
  match filename with
  | VStr path => os_path_exists path
  | VInt n => mret (fd_exists out n)
  | VFloat _ => raise TypeError
  end.

Definition download_file (out : Outside) (task_id file_type : string)
    : M download_response := λ w,
  match w_results w !! task_id with
  | None => (Ok (TextAnswer "File not found" 404), w)
  | Some result =>
      (named ←
         (if String.eqb file_type "txt" then
            filename ← item result "txt_file";
            title ← item result "episode_title";
            download_name ← download_name_of title "txt";
            mret (Some (filename, download_name))
          else if String.eqb file_type "srt" then
            filename ← item result "srt_file";
            title ← item result "episode_title";
            download_name ← download_name_of title "srt";
            mret (Some (filename, download_name))
          else mret None);
       match named with
       | None => mret (TextAnswer "Invalid file type" 400)
       | Some (filename, download_name) =>
           found ← exists_value out filename;
           if found : bool then mret (SendFile filename download_name)
           else mret (TextAnswer "File not found" 404)
       end) w
  end.

End Routes.

(** ** The command line tool (podcast_transcriber.py 102-142) *)

Module Cli.

(** The listing loop [for i, entry in enumerate(feed.entries[:10])]: what
    it prints is not modelled, the exception of [entry.title] is. *)
Fixpoint list_entries (entries : list entry) : exn + unit :=
  match entries with
  | [] => inr tt
  | entry :: rest =>
      match e_title entry with
      | None => inl (AttributeError "title")
      | Some _ => list_entries rest
      end
  end.

(** [l[i]]. *)
Definition index {A} (l : list A) (i : Z) : exn + A :=
  let j := if i <? 0 then len l + i else i in
  if j <? 0 then inl IndexError
  else match l !! Z.to_nat j with
       | Some x => inr x
       | None => inl IndexError
       end.

(** Returns the pair [(audio_url, episode.title)]. *)
Definition get_audio_url_from_rss (env : Env) (rss_url : string) (episode_index : Z)
    : Routes.error + (string * string) :=
  match feedparser_parse env (Some rss_url) with
  | inl e => inl (Routes.Builtin e)
  | inr [] => inl (Routes.ValueError "No episodes found in RSS feed")
  | inr entries =>
      match list_entries (take 10 entries) with
      | inl e => inl (Routes.Builtin e)
      | inr _ =>
          if bool_decide (len entries ≤ episode_index) then
            inl (Routes.ValueError
                   ("Episode index " +:+ Py.str_int episode_index
                    +:+ " not found. Available: 0-"
                    +:+ Py.str_int (len entries - 1)))
          else
            match index entries episode_index with
            | inl e => inl (Routes.Builtin e)
            | inr episode =>
                match e_title episode with
                | None => inl (Routes.Builtin (AttributeError "title"))
                | Some title =>
                    match from_option find_audio_enclosure (inr None)
                            (e_enclosures episode) with
                    | inl e => inl (Routes.Builtin e)
                    | inr audio_url =>
                        match truthy_url audio_url with
                        | None =>
                            inl (Routes.ValueError
                                   "No audio file found in the selected episode")
                        | Some audio_url => inr (audio_url, title)
                        end
                    end
                end
            end
      end
  end.

End Cli.

(** ** The earlier version of the application (app_old.py 27-121) *)

Module Old.

(** What [model.transcribe] returns: the segments the generator yields,
    the exception it raises after them, if any, and the language
    information. *)
Record transcription := {
  tr_segments : list TimedSegment;
  tr_failure : option exn;
  tr_language : string;
  tr_language_probability : Q
}.

(** faster-whisper. *)
Record Whisper := {
  (** the exception of [WhisperModel("large-v3", compute_type="int8")], if any *)
  load_model : option exn;
  (** the n-th call of [model.transcribe] on what is at the path *)
  model_transcribe : nat → option file → exn + transcription
}.

(** [task_id in transcription_status]. *)
Definition status_has (task_id : string) : M bool := λ w,
  (Ok (bool_decide (is_Some (w_status w !! task_id))), w).

(** The [for chunk in response.iter_content(...)] loop of [download_audio];
    a block is given by its length. *)
Fixpoint download_blocks (filename : string) (total_size : Z) (blocks : list Z)
    (downloaded : Z) : M Z :=
  match blocks with
  | [] => mret downloaded
  | chunk :: rest =>
      if chunk =? 0 then download_blocks filename total_size rest downloaded
      else
        let downloaded := downloaded + chunk in
        put_file filename (AudioFile downloaded None);;
        (if 0 <? total_size then
           let progress := (inject_Z downloaded / inject_Z total_size * 100)%Q in
           known ← status_has filename;
           if known : bool
           then set_status filename "download_progress" (VFloat progress)
           else mret tt
         else mret tt);;
        download_blocks filename total_size rest downloaded
  end.

Definition download_audio (env : Env) (url filename : string) : M string :=
  response ← lift_call (requests_get env url);
  (if r_status_ok response then mret tt
   else raise (HTTPError (http_error_msg response)));;
  let total_size := default 0 (r_content_length response) in
  (if write_denied env filename then raise (PermissionError filename)
   else put_file filename (AudioFile 0 None));;
  downloaded ← download_blocks filename total_size (r_blocks response) 0;
  put_file filename (AudioFile downloaded (r_decoded response));;
  mret filename.

(** A [for segment in segments] loop that writes to [path]: the file holds
    what was written when the generator raises. *)
Definition write_segments (env : Env) (path : string) (content : string)
    (t : transcription) : M unit :=
  write_text env path content;;
  match tr_failure t with
  | Some e => raise e
  | None => mret tt
  end.

(** What the first loop writes: [segment.text + " "] for each segment. *)
Definition txt_content (segments : list TimedSegment) : string :=
  foldl (λ buf segment, buf +:+ (seg_text segment +:+ " ")) "" segments.

(** The [try] block of [transcribe_audio]. *)
Definition transcribe_try (env : Env) (whisper : Whisper)
    (audio_file output_txt output_srt task_id : string) : M unit :=
  set_status task_id "status" (VStr "loading_model");;
  set_status task_id "progress" (VInt 0);;
  from_option raise (mret tt) (load_model whisper);;
  set_status task_id "status" (VStr "transcribing");;
  set_status task_id "progress" (VInt 10);;
  audio ← (λ w, (Ok (w_fs w !! audio_file), w));
  first_call ← lift_call (model_transcribe whisper 0 audio);
  set_status task_id "progress" (VInt 50);;
  set_status task_id "language" (VStr (tr_language first_call));;
  set_status task_id "language_probability"
    (VFloat (tr_language_probability first_call));;
  write_segments env output_txt (txt_content (tr_segments first_call)) first_call;;
  set_status task_id "progress" (VInt 75);;
  audio ← (λ w, (Ok (w_fs w !! audio_file), w));
  second_call ← lift_call (model_transcribe whisper 1 audio);
  write_segments env output_srt (srt_loop 1 (tr_segments second_call) "") second_call;;
  set_status task_id "status" (VStr "completed");;
  set_status task_id "progress" (VInt 100);;
  episode_title ← get_status task_id "episode_title" (VStr "Unknown");
  set_result task_id
    (<["txt_file" := VStr output_txt]>
     (<["srt_file" := VStr output_srt]>
      (<["episode_title" := episode_title]>
       (<["language" := VStr (tr_language first_call)]>
        (<["language_probability" :=
             VFloat (tr_language_probability first_call)]> ∅)))));;
  still_there ← os_path_exists audio_file;
  if still_there : bool then os_remove env audio_file else mret tt.

Definition transcribe_audio (env : Env) (whisper : Whisper)
    (audio_file output_txt output_srt task_id : string) : M unit :=
  try_except (transcribe_try env whisper audio_file output_txt output_srt task_id)
    (λ e,
      (set_status task_id "status" (VStr "error");;
       set_status task_id "error" (VStr (str_exn e))) : M unit).

End Old.

(** The stores of status and progress of a whole run of the earlier
    [transcribe_audio] that meets no exception. *)
Definition old_events : list (string * value) :=
  [ ("status", VStr "loading_model"); ("progress", VInt 0);
    ("status", VStr "transcribing"); ("progress", VInt 10);
    ("progress", VInt 50); ("progress", VInt 75);
    ("status", VStr "completed"); ("progress", VInt 100) ].

(** All that [w'] has stored since [w] is stored for [task_id], and no
    other task has changed. *)
Definition stores_only_for (task_id : string) (w w' : world) : Prop :=
  ∃ delta,
    w_trace w' = delta ++ w_trace w ∧
    Forall (λ e, e.1.1 = task_id) delta ∧
    ∀ other, other ≠ task_id → w_status w' !! other = w_status w !! other.

(** ** Reading a time stamp back *)

Definition digit_value (c : ascii) : option Z :=
  let n := Z.of_nat (nat_of_ascii c) in
  if (48 <=? n) && (n <=? 57) then Some (n - 48) else None.

Fixpoint digits_value (acc : Z) (s : string) : option Z :=
  match s with
  | EmptyString => Some acc
  | String c rest =>
      match digit_value c with
      | Some d => digits_value (acc * 10 + d) rest
      | None => None
      end
  end.

(** The number of milliseconds that a time stamp [HH:MM:SS,mmm] denotes. *)
Definition timestamp_ms (s : string) : option Z :=
  if is_srt_timestamp s then
    match digits_value 0 (OsPath.take 2 s),
          digits_value 0 (OsPath.take 2 (OsPath.drop 3 s)),
          digits_value 0 (OsPath.take 2 (OsPath.drop 6 s)),
          digits_value 0 (OsPath.drop 9 s) with
    | Some h, Some m, Some sec, Some ms =>
        Some (((h * 60 + m) * 60 + sec) * 1000 + ms)
    | _, _, _, _ => None
    end
  else None.

(** The exception of a download that fails before anything is written. *)
Definition download_failure (env : Env) (url filename : string) : option exn :=
  match requests_get env url with
  | inl e => Some e
  | inr response =>
      if negb (r_status_ok response) then Some (HTTPError (http_error_msg response))
      else if write_denied env filename then Some (PermissionError filename)
      else None
  end.

(** An outside like [env] in which the feed has the given entries. *)
Definition with_feed (env : Env) (entries : list entry) : Env :=
  {| client := client env;
     librosa_get_duration := librosa_get_duration env;
     mp3_export := mp3_export env;
     remove_denied := remove_denied env;
     write_denied := write_denied env;
     transcriptions_create := transcriptions_create env;
     clock := clock env;
     uuid4 := uuid4 env;
     fmt_1f := fmt_1f env;
     feedparser_parse := λ _, inr entries;
     requests_get := requests_get env;
     urlparse_path := urlparse_path env |}.

(** An entry with audio and a description of 250 characters. *)
Definition long_entry : entry :=
  {| e_title := Some "Episode 2";
     e_published := None;
     e_description := Some (Py.zeros 250);
     e_enclosures :=
       Some [ {| enc_type := Some "audio/mpeg";
                 enc_href := Some "http://pod.example/ep2.mp3" |} ] |}.

(** An outside like [Scenario.env] in which only a segment that starts at
    the beginning of the audio can be exported. *)
Definition first_export_only : Env :=
  let e := Scenario.env Scenario.no_body in
  {| client := client e;
     librosa_get_duration := librosa_get_duration e;
     mp3_export := λ a, if a_start a =? 0 then Some (audio_len a * 16) else None;
     remove_denied := remove_denied e;
     write_denied := write_denied e;
     transcriptions_create := transcriptions_create e;
     clock := clock e;
     uuid4 := uuid4 e;
     fmt_1f := fmt_1f e;
     feedparser_parse := feedparser_parse e;
     requests_get := requests_get e;
     urlparse_path := urlparse_path e |}.

(** 25 MiB, 25 minutes. *)
Definition asset_25mb : file :=
  AudioFile 26214400 (Some {| a_start := 0; a_end := 1500000 |}).

(** * Properties *)

(** ** Rational floors *)

Section floors.
Implicit Types (x : Q) (z k : Z).

Lemma Qfloor_unique x z :
  (inject_Z z <= x)%Q → (x < inject_Z (z + 1))%Q → Qfloor x = z.
Proof.
  intros Hlo Hhi.
  pose proof (Qfloor_le x) as H1. pose proof (Qlt_floor x) as H2.
  assert (Qfloor x < z + 1).
  { rewrite Zlt_Qlt. eapply Qle_lt_trans; eauto. }
  assert (z < Qfloor x + 1).
  { rewrite Zlt_Qlt. eapply Qle_lt_trans; eauto. }
  lia.
Qed.

Lemma inject_Z_sub z k : inject_Z (z - k) = (inject_Z z - inject_Z k)%Q.
Proof. unfold Z.sub, Qminus. by rewrite inject_Z_plus, inject_Z_opp. Qed.

Lemma inject_Z_pos k : 0 < k → (0 < inject_Z k)%Q.
Proof. intros Hk. by rewrite (Zlt_Qlt 0 k) in Hk. Qed.

Lemma Qfloor_sub_Z x z : Qfloor (x - inject_Z z) = Qfloor x - z.
Proof.
  apply Qfloor_unique.
  - pose proof (Qfloor_le x). rewrite inject_Z_sub. lra.
  - pose proof (Qlt_floor x). rewrite !inject_Z_plus, inject_Z_sub in *. lra.
Qed.

Lemma Qfloor_add_1 x : Qfloor (x + 1) = Qfloor x + 1.
Proof.
  pose proof (Qfloor_le x). pose proof (Qlt_floor x).
  apply Qfloor_unique; rewrite !inject_Z_plus in *;
    change (inject_Z 1) with 1%Q in *; lra.
Qed.

Lemma Qfloor_div_pos x k : 0 < k → Qfloor (x / inject_Z k) = Qfloor x `div` k.
Proof.
  intros Hk. pose proof (inject_Z_pos k Hk) as Hk'.
  pose proof (Z.div_mod (Qfloor x) k ltac:(lia)) as Hdm.
  pose proof (Z.mod_pos_bound (Qfloor x) k Hk) as Hmod.
  apply Qfloor_unique.
  - pose proof (Qfloor_le x).
    assert (inject_Z (Qfloor x `div` k) * inject_Z k <= inject_Z (Qfloor x))%Q.
    { rewrite <- inject_Z_mult, <- Zle_Qle. nia. }
    apply Qle_shift_div_l; [done|]. lra.
  - pose proof (Qlt_floor x).
    apply Qlt_shift_div_r; [done|].
    assert (inject_Z (Qfloor x + 1)
            <= inject_Z (Qfloor x `div` k + 1) * inject_Z k)%Q.
    { rewrite <- inject_Z_mult, <- Zle_Qle. nia. }
    lra.
Qed.

Lemma Qfloor_scaled x : Qfloor x = Qfloor (x * 1000) `div` 1000.
Proof.
  rewrite <- (Qfloor_div_pos (x * 1000) 1000) by lia.
  apply Qfloor_comp. change (inject_Z 1000) with 1000%Q. field.
Qed.

(** [int] truncates; on a non-negative float that is the floor. *)
Lemma int_of_nonneg x : (0 <= x)%Q → Py.int x = Qfloor x.
Proof.
  destruct x as [n d]. unfold Qle, Py.int, Qfloor. simpl. intros H.
  apply Z.quot_div_nonneg; lia.
Qed.

Lemma int_inject_Z z : Py.int (inject_Z z) = z.
Proof. unfold Py.int. simpl. apply Z.quot_1_r. Qed.

(** The float remainder by a positive integer is not negative. *)
Lemma mod_nonneg x k :
  0 < k → (0 <= x - inject_Z k * inject_Z (Qfloor (x / inject_Z k)))%Q.
Proof.
  intros Hk. pose proof (inject_Z_pos k Hk) as Hk'.
  pose proof (Qfloor_le (x / inject_Z k)) as H.
  apply (Qmult_le_l _ _ (inject_Z k)) in H; [|done].
  assert (inject_Z k * (x / inject_Z k) == x)%Q as E by (field; lra).
  rewrite E in H. lra.
Qed.
End floors.

(** ** Rounding to doubles *)

Section doubles.
Import Double.
Implicit Types (x t : Q) (k j e : Z).

Lemma pow2_pos e : (0 < 2 ^ e)%Q.
Proof. by apply Qpower_0_lt. Qed.

Lemma pow2_inject e : 0 ≤ e → (inject_Z (2 ^ e) == 2 ^ e)%Q.
Proof. intros He. by rewrite Zpower_Qpower. Qed.

Lemma pow2_le e j : e ≤ j → (2 ^ e <= 2 ^ j)%Q.
Proof. intros H. by apply Qpower_le_compat_l. Qed.

Lemma pow2_lt_inv e j : (2 ^ e < 2 ^ j)%Q → e < j.
Proof. intros H. by apply (Qpower_lt_compat_l_inv 2). Qed.

Lemma pow2_sub e j : (2 ^ (e - j) == 2 ^ e / 2 ^ j)%Q.
Proof. by apply Qpower_minus. Qed.

Lemma ilog2_lower x : ¬ (x == 0)%Q → (2 ^ ilog2 x <= Qabs x)%Q.
Proof.
  intros Hx. unfold ilog2.
  set (a := Z.log2 (Z.abs (Qnum x))). set (b := Z.log2 (Zpos (Qden x))).
  destruct (Qle_bool (2 ^ (a - b)) (Qabs x)) eqn:E; [by apply Qle_bool_iff|].
  assert (0 < Z.abs (Qnum x)) as Hn.
  { destruct x as [n d]. unfold Qeq in Hx. simpl in *. lia. }
  destruct (Z.log2_spec _ Hn) as [Ha _]. fold a in Ha.
  destruct (Z.log2_spec (Zpos (Qden x)) ltac:(done)) as [_ Hb]. fold b in Hb.
  pose proof (Z.log2_nonneg (Z.abs (Qnum x))) as Ha0. fold a in Ha0.
  pose proof (Z.log2_nonneg (Zpos (Qden x))) as Hb0. fold b in Hb0.
  replace (a - b - 1) with (a - Z.succ b) by lia.
  rewrite pow2_sub, <- !pow2_inject by lia.
  apply Qle_shift_div_r; [rewrite <- (Zlt_Qlt 0); lia|].
  destruct x as [n d]. unfold Qle. simpl in *. nia.
Qed.

Lemma exponent_upper x j :
  ¬ (x == 0)%Q → (Qabs x < 2 ^ (53 + j))%Q → -1074 ≤ j → exponent x ≤ j.
Proof.
  intros Hx Hlt Hj. unfold exponent.
  pose proof (ilog2_lower x Hx) as Hlo.
  assert (ilog2 x < 53 + j) by (apply pow2_lt_inv; lra).
  lia.
Qed.

Lemma nearest_even_floor t : Qfloor t ≤ nearest_even t ≤ Qfloor t + 1.
Proof.
  unfold nearest_even. destruct (_ ?= _)%Q; [destruct (Z.even _)|..]; lia.
Qed.

Lemma nearest_even_ge t k : (inject_Z k <= t)%Q → k ≤ nearest_even t.
Proof.
  intros H. pose proof (nearest_even_floor t).
  assert (k ≤ Qfloor t); [|lia].
  rewrite <- (Qfloor_Z k). by apply Qfloor_resp_le.
Qed.

Lemma nearest_even_le t k : (t <= inject_Z k)%Q → nearest_even t ≤ k.
Proof.
  intros H. pose proof (Qfloor_le t) as Hf. pose proof (Qlt_floor t) as Hc.
  assert (Qfloor t ≤ k) as Hk.
  { rewrite <- (Qfloor_Z k). by apply Qfloor_resp_le. }
  unfold nearest_even.
  destruct (Z.eq_dec (Qfloor t) k) as [E|E].
  - assert (t - inject_Z (Qfloor t) < 1 # 2)%Q as Hr by (rewrite E in *; lra).
    destruct (Qcompare_spec (t - inject_Z (Qfloor t)) (1 # 2)); [lra|lia|lra].
  - destruct (_ ?= _)%Q; [destruct (Z.even _)|..]; lia.
Qed.

Lemma nearest_even_lt t k : (t < inject_Z k - (1 # 2))%Q → nearest_even t ≤ k - 1.
Proof.
  intros H. pose proof (Qfloor_le t) as Hf. pose proof (Qlt_floor t) as Hc.
  assert (Qfloor t ≤ k - 1) as Hk.
  { assert (Qfloor t < k); [|lia]. rewrite Zlt_Qlt. lra. }
  unfold nearest_even.
  destruct (Z.eq_dec (Qfloor t) (k - 1)) as [E|E].
  - assert (t - inject_Z (Qfloor t) < 1 # 2)%Q as Hr.
    { rewrite E. unfold Z.sub. rewrite inject_Z_plus, inject_Z_opp.
      change (inject_Z 1) with 1%Q. lra. }
    destruct (Qcompare_spec (t - inject_Z (Qfloor t)) (1 # 2)); [lra|lia|lra].
  - destruct (_ ?= _)%Q; [destruct (Z.even _)|..]; lia.
Qed.

(** The multiples of [2^j] are doubles up to [2^(53+j)]: rounding a number
    of that size does not cross one. *)
Lemma round64_grid x k j :
  -1074 ≤ j → (Qabs x < 2 ^ (53 + j))%Q →
  ((inject_Z k * 2 ^ j <= x)%Q → (inject_Z k * 2 ^ j <= round64 x)%Q) ∧
  ((x <= inject_Z k * 2 ^ j)%Q → (round64 x <= inject_Z k * 2 ^ j)%Q) ∧
  ((x < (inject_Z k - (1 # 2)) * 2 ^ j)%Q → (round64 x < inject_Z k * 2 ^ j)%Q).
Proof.
  intros Hj Hx. unfold round64.
  destruct (Qeq_bool x 0) eqn:E0.
  { apply Qeq_bool_iff in E0. pose proof (pow2_pos j). rewrite E0.
    split; [done|]. split; [done|]. intros H0.
    assert ((inject_Z k - (1 # 2)) * 2 ^ j < inject_Z k * 2 ^ j)%Q; [nra|lra]. }
  apply Qeq_bool_neq in E0.
  pose proof (exponent_upper x j E0 Hx Hj) as He.
  set (e := exponent x) in *. cbv zeta. rewrite Qred_correct.
  pose proof (pow2_pos e) as He0. pose proof (pow2_pos j) as Hj0.
  assert (inject_Z (k * 2 ^ (j - e)) * 2 ^ e == inject_Z k * 2 ^ j)%Q as Hg.
  { rewrite inject_Z_mult, pow2_inject, pow2_sub by lia. field. lra. }
  assert (1 <= 2 ^ (j - e))%Q as H1.
  { change 1%Q with (2 ^ 0)%Q. apply pow2_le. lia. }
  rewrite <- Hg.
  split; [|split]; intros H.
  - apply Qmult_le_compat_r; [|lra]. rewrite <- Zle_Qle.
    apply nearest_even_ge. apply Qle_shift_div_l; [done|]. lra.
  - apply Qmult_le_compat_r; [|lra]. rewrite <- Zle_Qle.
    apply nearest_even_le. apply Qle_shift_div_r; [done|]. lra.
  - assert (nearest_even (x / 2 ^ e) ≤ k * 2 ^ (j - e) - 1) as Hn.
    { apply nearest_even_lt. apply Qlt_shift_div_r; [done|].
      rewrite inject_Z_mult, pow2_inject by lia.
      rewrite pow2_sub in *.
      assert (2 ^ j == 2 ^ j / 2 ^ e * 2 ^ e)%Q as Hd by (field; lra).
      rewrite Hd in H. nra. }
    assert (nearest_even (x / 2 ^ e) + 1 ≤ k * 2 ^ (j - e)) as Hn' by lia.
    rewrite Zle_Qle, inject_Z_plus in Hn'. change (inject_Z 1) with 1%Q in Hn'.
    clear Hn Hg. nra.
Qed.
(** The fraction of a double is a step below 1. *)
Lemma double_fraction x :
  is_double x → (0 <= x)%Q →
  (x - inject_Z (Qfloor x) <= 1 - (1 # 9007199254740992))%Q.
Proof.
  intros (m & e & Hm & He & Hx) H0.
  pose proof (pow2_pos e) as Hp.
  pose proof (Qfloor_le x) as Hf. pose proof (Qlt_floor x) as Hc.
  assert (0 ≤ m) as Hm0.
  { destruct (Z.lt_ge_cases m 0) as [Hneg|]; [|done].
    rewrite Zlt_Qlt in Hneg. change (inject_Z 0) with 0%Q in Hneg. nra. }
  destruct (Z.le_gt_cases 0 e) as [Hpos|Hneg].
  { (* an integer *)
    assert (x == inject_Z (m * 2 ^ e))%Q as Hint.
    { by rewrite inject_Z_mult, pow2_inject. }
    rewrite (Qfloor_comp _ _ Hint), Qfloor_Z. lra. }
  destruct (Z.le_gt_cases (-53) e) as [Hbig|Hsmall].
  - set (q := 2 ^ (- e)).
    assert (0 < q) as Hq by (apply Z.pow_pos_nonneg; lia).
    assert (q ≤ 2 ^ 53) as Hq53 by (apply Z.pow_le_mono_r; lia).
    assert (2 ^ e == 1 / inject_Z q)%Q as Hinv.
    { unfold q. rewrite pow2_inject by lia. rewrite Qpower_opp. field.
      pose proof (pow2_pos e). lra. }
    pose proof (inject_Z_pos q Hq) as Hq'.
    assert (x * inject_Z q == inject_Z m)%Q as Hxm.
    { rewrite Hx, Hinv. field. lra. }
    assert (Qfloor x = m `div` q) as Hfl.
    { pose proof (Z.div_mod m q ltac:(lia)) as Hdm.
      pose proof (Z.mod_pos_bound m q Hq) as Hmod.
      apply Qfloor_unique.
      - assert (inject_Z (m `div` q) * inject_Z q <= inject_Z m)%Q.
        { rewrite <- inject_Z_mult, <- Zle_Qle. nia. }
        nra.
      - assert (inject_Z m < inject_Z (m `div` q + 1) * inject_Z q)%Q.
        { rewrite <- inject_Z_mult, <- Zlt_Qlt. nia. }
        nra. }
    assert ((x - inject_Z (Qfloor x)) * inject_Z q <= inject_Z q - 1)%Q as Hfr.
    { rewrite Hfl.
      pose proof (Z.div_mod m q ltac:(lia)) as Hdm.
      pose proof (Z.mod_pos_bound m q Hq) as Hmod.
      assert (inject_Z m - inject_Z (m `div` q) * inject_Z q <= inject_Z q - 1)%Q.
      { assert (m + 1 ≤ m `div` q * q + q) as Hz by lia.
        rewrite Zle_Qle, !inject_Z_plus, inject_Z_mult in Hz.
        change (inject_Z 1) with 1%Q in Hz. lra. }
      nra. }
    assert (inject_Z q <= 9007199254740992)%Q as Hq2.
    { change 9007199254740992%Q with (inject_Z (2 ^ 53)). by rewrite <- Zle_Qle. }
    apply (Qmult_le_r _ _ (inject_Z q) Hq'). eapply Qle_trans; [exact Hfr|]. lra.
  - assert (0 <= inject_Z (Qfloor x))%Q as Hfl0.
    { change 0%Q with (inject_Z (Qfloor 0)). rewrite <- Zle_Qle.
      by apply Qfloor_resp_le. }
    assert (x < 1 # 2)%Q; [|lra].
    assert (inject_Z m < 9007199254740992)%Q as Hm2.
    { change 9007199254740992%Q with (inject_Z (2 ^ 53)). rewrite <- Zlt_Qlt. lia. }
    assert (2 ^ e <= 2 ^ (-54))%Q as He54 by (apply pow2_le; lia).
    assert (2 ^ (-54) == 1 # 18014398509481984)%Q as E by reflexivity.
    rewrite E in He54. rewrite Hx.
    assert (0 <= inject_Z m)%Q by (by rewrite Zle_Qle in Hm0).
    nra.
Qed.

Lemma pow2_lt e j : e < j → (2 ^ e < 2 ^ j)%Q.
Proof. intros H. by apply Qpower_lt_compat_l. Qed.

Lemma pow2_le_inv e j : (2 ^ e <= 2 ^ j)%Q → e ≤ j.
Proof. intros H. by apply (Qpower_le_compat_l_inv 2). Qed.

Lemma pow2_succ e : (2 ^ (e + 1) == 2 * 2 ^ e)%Q.
Proof. rewrite Qpower_plus by done. change (2 ^ 1)%Q with 2%Q. ring. Qed.

Lemma ilog2_upper x : ¬ (x == 0)%Q → (Qabs x < 2 ^ (ilog2 x + 1))%Q.
Proof.
  intros Hx. unfold ilog2.
  set (a := Z.log2 (Z.abs (Qnum x))). set (b := Z.log2 (Zpos (Qden x))).
  destruct (Qle_bool (2 ^ (a - b)) (Qabs x)) eqn:E.
  - assert (0 < Z.abs (Qnum x)) as Hn.
    { destruct x as [n d]. unfold Qeq in Hx. simpl in *. lia. }
    destruct (Z.log2_spec _ Hn) as [_ Ha]. fold a in Ha.
    destruct (Z.log2_spec (Zpos (Qden x)) ltac:(done)) as [Hb _]. fold b in Hb.
    pose proof (Z.log2_nonneg (Z.abs (Qnum x))) as Ha0. fold a in Ha0.
    pose proof (Z.log2_nonneg (Zpos (Qden x))) as Hb0. fold b in Hb0.
    replace (a - b + 1) with (Z.succ a - b) by lia.
    rewrite pow2_sub, <- !pow2_inject by lia.
    apply Qlt_shift_div_l; [rewrite <- (Zlt_Qlt 0); lia|].
    destruct x as [n d]. unfold Qlt. simpl in *. nia.
  - replace (a - b - 1 + 1) with (a - b) by lia.
    apply Qnot_le_lt. intros H. apply Qle_bool_iff in H. congruence.
Qed.

Lemma nearest_even_mono t t' : (t <= t')%Q → nearest_even t ≤ nearest_even t'.
Proof.
  intros H. pose proof (Qfloor_resp_le _ _ H) as Hf.
  pose proof (nearest_even_floor t) as Ht. pose proof (nearest_even_floor t') as Ht'.
  destruct (Z.eq_dec (Qfloor t) (Qfloor t')) as [E|E]; [|lia].
  unfold nearest_even. rewrite <- E.
  destruct (Qcompare_spec (t - inject_Z (Qfloor t)) (1 # 2)) as [H1|H1|H1];
    destruct (Qcompare_spec (t' - inject_Z (Qfloor t)) (1 # 2)) as [H2|H2|H2];
    try (destruct (Z.even (Qfloor t))); try lia; lra.
Qed.

Lemma exponent_size x : (Qabs x < 2 ^ (53 + exponent x))%Q.
Proof.
  destruct (Qeq_dec x 0) as [E|E].
  { rewrite (Qabs_wd _ _ E). apply pow2_pos. }
  eapply Qlt_le_trans; [by apply ilog2_upper|].
  apply pow2_le. unfold exponent. lia.
Qed.

Lemma exponent_min x : -1074 ≤ exponent x.
Proof. unfold exponent. lia. Qed.

Lemma exponent_normal x :
  ¬ (x == 0)%Q → -1074 < exponent x → (2 ^ (52 + exponent x) <= Qabs x)%Q.
Proof.
  intros Hx He. eapply Qle_trans; [|by apply ilog2_lower].
  apply pow2_le. unfold exponent in *. lia.
Qed.

Lemma exponent_mono x y :
  ¬ (x == 0)%Q → (Qabs x <= Qabs y)%Q → exponent x ≤ exponent y.
Proof.
  intros Hx Hxy. apply exponent_upper; [done| |apply exponent_min].
  eapply Qle_lt_trans; [exact Hxy|apply exponent_size].
Qed.

Lemma round64_nonzero x :
  ¬ (x == 0)%Q →
  (round64 x == inject_Z (nearest_even (x / 2 ^ exponent x)) * 2 ^ exponent x)%Q.
Proof.
  intros Hx. unfold round64.
  destruct (Qeq_bool x 0) eqn:E; [by apply Qeq_bool_iff in E|].
  cbv zeta. apply Qred_correct.
Qed.

Lemma round64_zero x : (x == 0)%Q → round64 x = 0%Q.
Proof.
  intros Hx. unfold round64. apply Qeq_bool_iff in Hx. by rewrite Hx.
Qed.

Lemma round64_sign x :
  ((0 <= x)%Q → (0 <= round64 x)%Q) ∧ ((x <= 0)%Q → (round64 x <= 0)%Q).
Proof.
  destruct (round64_grid x 0 (exponent x) (exponent_min x) (exponent_size x))
    as (Hlo & Hhi & _).
  assert (inject_Z 0 * 2 ^ exponent x == 0)%Q as E by ring.
  rewrite E in Hlo, Hhi. by split.
Qed.

(** Rounding keeps the order. *)
Lemma round64_mono x y : (x <= y)%Q → (round64 x <= round64 y)%Q.
Proof.
  intros Hxy.
  destruct (Qeq_dec x 0) as [Ex|Ex].
  { rewrite (round64_zero x Ex). apply round64_sign. lra. }
  destruct (Qeq_dec y 0) as [Ey|Ey].
  { rewrite (round64_zero y Ey). apply round64_sign. lra. }
  pose proof (exponent_size x) as Sx. pose proof (exponent_size y) as Sy.
  pose proof (exponent_min x) as Mx. pose proof (exponent_min y) as My.
  pose proof (Qle_Qabs x) as Ax. pose proof (Qle_Qabs (- x)) as Ax'.
  pose proof (Qle_Qabs y) as Ay. pose proof (Qle_Qabs (- y)) as Ay'.
  rewrite Qabs_opp in Ax', Ay'.
  destruct (Z.lt_trichotomy (exponent x) (exponent y)) as [Hlt|[Heq|Hgt]].
  - (* [y] is in a higher binade *)
    destruct (Qlt_le_dec y 0) as [Hneg|Hpos].
    { assert (Qabs y <= Qabs x)%Q as Habs.
      { rewrite (Qabs_neg y), (Qabs_neg x) by lra. lra. }
      pose proof (exponent_mono y x Ey Habs). lia. }
    pose proof (exponent_normal y Ey ltac:(lia)) as Ny.
    rewrite (Qabs_pos y) in Ny by done.
    destruct (round64_grid y (2 ^ 52) (exponent y) My Sy) as (Hlo & _ & _).
    destruct (round64_grid x (2 ^ 53) (exponent x) Mx Sx) as (_ & Hhi & _).
    assert (inject_Z (2 ^ 52) * 2 ^ exponent y == 2 ^ (52 + exponent y))%Q as E1.
    { rewrite pow2_inject, Qpower_plus by done. reflexivity. }
    assert (inject_Z (2 ^ 53) * 2 ^ exponent x == 2 ^ (53 + exponent x))%Q as E2.
    { rewrite pow2_inject, Qpower_plus by done. reflexivity. }
    rewrite E1 in Hlo. rewrite E2 in Hhi.
    assert (2 ^ (53 + exponent x) <= 2 ^ (52 + exponent y))%Q
      by (apply pow2_le; lia).
    specialize (Hlo Ny). specialize (Hhi ltac:(lra)). lra.
  - (* the same binade *)
    rewrite (round64_nonzero x Ex), (round64_nonzero y Ey), Heq.
    pose proof (pow2_pos (exponent y)) as Hp.
    apply Qmult_le_compat_r; [|lra]. rewrite <- Zle_Qle.
    apply nearest_even_mono. apply Qmult_le_compat_r; [done|].
    apply Qinv_le_0_compat. lra.
  - (* [x] is in a higher binade *)
    destruct (Qlt_le_dec 0 x) as [Hpos|Hneg].
    { assert (Qabs x <= Qabs y)%Q as Habs.
      { rewrite (Qabs_pos y), (Qabs_pos x) by lra. lra. }
      pose proof (exponent_mono x y Ex Habs). lia. }
    pose proof (exponent_normal x Ex ltac:(lia)) as Nx.
    rewrite (Qabs_neg x) in Nx by done.
    destruct (round64_grid x (- 2 ^ 52) (exponent x) Mx Sx) as (_ & Hhi & _).
    destruct (round64_grid y (- 2 ^ 53) (exponent y) My Sy) as (Hlo & _ & _).
    assert (inject_Z (- 2 ^ 52) * 2 ^ exponent x == - 2 ^ (52 + exponent x))%Q as E1.
    { rewrite inject_Z_opp, pow2_inject, Qpower_plus by done. ring. }
    assert (inject_Z (- 2 ^ 53) * 2 ^ exponent y == - 2 ^ (53 + exponent y))%Q as E2.
    { rewrite inject_Z_opp, pow2_inject, Qpower_plus by done. ring. }
    rewrite E1 in Hhi. rewrite E2 in Hlo.
    assert (2 ^ (53 + exponent y) <= 2 ^ (52 + exponent x))%Q
      by (apply pow2_le; lia).
    specialize (Hhi ltac:(lra)). specialize (Hlo ltac:(lra)). lra.
Qed.

(** A rounded number is a double, and rounding leaves it as it is. *)
Lemma round64_idempotent x : (round64 (round64 x) == round64 x)%Q.
Proof.
  destruct (Qeq_dec x 0) as [Ex|Ex].
  { by rewrite (round64_zero x Ex). }
  pose proof (round64_nonzero x Ex) as Hr.
  set (e := exponent x) in *. set (K := nearest_even (x / 2 ^ e)) in *.
  pose proof (pow2_pos e) as Hp. pose proof (exponent_min x) as Me. fold e in Me.
  pose proof (exponent_size x) as Sx. fold e in Sx.
  assert (- 2 ^ 53 ≤ K ≤ 2 ^ 53) as HK.
  { assert (Qabs (x / 2 ^ e) < inject_Z (2 ^ 53))%Q as Ht.
    { unfold Qdiv. rewrite Qabs_Qmult, (Qabs_pos (/ 2 ^ e))
        by (apply Qinv_le_0_compat; lra).
      apply Qlt_shift_div_r; [done|].
      by rewrite pow2_inject, <- Qpower_plus. }
    pose proof (Qle_Qabs (x / 2 ^ e)) as A1.
    pose proof (Qle_Qabs (- (x / 2 ^ e))) as A2. rewrite Qabs_opp in A2.
    split.
    - apply nearest_even_ge. rewrite inject_Z_opp. lra.
    - apply nearest_even_le. lra. }
  assert (∀ k j, -1074 ≤ j → (Qabs (round64 x) < 2 ^ (53 + j))%Q →
            (round64 x == inject_Z k * 2 ^ j)%Q →
            (round64 (round64 x) == round64 x)%Q) as Hfix.
  { intros k j Hj Hsize Heq.
    destruct (round64_grid (round64 x) k j Hj Hsize) as (Hlo & Hhi & _).
    apply Qle_antisym.
    - eapply Qle_trans; [apply Hhi; lra|lra].
    - eapply Qle_trans; [|apply Hlo; lra]. lra. }
  destruct (Z.eq_dec K (2 ^ 53)) as [E1|E1].
  { apply (Hfix 1 (53 + e) ltac:(lia)).
    - rewrite Hr, E1, pow2_inject, <- Qpower_plus by done.
      rewrite Qabs_pos by (apply Qlt_le_weak, pow2_pos).
      apply pow2_lt. lia.
    - rewrite Hr, E1, pow2_inject, <- Qpower_plus by done.
      change (inject_Z 1) with 1%Q. ring. }
  destruct (Z.eq_dec K (- 2 ^ 53)) as [E2|E2].
  { apply (Hfix (-1) (53 + e) ltac:(lia)).
    - rewrite Hr, E2, inject_Z_opp, pow2_inject by done.
      assert (- 2 ^ 53 * 2 ^ e == - (2 ^ (53 + e)))%Q as ->
        by (rewrite Qpower_plus by done; ring).
      rewrite Qabs_opp, Qabs_pos by (apply Qlt_le_weak, pow2_pos).
      apply pow2_lt. lia.
    - rewrite Hr, E2, inject_Z_opp, pow2_inject, Qpower_plus by done.
      change (inject_Z (-1)) with (-1)%Q. ring. }
  apply (Hfix K e Me); [|done].
  rewrite Hr, Qabs_Qmult, (Qabs_pos (2 ^ e)) by lra.
  rewrite Qpower_plus by done. apply Qmult_lt_compat_r; [done|].
  rewrite <- pow2_inject by done.
  assert (Z.abs K < 2 ^ 53) as Habs by lia.
  rewrite Zlt_Qlt in Habs.
  exact Habs.
Qed.
(** Rounding leaves a double as it is. *)
Lemma round64_double x : is_double x → (round64 x == x)%Q.
Proof.
  intros (m & e & Hm & He & Hx).
  pose proof (pow2_pos e) as Hp.
  assert (Qabs x < 2 ^ (53 + e))%Q as Hsize.
  { rewrite (Qabs_wd _ _ Hx), Qabs_Qmult, (Qabs_pos (2 ^ e)) by lra.
    rewrite Qpower_plus by done. apply Qmult_lt_compat_r; [done|].
    rewrite <- pow2_inject by done. rewrite Zlt_Qlt in Hm. exact Hm. }
  destruct (round64_grid x m e ltac:(lia) Hsize) as (Hlo & Hhi & _).
  apply Qle_antisym.
  - eapply Qle_trans; [apply Hhi; lra|lra].
  - eapply Qle_trans; [|apply Hlo; lra]. lra.
Qed.

(** A number below 2^53 in size is not rounded across a whole number. *)
Lemma round64_whole x k :
  (Qabs x < 9007199254740992)%Q →
  ((inject_Z k <= x)%Q → (inject_Z k <= round64 x)%Q) ∧
  ((x <= inject_Z k)%Q → (round64 x <= inject_Z k)%Q).
Proof.
  intros Hx. destruct (round64_grid x k 0 ltac:(lia) Hx) as (Hlo & Hhi & _).
  assert (inject_Z k * 2 ^ 0 == inject_Z k)%Q as E by (simpl; ring).
  rewrite E in Hlo, Hhi. by split.
Qed.

(** A number up to [1000 * (1 - 2^-53)] is rounded to a double below 1000. *)
Lemma round64_below_1000 x :
  (0 <= x)%Q → (x <= 1000 * (1 - (1 # 9007199254740992)))%Q →
  (round64 x < 1000)%Q.
Proof.
  intros H0 Hx.
  assert (Qabs x < 2 ^ (53 + -43))%Q as Hsize.
  { rewrite Qabs_pos by done. change (2 ^ (53 + -43))%Q with 1024%Q. lra. }
  destruct (round64_grid x 8796093022208000 (-43) ltac:(lia) Hsize) as (_ & _ & H).
  assert (inject_Z 8796093022208000 * 2 ^ (-43) == 1000)%Q as E by reflexivity.
  assert ((inject_Z 8796093022208000 - (1 # 2)) * 2 ^ (-43)
          == 1000 - (1 # 17592186044416))%Q as E' by reflexivity.
  rewrite E, E' in H. apply H. lra.
Qed.
End doubles.

Lemma round64_rounding : rounding Double.round64.
Proof.
  split; [apply round64_mono|apply round64_idempotent|reflexivity].
Qed.

(** ** [format_timestamp] *)

Lemma Qfloor_nonneg (x : Q) : (0 <= x)%Q → 0 ≤ Qfloor x.
Proof. intros H. change 0 with (Qfloor 0). by apply Qfloor_resp_le. Qed.

(** The product the milliseconds are taken from, before it is rounded. *)
Lemma millisecs_product (seconds : Q) :
  (Py.mod_ seconds 1 * 1000 == (seconds - inject_Z (Qfloor seconds)) * 1000)%Q.
Proof.
  unfold Py.mod_.
  assert (seconds / 1 == seconds)%Q as E by (field; done).
  rewrite (Qfloor_comp _ _ E). ring.
Qed.

(** The hours, the minutes and the seconds are those of the whole seconds;
    the milliseconds are the whole part of the rounded product. *)
Lemma format_timestamp_fields (seconds : Q) :
  (0 <= seconds)%Q →
  let whole := Qfloor seconds in
  format_timestamp seconds =
    Py.fmt_0d 2 (whole `div` 3600) +:+ ":" +:+
    Py.fmt_0d 2 ((whole `div` 60) `mod` 60) +:+ ":" +:+
    Py.fmt_0d 2 (whole `mod` 60) +:+ "," +:+
    Py.fmt_0d 3 (Py.int (Double.round64 (Py.mod_ seconds 1 * 1000))).
Proof.
  intros Hs whole. unfold format_timestamp.
  generalize (Py.int (Double.round64 (Py.mod_ seconds 1 * 1000))). intros ms.
  unfold Py.floordiv, Py.mod_.
  change 3600%Q with (inject_Z 3600). change 60%Q with (inject_Z 60).
  rewrite !int_inject_Z.
  rewrite !Qfloor_div_pos by lia. fold whole.
  rewrite <- !inject_Z_mult, !Qfloor_sub_Z. fold whole.
  assert (Py.int (seconds - inject_Z (60 * (whole `div` 60))) = whole `mod` 60) as ->.
  { rewrite int_of_nonneg.
    - rewrite Qfloor_sub_Z. fold whole. by rewrite Z.mod_eq by lia.
    - rewrite inject_Z_mult. unfold whole. rewrite <- (Qfloor_div_pos _ 60) by lia.
      apply mod_nonneg. lia. }
  repeat f_equal.
  pose proof (Z.div_mod whole 3600 ltac:(lia)).
  pose proof (Z.mod_pos_bound whole 3600 ltac:(lia)).
  pose proof (Z.div_mod whole 60 ltac:(lia)).
  pose proof (Z.mod_pos_bound whole 60 ltac:(lia)).
  Z.div_mod_to_equations. lia.
Qed.

(** The milliseconds of a double: the truncated fraction, or one more when
    the product is rounded up to a whole number; never 1000. *)
Lemma millisecs_bounds (seconds : Q) :
  Double.is_double seconds → (0 <= seconds)%Q →
  let exact := ((seconds - inject_Z (Qfloor seconds)) * 1000)%Q in
  let product := Double.round64 (Py.mod_ seconds 1 * 1000) in
  let millisecs := Py.int product in
  Qfloor exact ≤ millisecs ≤ Qfloor exact + 1 ∧ 0 ≤ millisecs ≤ 999 ∧
  (millisecs ≠ Qfloor exact → (product == inject_Z millisecs)%Q).
Proof.
  intros Hd H0 exact product millisecs.
  pose proof (double_fraction seconds Hd H0) as Hfr.
  pose proof (Qfloor_le seconds) as Hfl.
  pose proof (millisecs_product seconds) as Hp. fold exact in Hp.
  set (p := (Py.mod_ seconds 1 * 1000)%Q) in *.
  assert (0 <= p)%Q as Hp0 by (rewrite Hp; unfold exact; lra).
  assert (p <= 1000 * (1 - (1 # 9007199254740992)))%Q as Hp1
    by (rewrite Hp; unfold exact; lra).
  assert (Qabs p < 9007199254740992)%Q as Hsize by (rewrite Qabs_pos by done; lra).
  assert (Qfloor exact = Qfloor p) as -> by (by apply Qfloor_comp).
  pose proof (Qfloor_le p) as Hlo. pose proof (Qlt_floor p) as Hhi.
  pose proof (Qfloor_nonneg p Hp0) as Hk.
  destruct (round64_whole p (Qfloor p) Hsize) as [Hge _].
  destruct (round64_whole p (Qfloor p + 1) Hsize) as [_ Hle].
  specialize (Hge Hlo). specialize (Hle (Qlt_le_weak _ _ Hhi)).
  pose proof (round64_below_1000 p Hp0 Hp1) as Hlt. fold product in Hge, Hle, Hlt.
  assert (0 <= product)%Q as Hprod.
  { eapply Qle_trans; [|exact Hge]. by rewrite (Zle_Qle 0) in Hk. }
  assert (millisecs = Qfloor product) as Hms by (by apply int_of_nonneg).
  pose proof (Qfloor_le product) as Hq. pose proof (Qlt_floor product) as Hq'.
  rewrite <- Hms in Hq, Hq'.
  assert (Qfloor p ≤ millisecs).
  { rewrite Hms, <- (Qfloor_Z (Qfloor p)). by apply Qfloor_resp_le. }
  assert (millisecs ≤ Qfloor p + 1).
  { rewrite Hms, <- (Qfloor_Z (Qfloor p + 1)). by apply Qfloor_resp_le. }
  assert (millisecs < 1000).
  { rewrite Zlt_Qlt. change (inject_Z 1000) with 1000%Q. lra. }
  split; [done|]. split; [lia|].
  intros Hne. assert (millisecs = Qfloor p + 1) as E by lia.
  apply Qle_antisym; [by rewrite E|done].
Qed.

Lemma fmt_two_digits (z : Z) : 0 ≤ z < 100 → two_digits (Py.fmt_0d 2 z) = true.
Proof.
  intros Hz.
  assert (forallb (λ z, two_digits (Py.fmt_0d 2 z)) (seqZ 0 100) = true) as H
    by (vm_compute; reflexivity).
  rewrite forallb_forall in H. apply H, list_elem_of_In, elem_of_seqZ. lia.
Qed.

Lemma fmt_three_digits (z : Z) : 0 ≤ z < 1000 → three_digits (Py.fmt_0d 3 z) = true.
Proof.
  intros Hz.
  assert (forallb (λ z, three_digits (Py.fmt_0d 3 z)) (seqZ 0 1000) = true) as H
    by (vm_compute; reflexivity).
  rewrite forallb_forall in H. apply H, list_elem_of_In, elem_of_seqZ. lia.
Qed.

Lemma srt_timestamp_shape (h m s ms : string) :
  two_digits h = true → two_digits m = true → two_digits s = true →
  three_digits ms = true →
  is_srt_timestamp (h +:+ ":" +:+ m +:+ ":" +:+ s +:+ "," +:+ ms) = true.
Proof.
  destruct h as [|h1 [|h2 [|]]]; try done.
  destruct m as [|m1 [|m2 [|]]]; try done.
  destruct s as [|s1 [|s2 [|]]]; try done.
  destruct ms as [|x1 [|x2 [|x3 [|]]]]; try done.
  intros Hh Hm Hs Hms. unfold is_srt_timestamp. simpl in *.
  rewrite Hh, Hm, Hs. simpl. exact Hms.
Qed.
(** C5, as amended: [format_timestamp] renders a double that is not
    negative and is below 100 hours as [HH:MM:SS,mmm]: two-digit hours,
    minutes and seconds of the truncated whole seconds, and three digits
    for the milliseconds, which are [int((seconds % 1) * 1000)] with the
    product rounded to the nearest double before it is truncated, that is
    the milliseconds of the truncated fraction, or one more when the
    product is rounded up to a whole number; [format_timestamp(3725.4)] is
    ["01:02:05,400"] and [format_timestamp(0)] is ["00:00:00,000"]. *)
Theorem format_timestamp_renders (seconds : Q) :
  Double.is_double seconds → (0 <= seconds)%Q → (seconds < 360000)%Q →
  (let whole := Qfloor seconds in
   let truncated := Qfloor ((seconds - inject_Z whole) * 1000) in
   let product := Double.round64 (Py.mod_ seconds 1 * 1000) in
   let millisecs := Py.int product in
   format_timestamp seconds =
     Py.fmt_0d 2 (whole `div` 3600) +:+ ":" +:+
     Py.fmt_0d 2 ((whole `div` 60) `mod` 60) +:+ ":" +:+
     Py.fmt_0d 2 (whole `mod` 60) +:+ "," +:+
     Py.fmt_0d 3 millisecs ∧
   (millisecs = truncated
    ∨ millisecs = truncated + 1 ∧ (product == inject_Z (truncated + 1))%Q) ∧
   millisecs ≤ 999) ∧
  is_srt_timestamp (format_timestamp seconds) = true ∧
  format_timestamp (Double.literal (37254 # 10)) = "01:02:05,400" ∧
  format_timestamp 0 = "00:00:00,000".
Proof.
  intros Hd Hs Hlt.
  destruct (millisecs_bounds seconds Hd Hs) as (Hms & Hrange & Hup).
  split; [|split; [|split; vm_compute; reflexivity]].
  - cbv zeta. split; [by apply format_timestamp_fields|]. split; [|lia].
    destruct (decide (Py.int (Double.round64 (Py.mod_ seconds 1 * 1000))
                      = Qfloor ((seconds - inject_Z (Qfloor seconds)) * 1000)))
      as [E|E]; [by left|right].
    assert (Py.int (Double.round64 (Py.mod_ seconds 1 * 1000))
            = Qfloor ((seconds - inject_Z (Qfloor seconds)) * 1000) + 1) as E'
      by lia.
    split; [done|]. rewrite <- E'. by apply Hup.
  - rewrite format_timestamp_fields by done.
    assert (0 ≤ Qfloor seconds < 360000) as Hwhole.
    { split; [by apply Qfloor_nonneg|].
      rewrite Zlt_Qlt. eapply Qle_lt_trans; [apply Qfloor_le|done]. }
    apply srt_timestamp_shape.
    + apply fmt_two_digits. split; [apply Z.div_pos; lia|].
      apply Z.div_lt_upper_bound; lia.
    + apply fmt_two_digits.
      pose proof (Z.mod_pos_bound (Qfloor seconds `div` 60) 60). lia.
    + apply fmt_two_digits. pose proof (Z.mod_pos_bound (Qfloor seconds) 60). lia.
    + apply fmt_three_digits. lia.
Qed.

(** 3725.4 as Python reads it is a double. *)
Lemma double_3725_4 : Double.is_double (Double.literal (37254 # 10)).
Proof. exists 8192241236233421, (-41). split; [lia|]. split; [lia|reflexivity]. Qed.

Lemma format_timestamp_renders_witness :
  let seconds := Double.literal (37254 # 10) in
  Double.is_double seconds ∧ (0 <= seconds)%Q ∧ (seconds < 360000)%Q ∧
  is_srt_timestamp (format_timestamp seconds) = true ∧
  format_timestamp seconds = "01:02:05,400".
Proof.
  intros seconds.
  assert (0 <= seconds)%Q as H0 by (vm_compute; discriminate).
  assert (seconds < 360000)%Q as H1 by (vm_compute; reflexivity).
  split; [exact double_3725_4|]. split; [exact H0|]. split; [exact H1|].
  destruct (format_timestamp_renders seconds double_3725_4 H0 H1)
    as (_ & Hshape & Hex & _).
  split; [exact Hshape|exact Hex].
Defined.

(** C5 as stated fails on two inputs. The double that 0.29 is read as lies
    below 0.29 and has 289 whole milliseconds, but its product with 1000 is
    rounded to 290.0 and the stamp shows 290. At 100 hours the hours take
    three digits. *)
Lemma format_timestamp_rounds_up :
  let seconds := Double.literal (29 # 100) in
  (Double.is_double seconds ∧ (0 <= seconds)%Q ∧
   Qfloor (seconds * 1000) = 289 ∧
   format_timestamp seconds = "00:00:00,290") ∧
  (Double.is_double 360000 ∧ format_timestamp 360000 = "100:00:00,000"
   ∧ is_srt_timestamp (format_timestamp 360000) = false).
Proof.
  intros seconds. split.
  - split.
    { exists 5224175567749775, (-54). split; [lia|]. split; [lia|reflexivity]. }
    split; [vm_compute; discriminate|]. split; vm_compute; reflexivity.
  - split.
    { exists 360000, 0. split; [lia|]. split; [lia|reflexivity]. }
    split; vm_compute; reflexivity.
Qed.

(** A fraction that rounding to the nearest millisecond would carry into
    the next second is truncated. *)
Example format_timestamp_truncates :
  format_timestamp (Double.literal (59999 # 10000)) = "00:00:05,999".
Proof. vm_compute. reflexivity. Qed.

(** ** Strings and paths *)

Lemma str_app_cons (a : ascii) (s t : string) : String a s +:+ t = String a (s +:+ t).
Proof. reflexivity. Qed.

Lemma str_app_nil_r (s : string) : s +:+ "" = s.
Proof. induction s as [|a s IH]; [done|]. by rewrite str_app_cons, IH. Qed.

Lemma str_length_app (s t : string) :
  String.length (s +:+ t) = (String.length s + String.length t)%nat.
Proof. induction s as [|a s IH]; [done|]. rewrite str_app_cons. simpl. by rewrite IH. Qed.

Lemma str_take_drop (n : nat) (s : string) : OsPath.take n s +:+ OsPath.drop n s = s.
Proof.
  revert s. induction n as [|n IH]; intros [|a s]; try done.
  change (String a (OsPath.take n s +:+ OsPath.drop n s) = String a s).
  by rewrite IH.
Qed.

(** A non-negative answer of [rfind] points at an occurrence. *)
Lemma rfind_from_hit (c : ascii) (s : string) (i last : Z) :
  0 ≤ i → last < i →
  let r := OsPath.rfind_from c s i last in
  r = last ∨ (i ≤ r ∧ ∃ rest, OsPath.drop (Z.to_nat (r - i)) s = String c rest).
Proof.
  revert i last. induction s as [|a s IH]; intros i last Hi Hlast; simpl.
  - by left.
  - destruct (Ascii.eqb_spec a c) as [->|Hne].
    + destruct (IH (i + 1) i ltac:(lia) ltac:(lia)) as [->|[Hle [rest Hrest]]].
      * right. split; [lia|]. exists s. by rewrite Z.sub_diag.
      * right. split; [lia|]. exists rest.
        replace (Z.to_nat (OsPath.rfind_from c s (i + 1) i - i))
          with (S (Z.to_nat (OsPath.rfind_from c s (i + 1) i - (i + 1)))) by lia.
        done.
    + destruct (IH (i + 1) last ltac:(lia) ltac:(lia)) as [->|[Hle [rest Hrest]]].
      * by left.
      * right. split; [lia|]. exists rest.
        replace (Z.to_nat (OsPath.rfind_from c s (i + 1) last - i))
          with (S (Z.to_nat (OsPath.rfind_from c s (i + 1) last - (i + 1)))) by lia.
        done.
Qed.

Lemma splitext_spec (p : string) :
  (OsPath.splitext p).1 +:+ (OsPath.splitext p).2 = p ∧
  ((OsPath.splitext p).2 = "" ∨ ∃ rest, (OsPath.splitext p).2 = String "." rest).
Proof.
  unfold OsPath.splitext.
  destruct (_ && _) eqn:Hc; simpl.
  - split; [apply str_take_drop|]. right.
    apply andb_prop in Hc as [Hlt _]. apply Z.ltb_lt in Hlt.
    pose proof (rfind_from_hit "." p 0 (-1) ltac:(lia) ltac:(lia)) as H.
    simpl in H. fold (OsPath.rfind "." p) in H.
    destruct H as [H|[_ [rest H]]].
    + assert (-1 ≤ OsPath.rfind "/" p); [|lia].
      unfold OsPath.rfind.
      destruct (rfind_from_hit "/" p 0 (-1) ltac:(lia) ltac:(lia)) as [->|[? _]]; lia.
    + exists rest. by rewrite Z.sub_0_r in H.
  - split; [|by left]. by rewrite str_app_nil_r.
Qed.

Lemma chunk_name_ne (p : string) (i : Z) : chunk_name (OsPath.splitext p).1 i ≠ p.
Proof.
  destruct (splitext_spec p) as [Hp Hext]. unfold chunk_name. intros H.
  destruct (OsPath.splitext p) as [b e]; simpl in *.
  rewrite <- Hp in H. apply (inj (String.app _)) in H.
  destruct Hext as [->|[rest ->]]; discriminate.
Qed.

Lemma str_app_inj_r (s1 s2 t : string) : s1 +:+ t = s2 +:+ t → s1 = s2.
Proof.
  intros H.
  assert (String.length s1 = String.length s2) as Hlen.
  { apply (f_equal String.length) in H. rewrite !str_length_app in H. lia. }
  revert s2 H Hlen. induction s1 as [|a s1 IH]; intros [|b s2] H Hlen; simpl in *; try done.
  rewrite !str_app_cons in H. injection H as -> H. f_equal. apply IH; [done|lia].
Qed.

Lemma chunk_name_inj (base : string) (i j : Z) :
  chunk_name base i = chunk_name base j → i = j.
Proof.
  unfold chunk_name, Py.str_int. intros H.
  apply (inj (String.app _)) in H. apply (inj (String.app _)) in H.
  apply str_app_inj_r in H. apply (inj pretty) in H. lia.
Qed.

(** ** [split_audio_if_needed] *)

Lemma split_loop_cons env audio base total cd i rest acc w :
  split_loop env audio base total cd (i :: rest) acc w =
  match mp3_export env (chunk_span audio total cd i) with
  | Some size =>
      split_loop env audio base total cd rest (acc ++ [chunk_name base i])
        (set_fs (<[chunk_name base i :=
                    AudioFile size (Some (chunk_span audio total cd i))]> (w_fs w)) w)
  | None => (Raise (EncodeError (chunk_name base i)), w)
  end.
Proof.
  simpl. unfold mbind, M_bind, export. fold (chunk_span audio total cd i).
  destruct (mp3_export env (chunk_span audio total cd i)) as [size|]; [|done].
  unfold os_path_getsize. simpl. by rewrite lookup_insert_eq.
Qed.

Lemma split_loop_outcome env audio base total cd indices acc w :
  let r := split_loop env audio base total cd indices acc w in
  (∀ p, (∀ i, i ∈ indices → p ≠ chunk_name base i) → w_fs r.2 !! p = w_fs w !! p) ∧
  same_stores w r.2 ∧
  match r.1 with
  | Ok l =>
      l = acc ++ (chunk_name base <$> indices) ∧
      (NoDup indices → ∀ i, i ∈ indices →
         ∃ size, mp3_export env (chunk_span audio total cd i) = Some size ∧
           w_fs r.2 !! chunk_name base i
             = Some (AudioFile size (Some (chunk_span audio total cd i))))
  | Raise e =>
      ∃ i, i ∈ indices ∧ mp3_export env (chunk_span audio total cd i) = None
  end.
Proof.
  revert acc w. induction indices as [|i rest IH]; intros acc w.
  - simpl. split; [done|]. split; [done|]. split; [by rewrite List.app_nil_r|].
    intros _ i Hi. by apply elem_of_nil in Hi.
  - rewrite split_loop_cons.
    destruct (mp3_export env (chunk_span audio total cd i)) as [size|] eqn:Hexp.
    + set (w1 := set_fs _ w).
      specialize (IH (acc ++ [chunk_name base i]) w1).
      destruct IH as (Hframe & Hstores & Hres).
      split; [|split].
      * intros p Hp. rewrite Hframe.
        -- unfold w1. simpl. rewrite lookup_insert_ne; [done|].
           intros Heq. apply (Hp i); [by apply elem_of_cons; left|done].
        -- intros j Hj. apply Hp. by apply elem_of_cons; right.
      * exact Hstores.
      * destruct (split_loop _ _ _ _ _ rest _ w1) as [[l|e] w2]; simpl in *.
        -- destruct Hres as [-> Hfiles]. split; [by rewrite <- app_assoc|].
           intros Hnd j Hj. apply NoDup_cons in Hnd as [Hi Hnd].
           apply elem_of_cons in Hj as [->|Hj]; [|by apply Hfiles].
           exists size. split; [done|]. rewrite Hframe.
           ++ unfold w1. simpl. by rewrite lookup_insert_eq.
           ++ intros j Hj Heq. apply chunk_name_inj in Heq as ->. done.
        -- destruct Hres as (j & Hj & Hnone). exists j. split; [|done].
           by apply elem_of_cons; right.
    + simpl. split; [done|]. split; [done|]. exists i. split; [|done].
      by apply elem_of_cons; left.
Qed.

Lemma elem_of_range (n i : Z) : i ∈ seqZ 0 n ↔ 0 ≤ i < n.
Proof. rewrite elem_of_seqZ. lia. Qed.

(** What the [try] block does, by outcome. *)
Lemma split_audio_try_outcome env audio_file n w :
  let r := split_audio_try env audio_file n w in
  let base := (OsPath.splitext audio_file).1 in
  same_stores w r.2 ∧
  match r.1 with
  | Ok l =>
      ∃ size audio,
        w_fs w !! audio_file = Some (AudioFile size (Some audio)) ∧
        n ≠ 0 ∧
        l = chunk_name base <$> seqZ 0 n ∧
        w_fs r.2 !! audio_file = None ∧
        ∀ i, 0 ≤ i < n →
          span_of (w_fs r.2) (chunk_name base i)
          = Some (chunk_span audio (audio_len audio) (audio_len audio `div` n) i)
  | Raise e => w_fs r.2 !! audio_file = w_fs w !! audio_file
  end.
Proof.
  unfold split_audio_try, mbind, M_bind, AudioSegment_from_file, int_floordiv.
  destruct (w_fs w !! audio_file) as [[size [audio|]|text]|] eqn:Hf; simpl;
    try (split; [done|by rewrite Hf]).
  destruct (Z.eqb_spec n 0) as [->|Hn]; simpl; [split; [done|by rewrite Hf]|].
  unfold mret, M_ret.
  pose proof (split_loop_outcome env audio (OsPath.splitext audio_file).1
                (audio_len audio) (audio_len audio `div` n) (seqZ 0 n) [] w) as H.
  simpl in H. destruct H as (Hframe & Hstores & Hres).
  assert (∀ w1, w_fs w1 = w_fs (split_loop env audio (OsPath.splitext audio_file).1
            (audio_len audio) (audio_len audio `div` n) (seqZ 0 n) [] w).2 →
          w_fs w1 !! audio_file = Some (AudioFile size (Some audio))) as Hkept.
  { intros w1 ->. rewrite Hframe; [done|]. intros i _ Heq.
    by apply (chunk_name_ne audio_file i). }
  destruct (split_loop _ _ _ _ _ _ _ w) as [[l|e] w1]; simpl in *.
  - unfold os_remove. rewrite (Hkept w1 eq_refl).
    destruct (remove_denied env audio_file); simpl.
    + split; [done|]. by rewrite (Hkept w1 eq_refl).
    + split; [done|]. exists size, audio.
      destruct Hres as [-> Hfiles].
      split; [done|]. split; [done|]. split; [done|].
      split; [by rewrite lookup_delete_eq|].
      intros i Hi. unfold span_of.
      rewrite lookup_delete_ne by (intros Heq; by apply (chunk_name_ne audio_file i)).
      destruct (Hfiles (NoDup_seqZ _ _) i) as (sz & _ & ->); [|done].
      by apply elem_of_range.
  - split; [done|]. by rewrite (Hkept w1 eq_refl).
Qed.

(** The [try] block completes when decoding, the exports and the removal
    all succeed. *)
Lemma split_audio_try_completes env audio_file n w f :
  w_fs w !! audio_file = Some f → n ≠ 0 →
  splitting_succeeds env f audio_file n →
  ∃ l w', split_audio_try env audio_file n w = (Ok l, w').
Proof.
  intros Hf Hn (size & audio & -> & Hrm & Hexp).
  unfold split_audio_try, mbind, M_bind, AudioSegment_from_file, int_floordiv.
  rewrite Hf. simpl. destruct (Z.eqb_spec n 0) as [|_]; [done|]. simpl.
  pose proof (split_loop_outcome env audio (OsPath.splitext audio_file).1
                (audio_len audio) (audio_len audio `div` n) (seqZ 0 n) [] w) as H.
  simpl in H. destruct H as (Hframe & _ & Hres).
  destruct (split_loop _ _ _ _ _ _ _ w) as [[l|e] w1]; simpl in *.
  - unfold os_remove. rewrite Hframe, Hf, Hrm; [by eauto|].
    intros i _ Heq. by apply (chunk_name_ne audio_file i).
  - destruct Hres as (i & Hi%elem_of_range & Hnone).
    destruct (Hexp i Hi) as [sz Hsz]. congruence.
Qed.

(** The chunk count of an oversized file. *)
Lemma num_chunks_floor (size : Z) (max_size_mb : Q) :
  (0 < max_size_mb)%Q → (max_size_mb < inject_Z size / MB)%Q →
  num_chunks_for size max_size_mb = Qfloor (inject_Z size / MB / max_size_mb) + 1
  ∧ 2 ≤ num_chunks_for size max_size_mb.
Proof.
  intros Hmax Hbig. unfold num_chunks_for.
  set (ratio := (inject_Z size / MB / max_size_mb)%Q).
  assert (1 <= ratio)%Q as Hratio.
  { unfold ratio. apply Qle_shift_div_l; [done|]. lra. }
  rewrite int_of_nonneg by lra. rewrite Qfloor_add_1. split; [done|].
  assert (1 ≤ Qfloor ratio); [|lia].
  change 1 with (Qfloor 1). by apply Qfloor_resp_le.
Qed.

(** The function, once the size is known. *)
Lemma split_audio_if_needed_unfold env audio_file max_size_mb w f :
  w_fs w !! audio_file = Some f → (0 < max_size_mb)%Q →
  split_audio_if_needed env audio_file max_size_mb w =
    if Py.le (inject_Z (file_size f) / MB) max_size_mb then (Ok [audio_file], w)
    else
      match split_audio_try env audio_file
              (num_chunks_for (file_size f) max_size_mb) w with
      | (Ok l, w') => (Ok l, w')
      | (Raise _, w') => (Ok [audio_file], w')
      end.
Proof.
  intros Hf Hmax.
  unfold split_audio_if_needed, mbind, M_bind, os_path_getsize. rewrite Hf.
  destruct (Py.le _ _); [done|].
  unfold float_div.
  destruct (Qeq_bool max_size_mb 0) eqn:Hz.
  { apply Qeq_bool_eq in Hz. lra. }
  done.
Qed.

Lemma Py_le_spec (x y : Q) : Py.le x y = true ↔ (x <= y)%Q.
Proof. apply Qle_bool_iff. Qed.

Lemma Py_le_false (x y : Q) : Py.le x y = false ↔ (y < x)%Q.
Proof.
  rewrite <- not_true_iff_false, Py_le_spec. split; [apply Qnot_le_lt|apply Qlt_not_le].
Qed.

(** The spans the loop cuts are [i*d, (i+1)*d) for [d = total // n]: they
    follow one another without gap or overlap and end at [n*d], which is the
    total less the remainder of the division. *)
Lemma chunk_span_exact (audio : AudioSegment) (n i : Z) :
  0 ≤ audio_len audio → 0 ≤ i < n →
  let d := audio_len audio `div` n in
  chunk_span audio (audio_len audio) d i
  = {| a_start := a_start audio + i * d; a_end := a_start audio + (i + 1) * d |}
  ∧ a_start audio + n * d = a_end audio - audio_len audio `mod` n.
Proof.
  intros Hlen Hi d.
  assert (0 ≤ d) by (apply Z.div_pos; lia).
  pose proof (Z.div_mod (audio_len audio) n ltac:(lia)) as Hdm.
  pose proof (Z.mod_pos_bound (audio_len audio) n ltac:(lia)) as Hmod.
  fold d in Hdm. split.
  - unfold chunk_span, audio_slice. f_equal; nia.
  - unfold audio_len in *. lia.
Qed.

(** C6, as amended: within the ceiling the splitter returns the input file
    alone and changes nothing; above it, when decoding, every export and the
    removal of the original succeed, it returns exactly
    [floor(size_mb / ceiling_mb) + 1] chunks. *)
Theorem split_chunk_count env w audio_file max_size_mb f :
  w_fs w !! audio_file = Some f → (0 < max_size_mb)%Q →
  let file_size_mb := (inject_Z (file_size f) / MB)%Q in
  ((file_size_mb <= max_size_mb)%Q →
     split_audio_if_needed env audio_file max_size_mb w = (Ok [audio_file], w)) ∧
  ((max_size_mb < file_size_mb)%Q →
     let n := Qfloor (file_size_mb / max_size_mb) + 1 in
     splitting_succeeds env f audio_file n →
     ∃ chunks w',
       split_audio_if_needed env audio_file max_size_mb w = (Ok chunks, w') ∧
       len chunks = n).
Proof.
  intros Hf Hmax file_size_mb.
  rewrite (split_audio_if_needed_unfold _ _ _ _ f) by done. fold file_size_mb.
  split.
  - intros Hle%Py_le_spec. by rewrite Hle.
  - intros Hbig n Hsucc. pose proof Hbig as Hgt%Py_le_false. rewrite Hgt.
    destruct (num_chunks_floor (file_size f) max_size_mb Hmax Hbig) as [Hn Hn2].
    fold file_size_mb in Hn. fold n in Hn. rewrite Hn in *.
    destruct (split_audio_try_completes env audio_file n w f Hf ltac:(lia) Hsucc)
      as (l & w' & Htry).
    pose proof (split_audio_try_outcome env audio_file n w) as Hout.
    rewrite Htry in *. simpl in Hout.
    destruct Hout as (_ & size & audio & _ & _ & -> & _).
    eexists _, _. split; [done|].
    unfold len. rewrite length_fmap, length_seqZ. lia.
Qed.

Lemma split_chunk_count_witness :
  ∃ chunks w',
    split_audio_if_needed (Scenario.env Scenario.no_body) "ep.mp3" 24
      (Scenario.world_with Scenario.asset_50mb) = (Ok chunks, w') ∧
    len chunks = 3.
Proof.
  assert (w_fs (Scenario.world_with Scenario.asset_50mb) !! "ep.mp3"
          = Some Scenario.asset_50mb) as Hf by reflexivity.
  assert (0 < 24)%Q as Hmax by reflexivity.
  apply (proj2 (split_chunk_count (Scenario.env Scenario.no_body) _ "ep.mp3" 24 _ Hf Hmax)).
  - reflexivity.
  - exists 52428800, {| a_start := 0; a_end := 3600001 |}.
    split; [reflexivity|]. split; [reflexivity|]. intros i _. by eexists.
Defined.

(** C6 as stated fails where the fallback is taken: a 50 MiB file that
    cannot be decoded exceeds the 24 MB ceiling and comes back as one chunk,
    not as [floor(50 / 24) + 1 = 3]. *)
Lemma split_chunk_count_fallback :
  let w := Scenario.world_with Scenario.broken_50mb in
  (24 < inject_Z (file_size Scenario.broken_50mb) / MB)%Q ∧
  Qfloor (inject_Z (file_size Scenario.broken_50mb) / MB / 24) + 1 = 3 ∧
  ¬ ∃ chunks w',
      split_audio_if_needed (Scenario.env Scenario.no_body) "ep.mp3" 24 w
        = (Ok chunks, w') ∧
      len chunks = Qfloor (inject_Z (file_size Scenario.broken_50mb) / MB / 24) + 1.
Proof.
  split; [reflexivity|]. split; [reflexivity|].
  intros (chunks & w' & Hrun & Hlen).
  vm_compute in Hrun. injection Hrun as <- _. vm_compute in Hlen. discriminate.
Qed.

(** A 10 MiB file is within the ceiling: it is returned as it is. *)
Example split_small_file :
  split_audio_if_needed (Scenario.env Scenario.no_body) "ep.mp3" 24
    (Scenario.world_with Scenario.asset_10mb)
  = (Ok ["ep.mp3"], Scenario.world_with Scenario.asset_10mb).
Proof. reflexivity. Qed.

(** C7: on an existing file and with a positive ceiling the splitter
    returns and never raises; when the [try] block raises, whatever the
    reason, the answer is the original file alone and that file is still in
    place, unchanged. *)
Theorem split_never_raises env w audio_file max_size_mb f :
  w_fs w !! audio_file = Some f → (0 < max_size_mb)%Q →
  ∃ chunks w',
    split_audio_if_needed env audio_file max_size_mb w = (Ok chunks, w') ∧
    ∀ e w1,
      (max_size_mb < inject_Z (file_size f) / MB)%Q →
      split_audio_try env audio_file (num_chunks_for (file_size f) max_size_mb) w
        = (Raise e, w1) →
      chunks = [audio_file] ∧ w' = w1 ∧ w_fs w' !! audio_file = Some f.
Proof.
  intros Hf Hmax.
  rewrite (split_audio_if_needed_unfold _ _ _ _ f) by done.
  destruct (Py.le _ _) eqn:Hle.
  - eexists _, _. split; [done|]. intros e w1 Hbig%Py_le_false. congruence.
  - pose proof (split_audio_try_outcome env audio_file
                  (num_chunks_for (file_size f) max_size_mb) w) as Hout.
    destruct (split_audio_try _ _ _ w) as [[l|e] w1]; simpl in Hout.
    + eexists _, _. split; [done|]. intros ? ? _ [=].
    + eexists _, _. split; [done|]. intros ? ? _ [= <- <-].
      destruct Hout as [_ Hkept]. by rewrite Hkept.
Qed.

Lemma split_never_raises_witness :
  ∃ chunks w',
    split_audio_if_needed (Scenario.env Scenario.no_body) "ep.mp3" 24
      (Scenario.world_with Scenario.broken_50mb) = (Ok chunks, w') ∧
    ∀ e w1,
      (24 < inject_Z 52428800 / MB)%Q →
      split_audio_try (Scenario.env Scenario.no_body) "ep.mp3"
        (num_chunks_for 52428800 24) (Scenario.world_with Scenario.broken_50mb)
        = (Raise e, w1) →
      chunks = ["ep.mp3"] ∧ w' = w1
      ∧ w_fs w' !! "ep.mp3" = Some Scenario.broken_50mb.
Proof.
  apply (split_never_raises (Scenario.env Scenario.no_body)
           (Scenario.world_with Scenario.broken_50mb) "ep.mp3" 24
           Scenario.broken_50mb); reflexivity.
Defined.

(** On that file the [try] block does raise. *)
Example split_broken_raises_inside :
  split_audio_try (Scenario.env Scenario.no_body) "ep.mp3"
    (num_chunks_for 52428800 24) (Scenario.world_with Scenario.broken_50mb)
  = (Raise (CouldntDecodeError "ep.mp3"), Scenario.world_with Scenario.broken_50mb).
Proof. reflexivity. Qed.

(** Outside its preconditions the function does raise: the size is read
    before the [try]. *)
Example split_missing_file_raises :
  split_audio_if_needed (Scenario.env Scenario.no_body) "nope.mp3" 24 empty_world
  = (Raise (FileNotFoundError "nope.mp3"), empty_world).
Proof. reflexivity. Qed.

(** C10: on an existing file and with a positive ceiling the splitter
    returns a list that is not empty, on each of its three paths, so the
    caller's [audio_chunks[0]] finds an element. *)
Theorem split_returns_nonempty env w audio_file max_size_mb f :
  w_fs w !! audio_file = Some f → (0 < max_size_mb)%Q →
  ∃ chunks w',
    split_audio_if_needed env audio_file max_size_mb w = (Ok chunks, w') ∧
    chunks ≠ [] ∧
    ∃ first, list_first chunks w' = (Ok first, w').
Proof.
  intros Hf Hmax.
  assert (∀ (l : list string) w', l ≠ [] →
            l ≠ [] ∧ ∃ first, list_first l w' = (Ok first, w')) as Hfirst.
  { intros [|x l] w' Hl; [done|]. split; [done|]. by exists x. }
  rewrite (split_audio_if_needed_unfold _ _ _ _ f) by done.
  destruct (Py.le _ _) eqn:Hle.
  - eexists _, _. split; [done|]. by apply Hfirst.
  - apply Py_le_false in Hle.
    destruct (num_chunks_floor (file_size f) max_size_mb Hmax Hle) as [_ Hn].
    pose proof (split_audio_try_outcome env audio_file
                  (num_chunks_for (file_size f) max_size_mb) w) as Hout.
    destruct (split_audio_try _ _ _ w) as [[l|e] w1]; simpl in Hout.
    + eexists _, _. split; [done|]. apply Hfirst.
      destruct Hout as (_ & size & audio & _ & _ & -> & _).
      intros Hnil%(f_equal length).
      rewrite length_fmap, length_seqZ in Hnil. simpl in Hnil. lia.
    + eexists _, _. split; [done|]. by apply Hfirst.
Qed.

Lemma split_returns_nonempty_witness :
  ∃ chunks w',
    split_audio_if_needed (Scenario.env Scenario.no_body) "ep.mp3" 24
      (Scenario.world_with Scenario.asset_50mb) = (Ok chunks, w') ∧
    chunks ≠ [] ∧
    ∃ first, list_first chunks w' = (Ok first, w').
Proof.
  apply (split_returns_nonempty (Scenario.env Scenario.no_body)
           (Scenario.world_with Scenario.asset_50mb) "ep.mp3" 24
           Scenario.asset_50mb); reflexivity.
Defined.

(** With a ceiling that is not positive the list can be empty. *)
Example split_negative_ceiling_empty :
  (split_audio_if_needed (Scenario.env Scenario.no_body) "ep.mp3" (-24)
     (Scenario.world_with Scenario.asset_50mb)).1 = Ok [].
Proof. vm_compute. reflexivity. Qed.

(** ** Stepping through the monad *)

Lemma bind_Ok {A B} (m : M A) (k : A → M B) (w : world) (b : B) (w' : world) :
  (m ≫= k) w = (Ok b, w') →
  ∃ a w1, m w = (Ok a, w1) ∧ k a w1 = (Ok b, w').
Proof.
  unfold mbind, M_bind. destruct (m w) as [[a|e] w1]; [by eauto|done].
Qed.

(** What the caller of the splitter has established: after a download that
    returned, the file is there. *)
Lemma download_audio_creates env url filename task_id w name w' :
  download_audio env url filename task_id w = (Ok name, w') →
  name = filename ∧ is_Some (w_fs w' !! filename).
Proof.
  unfold download_audio. intros H.
  do 5 (apply bind_Ok in H as (? & ? & _ & H)).
  apply bind_Ok in H as (? & ? & H1 & H).
  unfold put_file, mret, M_ret in *.
  injection H1 as _ <-. injection H as <- <-. split; [done|].
  simpl. rewrite lookup_insert_eq. by eexists.
Qed.

(** C1 fails on the code: a 50 MiB file of 3600001 ms is cut into three
    chunks of 1200000 ms that follow one another from 0, and the last one
    ends at 3600000: the final millisecond is in no chunk. *)
Theorem split_drops_the_tail :
  let w := Scenario.world_with Scenario.asset_50mb in
  let r := split_audio_if_needed (Scenario.env Scenario.no_body) "ep.mp3" 24 w in
  span_of (w_fs w) "ep.mp3" = Some {| a_start := 0; a_end := 3600001 |} ∧
  r.1 = Ok ["ep_chunk_1.mp3"; "ep_chunk_2.mp3"; "ep_chunk_3.mp3"] ∧
  span_of (w_fs r.2) <$> ["ep_chunk_1.mp3"; "ep_chunk_2.mp3"; "ep_chunk_3.mp3"]
  = [Some {| a_start := 0; a_end := 1200000 |};
     Some {| a_start := 1200000; a_end := 2400000 |};
     Some {| a_start := 2400000; a_end := 3600000 |}] ∧
  w_fs r.2 !! "ep.mp3" = None.
Proof. vm_compute. done. Qed.

(** What holds of every completed split: chunk [i] holds
    [i*d, (i+1)*d) of the source for [d = total // n], so the chunks are in
    order, without gap or overlap, and the last one ends [total mod n]
    milliseconds before the end of the source. *)
Lemma split_spans env w audio_file n l w' :
  split_audio_try env audio_file n w = (Ok l, w') → 0 < n →
  ∃ audio,
    span_of (w_fs w) audio_file = Some audio ∧
    l = chunk_name (OsPath.splitext audio_file).1 <$> seqZ 0 n ∧
    let d := audio_len audio `div` n in
    (0 ≤ audio_len audio →
     (∀ i, 0 ≤ i < n →
        span_of (w_fs w') (chunk_name (OsPath.splitext audio_file).1 i)
        = Some {| a_start := a_start audio + i * d;
                  a_end := a_start audio + (i + 1) * d |}) ∧
     a_start audio + n * d = a_end audio - audio_len audio `mod` n).
Proof.
  intros Htry Hn.
  pose proof (split_audio_try_outcome env audio_file n w) as Hout.
  rewrite Htry in Hout. simpl in Hout.
  destruct Hout as (_ & size & audio & Hf & _ & -> & _ & Hspans).
  exists audio. split; [by unfold span_of; rewrite Hf|]. split; [done|].
  intros d Hlen. split.
  - intros i Hi. rewrite Hspans by done.
    by destruct (chunk_span_exact audio n i Hlen Hi) as [-> _].
  - by destruct (chunk_span_exact audio n 0 Hlen ltac:(lia)) as [_ ?].
Qed.

(** ** Stitching *)

Lemma append_adjusted_shifted (offset : Q) (segments all_segments : list TimedSegment) :
  append_adjusted offset segments all_segments
  = all_segments ++ (shifted offset <$> segments).
Proof.
  revert all_segments. induction segments as [|s rest IH]; intros acc; simpl.
  - by rewrite List.app_nil_r.
  - by rewrite IH, <- app_assoc.
Qed.

Lemma stitch_chunk_Ok audio_duration n i ct acc w segs w' :
  stitch_chunk audio_duration n i ct acc w = (Ok segs, w') →
  w' = w ∧
  segs = acc ++ (shifted (inject_Z i * (audio_duration / inject_Z n)) <$> segments_of ct).
Proof.
  unfold stitch_chunk, segments_of, float_div, mbind, M_bind, mret, M_ret.
  destruct (ct_segments ct) as [[|s l]|].
  - intros [= <- <-]. by rewrite List.app_nil_r.
  - destruct (Qeq_bool (inject_Z n) 0); [done|].
    intros [= <- <-]. rewrite append_adjusted_shifted, <- app_assoc. done.
  - intros [= <- <-]. by rewrite List.app_nil_r.
Qed.

(** The transcripts the backend gave for the chunks of a completed loop,
    and what the loop made of them. *)
Lemma transcribe_chunks_Ok env task_id audio_duration n chunks :
  ∀ i acc text w segs text' w',
  transcribe_chunks env task_id audio_duration n i chunks acc text w
    = (Ok (segs, text'), w') →
  ∃ cts,
    Forall2 (λ _ ct, ∃ f, transcriptions_create env f = inr ct) chunks cts ∧
    segs = acc ++ stitched audio_duration n i cts ∧
    text' = foldl (λ t ct, t +:+ (ct_text ct +:+ " ")) text cts.
Proof.
  induction chunks as [|chunk_file rest IH]; intros i acc text w segs text' w' H.
  - injection H as <- <- <-. exists []. split; [constructor|].
    by rewrite List.app_nil_r.
  - simpl in H.
    apply bind_Ok in H as (fraction & w1 & _ & H).
    apply bind_Ok in H as ([] & w2 & _ & H).
    apply bind_Ok in H as ([] & w3 & _ & H).
    apply bind_Ok in H as (size & w4 & _ & H).
    apply bind_Ok in H as (f & w5 & _ & H).
    apply bind_Ok in H as (ct & w6 & Hcall & H).
    apply bind_Ok in H as (acc' & w7 & Hst & H).
    apply bind_Ok in H as ([] & w8 & _ & H).
    apply stitch_chunk_Ok in Hst as [-> ->].
    apply IH in H as (cts & Hcts & -> & ->).
    exists (ct :: cts). split; [|split].
    + constructor; [|done]. exists f.
      unfold lift_call, raise, mret, M_ret in Hcall.
      destruct (transcriptions_create env f) as [e|c]; [done|].
      by injection Hcall as -> _.
    + by rewrite <- app_assoc.
    + done.
Qed.

Lemma non_decreasing_app (l1 l2 : list Q) :
  non_decreasing (l1 ++ l2) ↔
  non_decreasing l1 ∧ non_decreasing l2 ∧ ∀ x y, x ∈ l1 → y ∈ l2 → (x <= y)%Q.
Proof.
  induction l1 as [|a l1 IH]; simpl.
  - split; [intros H|by intros (_ & H & _)].
    split; [done|]. split; [done|]. intros x y Hx. by apply elem_of_nil in Hx.
  - rewrite Forall_app, IH, !Forall_forall. split.
    + intros ((H1 & H2) & H3 & H4 & H5). repeat split; try done.
      intros x y [->|Hx]%elem_of_cons Hy; [by apply H2|by apply H5].
    + intros ((H1 & H2) & H3 & H4). repeat split; try done.
      * intros y Hy. apply H4; [by apply elem_of_cons; left|done].
      * intros x y Hx Hy. apply H4; [by apply elem_of_cons; right|done].
Qed.

Lemma non_decreasing_lookup (l : list Q) (i j : nat) (x y : Q) :
  non_decreasing l → (i < j)%nat → l !! i = Some x → l !! j = Some y → (x <= y)%Q.
Proof.
  revert i j. induction l as [|a l IH]; intros i j Hl Hij Hi Hj; [done|].
  destruct Hl as [Ha Hl]. destruct j as [|j]; [lia|]. simpl in Hj.
  destruct i as [|i]; simpl in Hi.
  - injection Hi as ->. rewrite Forall_forall in Ha.
    by eapply Ha, list_elem_of_lookup_2.
  - apply (IH i j); [done|lia|done..].
Qed.

Lemma non_decreasing_shift (offset : Q) (l : list Q) :
  non_decreasing l → non_decreasing ((λ x, x + offset)%Q <$> l).
Proof.
  induction l as [|a l IH]; [done|]. intros [Ha Hl]. simpl. split; [|by apply IH].
  apply Forall_fmap. eapply Forall_impl; [exact Ha|]. simpl. intros y Hy. lra.
Qed.

Lemma starts_shifted (offset : Q) (l : list TimedSegment) :
  starts (shifted offset <$> l) = (λ x, x + offset)%Q <$> starts l.
Proof. unfold starts. rewrite <- !list_fmap_compose. done. Qed.

Lemma starts_app (l1 l2 : list TimedSegment) : starts (l1 ++ l2) = starts l1 ++ starts l2.
Proof. apply fmap_app. Qed.

Section stitched_order.
Variables (audio_duration : Q) (n : Z).
Local Abbreviation d := (audio_duration / inject_Z n)%Q.

(** Every start of the chunks from [i] on is at least [i * d]. *)
Lemma stitched_lower_bound (cts : list ChunkTranscript) :
  ∀ i x,
    (∀ (k : nat) ct, cts !! k = Some ct →
       starts_within_slot audio_duration n (i + Z.of_nat k) ct) →
    x ∈ starts (stitched audio_duration n i cts) →
    (inject_Z i * d <= x ∧ 0 <= d)%Q.
Proof.
  induction cts as [|ct rest IH]; intros i x Hok Hx; simpl in Hx.
  - by apply elem_of_nil in Hx.
  - rewrite starts_app, elem_of_app in Hx. destruct Hx as [Hx|Hx].
    + destruct (Hok 0%nat ct eq_refl) as [_ Hct].
      rewrite starts_shifted in Hx.
      apply list_elem_of_fmap in Hx as (y & -> & Hy).
      apply list_elem_of_fmap in Hy as (s & -> & Hs).
      rewrite Forall_forall in Hct. destruct (Hct s Hs) as [H0 Hd].
      simpl in Hd. rewrite Z.add_0_r, inject_Z_plus in Hd.
      change (inject_Z 1) with 1%Q in Hd. split; lra.
    + destruct (IH (i + 1) x) as [Hlo Hd]; [|done|].
      { intros k c Hk. replace (i + 1 + Z.of_nat k) with (i + Z.of_nat (S k)) by lia.
        by apply Hok. }
      rewrite inject_Z_plus in Hlo. change (inject_Z 1) with 1%Q in Hlo.
      split; lra.
Qed.

Lemma stitched_non_decreasing (cts : list ChunkTranscript) :
  ∀ i,
    (∀ (k : nat) ct, cts !! k = Some ct →
       starts_within_slot audio_duration n (i + Z.of_nat k) ct) →
    non_decreasing (starts (stitched audio_duration n i cts)).
Proof.
  induction cts as [|ct rest IH]; intros i Hok; [done|]. simpl.
  destruct (Hok 0%nat ct eq_refl) as [Hsorted Hct].
  assert (∀ (k : nat) c, rest !! k = Some c →
            starts_within_slot audio_duration n (i + 1 + Z.of_nat k) c) as Hrest.
  { intros k c Hk. replace (i + 1 + Z.of_nat k) with (i + Z.of_nat (S k)) by lia. by apply Hok. }
  rewrite starts_app, non_decreasing_app. split; [|split].
  - rewrite starts_shifted. by apply non_decreasing_shift.
  - by apply IH.
  - intros x y Hx Hy.
    destruct (stitched_lower_bound rest (i + 1) y Hrest Hy) as [Hlo Hd].
    rewrite starts_shifted in Hx.
    apply list_elem_of_fmap in Hx as (z & -> & Hz).
    apply list_elem_of_fmap in Hz as (s & -> & Hs).
    rewrite Forall_forall in Hct. destruct (Hct s Hs) as [H0 Hsd].
    simpl in Hsd. rewrite Z.add_0_r in Hsd. lra.
Qed.
End stitched_order.

(** The same with arithmetic that rounds. *)
Section stitched_order_rounded.
Variables (fl : Q → Q) (audio_duration : Q) (n : Z).
Hypothesis Hfl : rounding fl.
Hypothesis Hd : (0 <= audio_duration / inject_Z n)%Q.

Lemma offset_with_mono (i j : Z) :
  0 ≤ i ≤ j →
  (offset_with fl audio_duration n i <= offset_with fl audio_duration n j)%Q.
Proof.
  intros Hij. unfold offset_with. apply (fl_monotone fl Hfl).
  assert (0 <= fl (audio_duration / inject_Z n))%Q as H0.
  { rewrite <- (fl_zero fl Hfl). by apply (fl_monotone fl Hfl). }
  apply Qmult_le_compat_r; [|done]. rewrite <- Zle_Qle. lia.
Qed.

Lemma shifted_with_lower (offset : Q) (s : TimedSegment) :
  (0 <= seg_start s)%Q →
  (fl offset <= seg_start (shifted_with fl offset s))%Q.
Proof. intros H0. simpl. apply (fl_monotone fl Hfl). lra. Qed.

Lemma starts_shifted_with (offset : Q) (l : list TimedSegment) :
  starts (shifted_with fl offset <$> l) = (λ x, fl (x + offset)%Q) <$> starts l.
Proof. unfold starts. rewrite <- !list_fmap_compose. done. Qed.

Lemma non_decreasing_rounded (offset : Q) (l : list Q) :
  non_decreasing l → non_decreasing ((λ x, fl (x + offset)%Q) <$> l).
Proof.
  induction l as [|a l IH]; [done|]. intros [Ha Hl]. simpl. split; [|by apply IH].
  apply Forall_fmap. eapply Forall_impl; [exact Ha|]. simpl. intros y Hy.
  apply (fl_monotone fl Hfl). lra.
Qed.

(** Every start of the chunks from [i] on is at least the offset of
    chunk [i]. *)
Lemma stitched_with_lower_bound (cts : list ChunkTranscript) :
  ∀ i x, 0 ≤ i →
    (∀ (k : nat) ct, cts !! k = Some ct →
       starts_within_slot_with fl audio_duration n (i + Z.of_nat k) ct) →
    x ∈ starts (stitched_with fl audio_duration n i cts) →
    (offset_with fl audio_duration n i <= x)%Q.
Proof.
  induction cts as [|ct rest IH]; intros i x Hi Hok Hx; simpl in Hx.
  - by apply elem_of_nil in Hx.
  - rewrite starts_app, elem_of_app in Hx. destruct Hx as [Hx|Hx].
    + destruct (Hok 0%nat ct eq_refl) as [_ Hct].
      apply list_elem_of_fmap in Hx as (s & -> & Hs).
      apply list_elem_of_fmap in Hs as (s' & -> & Hs').
      rewrite Forall_forall in Hct. destruct (Hct s' Hs') as [H0 _].
      eapply Qle_trans; [|by apply shifted_with_lower].
      unfold offset_with at 2. rewrite (fl_idempotent fl Hfl). apply Qle_refl.
    + eapply Qle_trans; [apply (offset_with_mono i (i + 1)); lia|].
      apply IH; [lia| |done].
      intros k c Hk. replace (i + 1 + Z.of_nat k) with (i + Z.of_nat (S k)) by lia.
      by apply Hok.
Qed.

Lemma stitched_with_non_decreasing (cts : list ChunkTranscript) :
  ∀ i, 0 ≤ i →
    (∀ (k : nat) ct, cts !! k = Some ct →
       starts_within_slot_with fl audio_duration n (i + Z.of_nat k) ct) →
    non_decreasing (starts (stitched_with fl audio_duration n i cts)).
Proof.
  induction cts as [|ct rest IH]; intros i Hi Hok; [done|]. simpl.
  destruct (Hok 0%nat ct eq_refl) as [Hsorted Hct].
  assert (∀ (k : nat) c, rest !! k = Some c →
            starts_within_slot_with fl audio_duration n (i + 1 + Z.of_nat k) c)
    as Hrest.
  { intros k c Hk. replace (i + 1 + Z.of_nat k) with (i + Z.of_nat (S k)) by lia.
    by apply Hok. }
  rewrite starts_app, non_decreasing_app. split; [|split].
  - rewrite starts_shifted_with. by apply non_decreasing_rounded.
  - apply IH; [lia|done].
  - intros x y Hx Hy.
    pose proof (stitched_with_lower_bound rest (i + 1) y ltac:(lia) Hrest Hy) as Hlo.
    apply list_elem_of_fmap in Hx as (s & -> & Hs).
    apply list_elem_of_fmap in Hs as (s' & -> & Hs').
    rewrite Forall_forall in Hct. destruct (Hct s' Hs') as [_ Hslot].
    rewrite Z.add_0_r in Hslot. by eapply Qle_trans.
Qed.
End stitched_order_rounded.

Lemma same_segment_shifted (a b : Q) (l : list TimedSegment) :
  (a == b)%Q → Forall2 same_segment (shifted a <$> l) (shifted b <$> l).
Proof.
  intros Hab. induction l as [|s l IH]; simpl; constructor; [|done].
  unfold same_segment. simpl. by rewrite Hab.
Qed.



(** Three chunks of 1200 s reporting [0,5), [0,5) and [0,4) come out at 0,
    1200 and 2400 seconds. *)
Example stitch_three_chunks :
  let env := Scenario.env Scenario.no_body in
  let w1 := (split_audio_if_needed env "ep.mp3" 24
               (Scenario.world_with Scenario.asset_50mb)).2 in
  ∃ segs text w',
    transcribe_chunks env "t" 3600 3 0 Scenario2.chunks [] "" w1
      = (Ok (segs, text), w') ∧
    Forall2 same_segment segs
      [ {| seg_start := 0; seg_end := 5; seg_text := " hei " |};
        {| seg_start := 1200; seg_end := 1205; seg_text := " hei " |};
        {| seg_start := 2400; seg_end := 2404; seg_text := " hei " |} ].
Proof.
  intros env w1.
  destruct (transcribe_chunks env "t" 3600 3 0 Scenario2.chunks [] "" w1)
    as [[[segs text]|e] w'] eqn:Hrun; [|vm_compute in Hrun; discriminate].
  exists segs, text, w'. split; [done|].
  assert ((transcribe_chunks env "t" 3600 3 0 Scenario2.chunks [] "" w1).1
          = Ok (segs, text)) as H1 by (by rewrite Hrun).
  vm_compute in H1. injection H1 as <- _.
  repeat constructor.
Qed.



(** Why the condition is on the numbers the stitcher computes: in doubles,
    with eight chunks of 600.01 s, a segment that starts 600.01 s into chunk
    5 is placed at 3600.0600000000004 s, after the offset 3600.06 s of chunk
    6, although its start is within the duration of a chunk; in exact
    arithmetic the two numbers are equal. *)
Example rounded_starts_can_decrease :
  let d := Double.literal (60001 # 100) in
  let audio_duration := Double.round64 (d * 8) in
  let silent := {| ct_text := ""; ct_segments := None |} in
  let one start :=
    {| ct_text := "hei";
       ct_segments :=
         Some [ {| seg_start := start; seg_end := start; seg_text := "hei" |} ] |} in
  let cts := [silent; silent; silent; silent; silent; one d; one 0%Q; silent] in
  Double.round64 (audio_duration / 8) = d ∧
  Forall (λ ct, Forall (λ s, 0 <= seg_start s ∧ seg_start s <= d)%Q (segments_of ct))
    cts ∧
  non_decreasing (starts (stitched audio_duration 8 0 cts)) ∧
  starts (stitched_with Double.round64 audio_duration 8 0 cts)
  = [ (3958307830691267 # 1099511627776)%Q; (7916615661382533 # 2199023255552)%Q ] ∧
  ¬ non_decreasing (starts (stitched_with Double.round64 audio_duration 8 0 cts)).
Proof.
  intros d audio_duration silent one cts.
  split; [vm_compute; reflexivity|]. split.
  { repeat constructor; vm_compute; discriminate. }
  split.
  { vm_compute. split; [|done]. constructor; [discriminate|constructor]. }
  assert (starts (stitched_with Double.round64 audio_duration 8 0 cts)
          = [ (3958307830691267 # 1099511627776)%Q;
              (7916615661382533 # 2199023255552)%Q ]) as E
    by (vm_compute; reflexivity).
  split; [exact E|]. rewrite E. intros [H _].
  apply Forall_cons in H as [H _]. vm_compute in H. by apply H.
Qed.


(** ** Subtitle output *)

Lemma str_app_assoc (s t u : string) : (s +:+ t) +:+ u = s +:+ (t +:+ u).
Proof. induction s as [|a s IH]; [done|]. by rewrite !str_app_cons, IH. Qed.

(** ** [strip] trims *)

Lemma rev_app_append (s t : string) : String.rev_app s t = String.rev s +:+ t.
Proof.
  unfold String.rev. revert t. induction s as [|a s IH]; intros t; simpl; [done|].
  by rewrite IH, (IH (String a "")), str_app_assoc.
Qed.

Lemma rev_cons (a : ascii) (s : string) :
  String.rev (String a s) = String.rev s +:+ String a "".
Proof. unfold String.rev at 1. simpl. apply rev_app_append. Qed.

Lemma rev_append (s t : string) : String.rev (s +:+ t) = String.rev t +:+ String.rev s.
Proof.
  induction s as [|a s IH].
  - by rewrite str_app_nil_r.
  - by rewrite str_app_cons, !rev_cons, IH, str_app_assoc.
Qed.

Lemma rev_involutive (s : string) : String.rev (String.rev s) = s.
Proof.
  induction s as [|a s IH]; [done|].
  by rewrite rev_cons, rev_append, IH.
Qed.

Lemma lstrip_head (s : string) (c : ascii) (t : string) :
  Py.lstrip s = String c t → Py.isspace c = false.
Proof.
  induction s as [|a s IH]; simpl; [done|].
  destruct (Py.isspace a) eqn:Ha; [done|]. by intros [= <- _].
Qed.

Lemma lstrip_suffix (s : string) : ∃ p, s = p +:+ Py.lstrip s.
Proof.
  induction s as [|a s [p IH]]; simpl; [by exists ""|].
  destruct (Py.isspace a); [|by exists ""].
  exists (String a p). by rewrite str_app_cons, <- IH.
Qed.

(** What [strip] returns neither begins nor ends with white space. *)
Lemma strip_trims (s : string) :
  (∀ c t, Py.strip s = String c t → Py.isspace c = false) ∧
  (∀ c t, Py.strip s = t +:+ String c "" → Py.isspace c = false).
Proof.
  unfold Py.strip. split; intros c t H.
  - apply (f_equal String.rev) in H. rewrite rev_involutive, rev_cons in H.
    destruct (lstrip_suffix (String.rev (Py.lstrip s))) as [p Hp].
    rewrite H in Hp. apply (f_equal String.rev) in Hp.
    rewrite rev_involutive, <- str_app_assoc, rev_append in Hp.
    by apply (lstrip_head s c _ Hp).
  - apply (f_equal String.rev) in H. rewrite rev_involutive, rev_append in H.
    by apply (lstrip_head _ c _ H).
Qed.

Example strip_blanks :
  Py.strip ("  og ha det " +:+ Py.nl) = "og ha det" ∧ Py.strip "   " = "".
Proof. split; reflexivity. Qed.

Lemma srt_loop_records (segments : list TimedSegment) :
  ∀ i buf, srt_loop i segments buf = buf +:+ srt_records i segments.
Proof.
  induction segments as [|s rest IH]; intros i buf; simpl.
  - by rewrite str_app_nil_r.
  - rewrite IH. unfold srt_record. by rewrite !str_app_assoc.
Qed.

Lemma str_nonempty_app_l (s t : string) : s ≠ "" → s +:+ t ≠ "".
Proof. destruct s; [done|]. by rewrite str_app_cons. Qed.

Lemma srt_record_nonempty (index : Z) (s : TimedSegment) : srt_record index s ≠ "".
Proof.
  intros H. apply (f_equal String.length) in H.
  unfold srt_record in H. rewrite !str_length_app in H. simpl in H. lia.
Qed.

(** C8: with no segments the subtitle file holds exactly one record: the
    index 1, the line [00:00:00,000 --> 00:00:01,000] and the full text;
    with segments it holds one record per segment in order, numbered from
    1, each with the two formatted times, the trimmed text (it neither
    begins nor ends with white space) and a blank line after it; in both
    cases the file is not empty. *)
Theorem srt_content_records :
  (∀ text,
     srt_content text []
     = "1" +:+ Py.nl +:+ "00:00:00,000 --> 00:00:01,000" +:+ Py.nl +:+ text) ∧
  (∀ text s rest,
     srt_content text (s :: rest)
     = srt_record 1 s +:+ srt_records 2 rest) ∧
  (∀ index s,
     srt_record index s
     = Py.str_int index +:+ Py.nl
       +:+ format_timestamp (seg_start s) +:+ " --> " +:+ format_timestamp (seg_end s)
       +:+ Py.nl +:+ Py.strip (seg_text s) +:+ Py.nl +:+ Py.nl ∧
     (∀ c t, Py.strip (seg_text s) = String c t → Py.isspace c = false) ∧
     (∀ c t, Py.strip (seg_text s) = t +:+ String c "" → Py.isspace c = false)) ∧
  (∀ text segments, srt_content text segments ≠ "").
Proof.
  split; [done|]. split; [|split].
  - intros text s rest. unfold srt_content. by rewrite srt_loop_records.
  - intros index s. split; [done|]. apply strip_trims.
  - intros text [|s rest]; [done|].
    unfold srt_content. rewrite srt_loop_records.
    change (srt_record 1 s +:+ srt_records 2 rest ≠ "").
    apply str_nonempty_app_l, srt_record_nonempty.
Qed.

(** Two segments, the second with blanks around its text. *)
Example srt_two_segments :
  srt_content "ignored"
    [ {| seg_start := 0; seg_end := 37254 # 10; seg_text := "Hei" |};
      {| seg_start := 37254 # 10; seg_end := 3730; seg_text := "  og ha det " |} ]
  = "1" +:+ Py.nl +:+ "00:00:00,000 --> 01:02:05,400" +:+ Py.nl +:+ "Hei"
    +:+ Py.nl +:+ Py.nl +:+
    "2" +:+ Py.nl +:+ "01:02:05,400 --> 01:02:10,000" +:+ Py.nl +:+ "og ha det"
    +:+ Py.nl +:+ Py.nl.
Proof. vm_compute. reflexivity. Qed.

(** ** Progress of a task *)

(** C3 fails on the code: an 80 MiB episode is cut into four chunks; the
    progress stored when the fourth is started is 55 and the next value
    stored, with the status [processing], is 50. The value 100 is stored
    once, when the status is [completed]. *)
Theorem progress_drops_after_fourth_chunk :
  Scenario3.run.1 = Ok (JsonTask "t") ∧
  Forall2 Qeq (progress_number <$> history "t" "progress" Scenario3.run.2)
    [0; 5; 10; 10; 25; 40; 55; 50; 75; 100]%Q ∧
  ¬ non_decreasing (progress_number <$> history "t" "progress" Scenario3.run.2) ∧
  ∀ v status,
    (v, status) ∈ with_status "t" "progress" Scenario3.run.2 →
    (progress_number v == 100)%Q → status = Some (VStr "completed").
Proof.
  split; [vm_compute; reflexivity|].
  assert (history "t" "progress" Scenario3.run.2
          = [VInt 0; VInt 5; VInt 10; VFloat (40 # 4); VFloat (100 # 4);
             VFloat (160 # 4); VFloat (220 # 4); VInt 50; VInt 75; VInt 100]) as ->
    by (vm_compute; reflexivity).
  split; [repeat constructor|]. split.
  - intros Hsorted.
    eapply (non_decreasing_lookup _ 6 7) in Hsorted; [|lia|reflexivity..].
    unfold Qle in Hsorted. simpl in Hsorted. lia.
  - assert (with_status "t" "progress" Scenario3.run.2
            = [(VInt 0, Some (VStr "starting")); (VInt 5, Some (VStr "splitting"));
               (VInt 10, Some (VStr "transcribing"));
               (VFloat (40 # 4), Some (VStr "transcribing"));
               (VFloat (100 # 4), Some (VStr "transcribing chunk 1/4"));
               (VFloat (160 # 4), Some (VStr "transcribing chunk 2/4"));
               (VFloat (220 # 4), Some (VStr "transcribing chunk 3/4"));
               (VInt 50, Some (VStr "processing"));
               (VInt 75, Some (VStr "processing"));
               (VInt 100, Some (VStr "completed"))]) as ->
      by (vm_compute; reflexivity).
    intros v status Hin Hv.
    repeat (apply elem_of_cons in Hin as [[= -> ->]|Hin];
            [try done; unfold Qeq in Hv; simpl in Hv; lia|]).
    by apply elem_of_nil in Hin.
Qed.

(** ** Submission of a feed without audio *)

Lemma find_audio_enclosure_none (enclosures : list enclosure) :
  Forall (λ enc, is_audio_enclosure enc = false) enclosures →
  find_audio_enclosure enclosures = inr None
  ∨ ∃ e, find_audio_enclosure enclosures = inl e.
Proof.
  induction 1 as [|enc rest Henc _ IH]; simpl; [by left|].
  unfold is_audio_enclosure in Henc.
  destruct (enc_type enc) as [type|]; [|by eauto].
  by rewrite Henc.
Qed.

Lemma collect_episodes_none (entries : list entry) :
  no_audio_enclosure entries →
  ∀ i episodes,
    collect_episodes i entries episodes = inr episodes
    ∨ ∃ e, collect_episodes i entries episodes = inl e.
Proof.
  induction 1 as [|entry rest Hentry _ IH]; intros i episodes; simpl; [by left|].
  destruct (e_enclosures entry) as [enclosures|]; simpl in *.
  - destruct (find_audio_enclosure_none enclosures Hentry) as [->|[e ->]];
      [apply IH|by eauto].
  - apply IH.
Qed.

(** The pair the view function gets for such a feed: no episode, or an
    error message that is not empty. *)
Lemma get_episodes_no_audio env rss_url entries :
  feedparser_parse env rss_url = inr entries →
  no_audio_enclosure entries →
  get_episodes_from_rss env rss_url = (Some [], None)
  ∨ ∃ c message, get_episodes_from_rss env rss_url = (None, Some (String c message)).
Proof.
  intros Hparse Hno. unfold get_episodes_from_rss. rewrite Hparse.
  destruct entries as [|entry rest]; [right; by eauto|].
  destruct (collect_episodes_none _ Hno 0 []) as [->|[e ->]]; [by left|].
  right. rewrite str_app_cons. by eauto.
Qed.

(** C9: when no entry of the feed carries an audio enclosure, submission
    answers with an error (the 400 answer, or an exception when the episode
    index is missing or negative), starts no thread and leaves the status
    store as it was: no task is created, so none gets past [starting]. *)
Theorem no_audio_feed_is_rejected env request w entries :
  feedparser_parse env (form_rss_url request) = inr entries →
  no_audio_enclosure entries →
  ∃ outcome,
    start_transcription env request w = (outcome, w) ∧
    match outcome with
    | Ok (answer, started) =>
        answer = JsonError 400 "Invalid episode selection" ∧ started = None ∧
        run_task env request w = (Ok answer, w)
    | Raise e =>
        run_task env request w = (Raise e, w) ∧
        (form_episode_index request = None
         ∨ ∃ i, form_episode_index request = Some i ∧ i < 0)
    end.
Proof.
  intros Hparse Hno.
  unfold run_task, start_transcription, mbind, M_bind.
  destruct (form_episode_index request) as [episode_index|]; simpl;
    [|eexists; split; [reflexivity|]; simpl; by eauto].
  destruct (get_episodes_no_audio env _ entries Hparse Hno) as [->|(c & m & ->)].
  - simpl. unfold mret, M_ret.
    destruct (bool_decide (len [] ≤ episode_index)) eqn:Hidx; simpl.
    + eexists. split; [reflexivity|]. by simpl.
    + apply bool_decide_eq_false in Hidx. unfold len in Hidx. simpl in Hidx.
      unfold list_index, len. simpl.
      destruct (Z.ltb_spec episode_index 0); [|lia]. simpl.
      assert (∀ b : bool, (if b then raise IndexError else raise IndexError) w
                = (@Raise episode IndexError, w)) as -> by (by intros []).
      eexists. split; [reflexivity|]. simpl. split; [done|]. right. by eauto.
  - simpl. unfold mret, M_ret. eexists. split; [reflexivity|]. by simpl.
Qed.

Lemma no_audio_feed_is_rejected_witness :
  ∃ outcome,
    start_transcription Scenario3.picture_env Scenario.submit empty_world
      = (outcome, empty_world) ∧
    match outcome with
    | Ok (answer, started) =>
        answer = JsonError 400 "Invalid episode selection" ∧ started = None ∧
        run_task Scenario3.picture_env Scenario.submit empty_world
          = (Ok answer, empty_world)
    | Raise e =>
        run_task Scenario3.picture_env Scenario.submit empty_world
          = (Raise e, empty_world) ∧
        (form_episode_index Scenario.submit = None
         ∨ ∃ i, form_episode_index Scenario.submit = Some i ∧ i < 0)
    end.
Proof.
  apply (no_audio_feed_is_rejected Scenario3.picture_env Scenario.submit
           empty_world Scenario3.picture_entries).
  - reflexivity.
  - repeat constructor.
Defined.

(** The same feed with an audio enclosure starts a task. *)
Example audio_feed_is_accepted :
  (start_transcription (Scenario.env Scenario.no_body) Scenario.submit empty_world).1
  = Ok (JsonTask "t",
        Some {| th_episode :=
                  {| ep_index := 0; ep_title := "Episode 1";
                     ep_published := "Unknown date";
                     ep_audio_url := "http://pod.example/ep.mp3";
                     ep_description := "First" |};
                th_task_id := "t";
                th_audio_filename := "temp_audio_t.mp3";
                th_txt_filename := "transcript_t.txt";
                th_srt_filename := "transcript_t.srt" |}).
Proof. vm_compute. reflexivity. Qed.

(** The subtitle file of the 80 MiB run. *)
Example run_writes_subtitles :
  w_fs Scenario3.run.2 !! "transcript_t.srt"
  = Some (TextFile
      ("1" +:+ Py.nl +:+ "00:00:00,000 --> 00:00:05,000" +:+ Py.nl +:+ "hei"
       +:+ Py.nl +:+ Py.nl +:+
       "2" +:+ Py.nl +:+ "00:15:00,000 --> 00:15:05,000" +:+ Py.nl +:+ "hei"
       +:+ Py.nl +:+ Py.nl +:+
       "3" +:+ Py.nl +:+ "00:30:00,000 --> 00:30:05,000" +:+ Py.nl +:+ "hei"
       +:+ Py.nl +:+ Py.nl +:+
       "4" +:+ Py.nl +:+ "00:45:00,000 --> 00:45:04,000" +:+ Py.nl +:+ "hei"
       +:+ Py.nl +:+ Py.nl)).
Proof. vm_compute. reflexivity. Qed.

(** * Further properties *)

(** ** Reading the trace *)

Lemma stored_app task_id key (d2 d1 : list (string * string * value)) :
  stored task_id key (d2 ++ d1) = stored task_id key d1 ++ stored task_id key d2.
Proof. unfold stored. by rewrite reverse_app, omap_app. Qed.

Lemma history_run_from task_id key w w' delta :
  w_trace w' = delta ++ w_trace w →
  history task_id key w' = history task_id key w ++ stored task_id key delta.
Proof. intros H. unfold history. rewrite H. apply stored_app. Qed.

Lemma values_of_app key (l1 l2 : list (string * value)) :
  values_of key (l1 ++ l2) = values_of key l1 ++ values_of key l2.
Proof. apply omap_app. Qed.

Lemma stored_values_of task_id key (delta : list (string * string * value)) :
  key = "status" ∨ key = "progress" →
  Forall (λ e, e.1.1 = task_id) delta →
  stored task_id key delta = values_of key (sp_of delta).
Proof.
  intros Hkey. induction delta as [|[[t k] v] delta IH]; intros Hall; [done|].
  apply Forall_cons in Hall as [Ht Hall]. simpl in Ht. subst t.
  change ((task_id, k, v) :: delta) with ([(task_id, k, v)] ++ delta).
  rewrite stored_app, IH by done. simpl. rewrite values_of_app. f_equal.
  unfold stored, values_of. simpl.
  destruct (decide (task_id = task_id ∧ k = key)) as [[_ ->]|Hne].
  - by destruct Hkey as [-> | ->].
  - destruct ((k =? "status")%string || (k =? "progress")%string); simpl; [|done].
    rewrite decide_False; [done|]. intros ->. by apply Hne.
Qed.



(** ** [get_episodes_from_rss] *)

Lemma find_audio_enclosure_first (enclosures : list enclosure) (found : option string) :
  find_audio_enclosure enclosures = inr found →
  match found with
  | Some href =>
      ∃ enc, head (filter (λ enc, is_audio_enclosure enc = true) enclosures) = Some enc
             ∧ enc_href enc = Some href
  | None => filter (λ enc, is_audio_enclosure enc = true) enclosures = []
  end.
Proof.
  induction enclosures as [|enc rest IH]; simpl.
  - by intros [= <-].
  - destruct (enc_type enc) as [type|] eqn:Htype; [|done].
    destruct (Py.startswith "audio/" type) eqn:Haudio.
    + destruct (enc_href enc) as [href|] eqn:Hhref; [|done]. intros [= <-].
      exists enc. split; [|done].
      rewrite filter_cons_True; [done|].
      unfold is_audio_enclosure. by rewrite Htype.
    + intros H. specialize (IH H).
      rewrite filter_cons_False; [done|].
      unfold is_audio_enclosure. rewrite Htype, Haudio. done.
Qed.

Lemma episode_from_cons (e0 : entry) (rest : list entry) (i : Z) (ep : episode) :
  episode_from rest (i + 1) ep → episode_from (e0 :: rest) i ep.
Proof.
  intros (Hle & e & enc & Hl & Hrest). split; [lia|]. exists e, enc. split; [|done].
  replace (Z.to_nat (ep_index ep - i)) with (S (Z.to_nat (ep_index ep - (i + 1))))
    by lia. done.
Qed.

(** What the loop adds for the entries from feed position [i] on. *)
Lemma collect_episodes_inr (entries : list entry) :
  ∀ i acc res, collect_episodes i entries acc = inr res →
  ∃ new : list episode,
    res = acc ++ new ∧
    (∀ ep, ep ∈ new → episode_from entries i ep) ∧
    increasing_positions new ∧
    (∀ k e enc href,
       entries !! k = Some e → first_audio e = Some enc →
       enc_href enc = Some href → href ≠ "" →
       ∃ ep, ep ∈ new ∧ ep_index ep = i + Z.of_nat k).
Proof.
  induction entries as [|e0 rest IH]; intros i acc res H; simpl in H.
  - injection H as <-. exists []. rewrite List.app_nil_r. split; [done|].
    split; [by intros ep ?%elem_of_nil|]. split; [by intros j k a b _ ?|].
    by intros k e enc href ?.
  - assert (from_option find_audio_enclosure (inr None) (e_enclosures e0)
            = find_audio_enclosure (default [] (e_enclosures e0))) as Hfind
      by (by destruct (e_enclosures e0)).
    rewrite Hfind in H.
    destruct (find_audio_enclosure (default [] (e_enclosures e0)))
      as [e|found] eqn:Hfound; [done|].
    apply find_audio_enclosure_first in Hfound.
    destruct (truthy_url found) as [audio_url|] eqn:Htruthy.
    + destruct found as [href|]; [|done].
      assert (href = audio_url ∧ audio_url ≠ "") as [-> Hne].
      { destruct href; [done|]. by injection Htruthy as <-. }
      destruct Hfound as (enc & Hhead & Hhref).
      destruct (e_title e0) as [title|] eqn:Htitle; [|done].
      apply IH in H as (new & -> & Hsound & Hinc & Hcomplete).
      eexists (_ :: new). split; [by rewrite <- app_assoc|]. split; [|split].
      * intros ep [->|Hep]%elem_of_cons; [|by apply episode_from_cons, Hsound].
        split; [simpl; lia|]. exists e0, enc. simpl. rewrite Z.sub_diag. by simpl.
      * intros j k a b Hjk Ha Hb. destruct k as [|k]; [lia|]. simpl in Hb.
        apply list_elem_of_lookup_2 in Hb as Hbin.
        destruct (Hsound b Hbin) as [Hbi _].
        destruct j as [|j]; simpl in Ha.
        -- injection Ha as <-. simpl. lia.
        -- apply (Hinc j k); [lia|done..].
      * intros k e enc0 href0 Hk Hfirst Hhref0 Hne0.
        destruct k as [|k]; simpl in Hk.
        -- eexists. split; [by apply elem_of_cons; left|]. simpl. lia.
        -- destruct (Hcomplete k e enc0 href0 Hk Hfirst Hhref0 Hne0) as (ep & Hep & Hi).
           exists ep. split; [by apply elem_of_cons; right|]. lia.
    + apply IH in H as (new & -> & Hsound & Hinc & Hcomplete).
      exists new. split; [done|].
      split; [intros ep Hep; by apply episode_from_cons, Hsound|]. split; [done|].
      intros k e enc0 href0 Hk Hfirst Hhref0 Hne0.
      destruct k as [|k]; simpl in Hk.
      * injection Hk as <-. exfalso. unfold first_audio in Hfirst.
        destruct found as [href|].
        -- destruct Hfound as (enc & Hhead & Hhref).
           rewrite Hhead in Hfirst. injection Hfirst as <-.
           rewrite Hhref in Hhref0. injection Hhref0 as <-.
           by destruct href.
        -- by rewrite Hfound in Hfirst.
      * destruct (Hcomplete k e enc0 href0 Hk Hfirst Hhref0 Hne0) as (ep & Hep & Hi).
        exists ep. split; [done|]. lia.
Qed.

Lemma get_episodes_success env rss_url episodes :
  get_episodes_from_rss env rss_url = (Some episodes, None) →
  ∃ entries,
    feedparser_parse env rss_url = inr entries ∧ entries ≠ [] ∧
    collect_episodes 0 entries [] = inr episodes.
Proof.
  unfold get_episodes_from_rss.
  destruct (feedparser_parse env rss_url) as [e|[|e0 rest]]; [done..|].
  destruct (collect_episodes 0 (e0 :: rest) []) as [e|res] eqn:Hc; [done|].
  intros [= <-]. by exists (e0 :: rest).
Qed.

(** X1: the parser hands back either a list of episodes and no error, or no
    list and an error message that is not empty; a caller that has tested
    the error can use the list. It never raises. *)
Theorem get_episodes_list_or_error env rss_url :
  (∃ episodes, get_episodes_from_rss env rss_url = (Some episodes, None))
  ∨ (∃ c message, get_episodes_from_rss env rss_url = (None, Some (String c message))).
Proof.
  unfold get_episodes_from_rss.
  destruct (feedparser_parse env rss_url) as [e|[|e0 rest]].
  - right. rewrite str_app_cons. by eauto.
  - right. by eauto.
  - destruct (collect_episodes 0 (e0 :: rest) []) as [e|res]; [|left; by eauto].
    right. rewrite str_app_cons. by eauto.
Qed.

Lemma increasing_positions_from (episodes : list episode) (base : Z) :
  increasing_positions episodes →
  (∀ ep, ep ∈ episodes → base ≤ ep_index ep) →
  ∀ k ep, episodes !! k = Some ep → base + Z.of_nat k ≤ ep_index ep.
Proof.
  intros Hinc Hbase k. induction k as [|k IH]; intros ep Hk.
  - apply list_elem_of_lookup_2 in Hk. specialize (Hbase ep Hk). lia.
  - destruct (lookup_lt_is_Some_2 episodes k) as [a Ha].
    { apply lookup_lt_Some in Hk. lia. }
    specialize (IH a Ha). specialize (Hinc k (S k) a ep ltac:(lia) Ha Hk). lia.
Qed.

(** X2: a list that is handed back holds exactly the entries with an audio
    enclosure whose address is not empty, in feed order: each episode
    carries the feed position of its entry, the address of the entry's
    first audio enclosure and the entry's title; the positions increase
    strictly, so the k-th episode of the list has a feed position of at
    least k; and every such entry has its episode. *)
Theorem get_episodes_lists_audio_entries env rss_url episodes :
  get_episodes_from_rss env rss_url = (Some episodes, None) →
  ∃ entries,
    feedparser_parse env rss_url = inr entries ∧ entries ≠ [] ∧
    (∀ ep, ep ∈ episodes → episode_from entries 0 ep) ∧
    increasing_positions episodes ∧
    (∀ k ep, episodes !! k = Some ep → Z.of_nat k ≤ ep_index ep) ∧
    (∀ k e enc href,
       entries !! k = Some e → first_audio e = Some enc →
       enc_href enc = Some href → href ≠ "" →
       ∃ ep, ep ∈ episodes ∧ ep_index ep = Z.of_nat k).
Proof.
  intros (entries & Hparse & Hne & Hc)%get_episodes_success.
  apply collect_episodes_inr in Hc as (new & -> & Hsound & Hinc & Hcomplete).
  exists entries. simpl.
  split; [done|]. split; [done|]. split; [done|]. split; [done|]. split; [|done].
  intros k ep Hk.
  apply (increasing_positions_from new 0 Hinc) in Hk; [lia|].
  intros a Ha. by destruct (Hsound a Ha).
Qed.

Lemma get_episodes_lists_audio_entries_witness :
  ∃ entries,
    feedparser_parse (Scenario.env Scenario.no_body) (Some "http://pod.example/rss")
      = inr entries ∧ entries ≠ [] ∧
    (∀ ep, ep ∈ [ {| ep_index := 0; ep_title := "Episode 1";
                     ep_published := "Unknown date";
                     ep_audio_url := "http://pod.example/ep.mp3";
                     ep_description := "First" |} ] → episode_from entries 0 ep).
Proof.
  destruct (get_episodes_lists_audio_entries (Scenario.env Scenario.no_body)
              (Some "http://pod.example/rss") _ eq_refl)
    as (entries & H1 & H2 & H3 & _).
  exists entries. split; [exact H1|]. split; [exact H2|exact H3].
Defined.

Lemma str_length_take (n : nat) (s : string) :
  String.length (OsPath.take n s) = (n `min` String.length s)%nat.
Proof.
  revert s. induction n as [|n IH]; intros [|a s]; simpl; try done.
  by rewrite IH.
Qed.

(** X3: the description of an episode is that of its feed entry, the one
    at the episode's index, when that has at most 200 characters (the empty
    text when the entry has none), and else the first 200 characters of it
    followed by three dots, 203 characters in all. *)
Theorem episode_description_is_short env rss_url episodes :
  get_episodes_from_rss env rss_url = (Some episodes, None) →
  ∃ entries,
    feedparser_parse env rss_url = inr entries ∧
    ∀ ep, ep ∈ episodes →
      ∃ e,
        0 ≤ ep_index ep ∧ entries !! Z.to_nat (ep_index ep) = Some e ∧
        let description := default "" (e_description e) in
        ((String.length description ≤ 200)%nat ∧ ep_description ep = description)
        ∨ ((200 < String.length description)%nat ∧
           ep_description ep = OsPath.take 200 description +:+ "..." ∧
           String.length (ep_description ep) = 203%nat).
Proof.
  intros (entries & Hfeed & _ & Hc)%get_episodes_success.
  exists entries. split; [done|]. intros ep Hep.
  apply collect_episodes_inr in Hc as (new & -> & Hsound & _).
  destruct (Hsound ep Hep) as (Hpos & e & enc & He & _ & _ & _ & _ & _ & Hdesc).
  rewrite Z.sub_0_r in He. exists e. split; [done|]. split; [done|].
  cbv zeta. rewrite Hdesc. unfold short_description.
  destruct (Nat.ltb_spec 200 (String.length (default "" (e_description e)))).
  - right. split; [done|]. split; [done|].
    rewrite str_length_app, str_length_take.
    change (String.length "...") with 3%nat. lia.
  - by left.
Qed.

(** An entry with 250 characters of description gives an episode with the
    first 200 of them and three dots. *)
Lemma episode_description_is_short_witness :
  let env := with_feed (Scenario.env Scenario.no_body) [long_entry] in
  let ep := {| ep_index := 0; ep_title := "Episode 2";
               ep_published := "Unknown date";
               ep_audio_url := "http://pod.example/ep2.mp3";
               ep_description := Py.zeros 200 +:+ "..." |} in
  get_episodes_from_rss env (Some "http://pod.example/rss") = (Some [ep], None) ∧
  ∃ e,
    e = long_entry ∧
    (200 < String.length (default "" (e_description e)))%nat ∧
    String.length (ep_description ep) = 203%nat.
Proof.
  intros env ep.
  assert (get_episodes_from_rss env (Some "http://pod.example/rss")
          = (Some [ep], None)) as Hrun by reflexivity.
  split; [exact Hrun|].
  destruct (episode_description_is_short env _ _ Hrun) as (entries & Hfeed & Hall).
  destruct (Hall ep (list_elem_of_here _ _)) as (e & _ & He & Hcases).
  injection Hfeed as <-. injection He as <-.
  exists long_entry. split; [reflexivity|].
  destruct Hcases as [[Hshort _]|(Hlong & _ & Hlen)].
  - vm_compute in Hshort. lia.
  - split; [exact Hlong|exact Hlen].
Defined.

(** ** [start_transcription] *)

Lemma output_names_differ (task_id ext : string) :
  let audio := ("temp_audio_" +:+ task_id) +:+ ext in
  let txt := "transcript_" +:+ task_id +:+ ".txt" in
  let srt := "transcript_" +:+ task_id +:+ ".srt" in
  audio ≠ txt ∧ audio ≠ srt ∧ txt ≠ srt.
Proof.
  simpl. split; [|split]; intros H.
  - apply (f_equal (OsPath.take 2)) in H. cbv in H. discriminate.
  - apply (f_equal (OsPath.take 2)) in H. cbv in H. discriminate.
  - do 2 apply (inj (String.app _)) in H. discriminate.
Qed.

(** What an accepted submission stores and starts. *)
Lemma start_transcription_started env request w episodes i :
  get_episodes_from_rss env (form_rss_url request) = (Some episodes, None) →
  form_episode_index request = Some i →
  - len episodes ≤ i < len episodes →
  let position := Z.to_nat (if i <? 0 then len episodes + i else i) in
  let task_id := uuid4 env (w_ticks w) in
  ∃ ep th w' d,
    episodes !! position = Some ep ∧
    start_transcription env request w = (Ok (JsonTask task_id, Some th), w') ∧
    th_episode th = ep ∧ th_task_id th = task_id ∧
    th_audio_filename th ≠ th_txt_filename th ∧
    th_audio_filename th ≠ th_srt_filename th ∧
    th_txt_filename th ≠ th_srt_filename th ∧
    w_status w' !! task_id = Some d ∧
    d !! "status" = Some (VStr "starting") ∧
    d !! "progress" = Some (VInt 0) ∧
    d !! "episode_title" = Some (VStr (ep_title ep)) ∧
    (∀ other, other ≠ task_id → w_status w' !! other = w_status w !! other) ∧
    w_fs w' = w_fs w ∧ w_results w' = w_results w ∧
    history task_id "status" w' = history task_id "status" w ++ [VStr "starting"].
Proof.
  intros Hfeed Hindex Hrange position task_id.
  destruct (lookup_lt_is_Some_2 episodes position) as [ep Hep].
  { unfold position, len in *. destruct (Z.ltb_spec i 0); lia. }
  unfold start_transcription, mbind, M_bind. rewrite Hindex, Hfeed. simpl.
  rewrite bool_decide_eq_false_2 by lia. simpl.
  unfold list_index.
  destruct (Z.ltb_spec (if i <? 0 then len episodes + i else i) 0) as [Hneg|_].
  { destruct (Z.ltb_spec i 0); lia. }
  fold position. rewrite Hep. simpl.
  destruct (output_names_differ task_id
              (OsPath.splitext (urlparse_path env (ep_audio_url ep))).2)
    as (H1 & H2 & H3).
  eexists ep, _, _, _. split; [done|]. split; [reflexivity|]. simpl.
  split; [done|]. split; [done|]. split; [exact H1|]. split; [exact H2|].
  split; [exact H3|].
  split; [apply lookup_insert_eq|]. split; [done|]. split; [done|]. split; [done|].
  split; [intros other Hother; by rewrite lookup_insert_ne|].
  split; [done|]. split; [done|].
  rewrite (history_run_from task_id "status" w _
             [ (task_id, "start_time", VFloat (clock env (S (w_ticks w))));
               (task_id, "eta", VStr "Calculating...");
               (task_id, "download_progress", VInt 0);
               (task_id, "episode_title", VStr (ep_title ep));
               (task_id, "progress", VInt 0);
               (task_id, "status", VStr "starting") ]) by done.
  rewrite stored_values_of; [done|by left|by repeat constructor].
Qed.

(** X4: an index that selects an episode of the list, counted from the
    front or, when negative, from the end, is accepted: the answer carries a
    new task id, the task is stored with status [starting] and progress 0
    under the title of the selected episode, a thread is started for that
    episode with three file names that differ from one another, and
    neither the files, nor the results, nor any other task are touched. *)
Theorem start_transcription_accepts env request w episodes i :
  get_episodes_from_rss env (form_rss_url request) = (Some episodes, None) →
  form_episode_index request = Some i →
  - len episodes ≤ i < len episodes →
  let position := Z.to_nat (if i <? 0 then len episodes + i else i) in
  let task_id := uuid4 env (w_ticks w) in
  ∃ ep th w' d,
    episodes !! position = Some ep ∧
    start_transcription env request w = (Ok (JsonTask task_id, Some th), w') ∧
    th_episode th = ep ∧ th_task_id th = task_id ∧
    th_audio_filename th ≠ th_txt_filename th ∧
    th_audio_filename th ≠ th_srt_filename th ∧
    th_txt_filename th ≠ th_srt_filename th ∧
    w_status w' !! task_id = Some d ∧
    d !! "status" = Some (VStr "starting") ∧
    d !! "progress" = Some (VInt 0) ∧
    d !! "episode_title" = Some (VStr (ep_title ep)) ∧
    (∀ other, other ≠ task_id → w_status w' !! other = w_status w !! other) ∧
    w_fs w' = w_fs w ∧ w_results w' = w_results w.
Proof.
  intros Hfeed Hindex Hrange position task_id.
  destruct (start_transcription_started env request w episodes i Hfeed Hindex Hrange)
    as (ep & th & w' & d & H1 & H2 & H3 & H4 & H5 & H6 & H7 & H8 & H9 & H10 & H11
        & H12 & H13 & H14 & _).
  by exists ep, th, w', d.
Qed.

Lemma start_transcription_accepts_witness :
  ∃ ep th w' d,
    [ {| ep_index := 0; ep_title := "Episode 1"; ep_published := "Unknown date";
         ep_audio_url := "http://pod.example/ep.mp3";
         ep_description := "First" |} ] !! 0%nat = Some ep ∧
    start_transcription (Scenario.env Scenario.no_body)
      {| form_rss_url := None; form_episode_index := Some (-1) |} empty_world
      = (Ok (JsonTask "t", Some th), w') ∧
    th_episode th = ep ∧
    w_status w' !! "t" = Some d ∧ d !! "status" = Some (VStr "starting").
Proof.
  destruct (start_transcription_accepts (Scenario.env Scenario.no_body)
              {| form_rss_url := None; form_episode_index := Some (-1) |}
              empty_world _ (-1) eq_refl eq_refl)
    as (ep & th & w' & d & Hep & Hrun & Hth & _ & _ & _ & _ & Hd & Hst & _).
  { split; reflexivity. }
  exists ep, th, w', d.
  split; [exact Hep|]. split; [exact Hrun|]. split; [exact Hth|].
  split; [exact Hd|exact Hst].
Defined.

(** X5: when the feed gave an error, or the index is at or beyond the end
    of the list, the answer is 400 [Invalid episode selection]: no task is
    stored, no thread is started and nothing else changes. *)
Theorem start_transcription_refuses env request w i :
  form_episode_index request = Some i →
  (∃ c message,
     get_episodes_from_rss env (form_rss_url request)
     = (None, Some (String c message)))
  ∨ (∃ episodes,
       get_episodes_from_rss env (form_rss_url request) = (Some episodes, None)
       ∧ len episodes ≤ i) →
  start_transcription env request w
  = (Ok (JsonError 400 "Invalid episode selection", None), w).
Proof.
  intros Hindex Hbad.
  unfold start_transcription, mbind, M_bind. rewrite Hindex. simpl.
  destruct Hbad as [(c & message & ->)|(episodes & -> & Hlen)]; simpl; [done|].
  by rewrite bool_decide_eq_true_2.
Qed.

Lemma start_transcription_refuses_witness :
  start_transcription (Scenario.env Scenario.no_body)
    {| form_rss_url := None; form_episode_index := Some 1 |} empty_world
  = (Ok (JsonError 400 "Invalid episode selection", None), empty_world).
Proof.
  apply (start_transcription_refuses (Scenario.env Scenario.no_body)
           {| form_rss_url := None; form_episode_index := Some 1 |} empty_world 1
           eq_refl).
  right. eexists. split; [reflexivity|]. unfold len. simpl. lia.
Defined.

(** X6: a negative index that reaches before the start of the list is not
    caught by the range test: indexing the list raises [IndexError] out of
    the view function, and nothing is stored. *)
Theorem start_transcription_index_error env request w episodes i :
  get_episodes_from_rss env (form_rss_url request) = (Some episodes, None) →
  form_episode_index request = Some i →
  i < - len episodes →
  start_transcription env request w = (Raise IndexError, w).
Proof.
  intros Hfeed Hindex Hlow.
  unfold start_transcription, mbind, M_bind. rewrite Hindex, Hfeed. simpl.
  rewrite bool_decide_eq_false_2 by (unfold len in *; lia). simpl.
  unfold list_index.
  destruct (Z.ltb_spec i 0); [|unfold len in *; lia].
  destruct (Z.ltb_spec (len episodes + i) 0); [done|lia].
Qed.

Lemma start_transcription_index_error_witness :
  start_transcription (Scenario.env Scenario.no_body)
    {| form_rss_url := None; form_episode_index := Some (-2) |} empty_world
  = (Raise IndexError, empty_world).
Proof.
  apply (start_transcription_index_error (Scenario.env Scenario.no_body)
           {| form_rss_url := None; form_episode_index := Some (-2) |} empty_world
           _ (-2) eq_refl eq_refl).
  unfold len. simpl. lia.
Defined.

(** ** More on [split_audio_if_needed] *)

(** X7: the names of the chunk files never collide: two chunks of one file
    have different names, and no chunk has the name of the file that is
    being split, so that an export overwrites neither an earlier chunk nor
    the original. *)
Theorem chunk_names_do_not_collide (audio_file : string) (i j : Z) :
  let base_name := (OsPath.splitext audio_file).1 in
  chunk_name base_name i ≠ audio_file ∧
  (chunk_name base_name i = chunk_name base_name j → i = j).
Proof. split; [apply chunk_name_ne|apply chunk_name_inj]. Qed.

(** Whatever the outcome of the [try] block, it touches no file but the
    original and the chunk files. *)
Lemma split_audio_try_frame env audio_file n w :
  ∀ p, p ≠ audio_file →
    (∀ i, p ≠ chunk_name (OsPath.splitext audio_file).1 i) →
    w_fs (split_audio_try env audio_file n w).2 !! p = w_fs w !! p.
Proof.
  intros p Hp Hchunk.
  unfold split_audio_try, mbind, M_bind, AudioSegment_from_file, int_floordiv.
  destruct (w_fs w !! audio_file) as [[size [audio|]|text]|]; simpl; try done.
  destruct (Z.eqb_spec n 0) as [->|Hn]; simpl; [done|].
  pose proof (split_loop_outcome env audio (OsPath.splitext audio_file).1
                (audio_len audio) (audio_len audio `div` n) (seqZ 0 n) [] w) as H.
  simpl in H. destruct H as (Hframe & _).
  specialize (Hframe p (λ i _, Hchunk i)).
  destruct (split_loop _ _ _ _ _ _ _ w) as [[l|e] w1]; simpl in *; [|done].
  unfold os_remove. destruct (w_fs w1 !! audio_file); simpl; [|done].
  destruct (remove_denied env audio_file); simpl; [done|].
  by rewrite lookup_delete_ne.
Qed.

(** X8: after a split that completed, the chunk files partition the start
    of the source in order: the first chunk starts where the source starts,
    each chunk has the same length [d = total // n] and starts where the one
    before it ends, and the last one ends [total mod n] milliseconds before
    the end of the source. The original file is gone, and no file other
    than the original and the chunks has changed. *)
Theorem split_chunks_partition env w audio_file n l w' :
  split_audio_try env audio_file n w = (Ok l, w') → 0 < n →
  ∃ audio spans,
    span_of (w_fs w) audio_file = Some audio ∧
    (0 ≤ audio_len audio →
     let d := audio_len audio `div` n in
     Forall2 (λ chunk_file span, span_of (w_fs w') chunk_file = Some span) l spans ∧
     length l = Z.to_nat n ∧
     (∀ k span, spans !! k = Some span →
        a_start span = a_start audio + Z.of_nat k * d ∧ audio_len span = d) ∧
     (∀ k a b, spans !! k = Some a → spans !! S k = Some b → a_end a = a_start b) ∧
     (∀ span, last spans = Some span →
        a_end span = a_end audio - audio_len audio `mod` n)) ∧
    w_fs w' !! audio_file = None ∧
    (∀ p, p ≠ audio_file →
       (∀ i, p ≠ chunk_name (OsPath.splitext audio_file).1 i) →
       w_fs w' !! p = w_fs w !! p).
Proof.
  intros Htry Hn.
  pose proof (split_audio_try_frame env audio_file n w) as Hframe.
  pose proof (split_audio_try_outcome env audio_file n w) as Hout.
  rewrite Htry in Hframe, Hout. simpl in Hframe, Hout.
  destruct Hout as (_ & size & audio & Hf & _ & -> & Hgone & Hspans).
  set (d := audio_len audio `div` n).
  exists audio,
    ((λ i, {| a_start := a_start audio + i * d; a_end := a_start audio + (i + 1) * d |})
       <$> seqZ 0 n).
  split; [by unfold span_of; rewrite Hf|]. split; [|done].
  intros Hlen. simpl. split; [|split; [|split; [|split]]].
  - apply Forall2_fmap, Forall_Forall2_diag, Forall_forall.
    intros i Hi%elem_of_range. rewrite Hspans by done.
    by destruct (chunk_span_exact audio n i Hlen Hi) as [-> _].
  - by rewrite length_fmap, length_seqZ.
  - intros k span Hk. rewrite list_lookup_fmap in Hk.
    destruct (seqZ 0 n !! k) as [i|] eqn:Hi; [|done].
    apply lookup_seqZ in Hi as [-> _]. injection Hk as <-.
    fold d. clearbody d. unfold audio_len. simpl. split; ring.
  - intros k a b Ha Hb. rewrite list_lookup_fmap in Ha, Hb.
    destruct (seqZ 0 n !! k) as [i|] eqn:Hi; [|done].
    destruct (seqZ 0 n !! S k) as [j|] eqn:Hj; [|done].
    apply lookup_seqZ in Hi as [-> _]. apply lookup_seqZ in Hj as [-> _].
    injection Ha as <-. injection Hb as <-. simpl. f_equal. lia.
  - intros span Hlast. rewrite fmap_last in Hlast.
    destruct (last (seqZ 0 n)) as [i|] eqn:Hi; [|done].
    injection Hlast as <-. simpl.
    rewrite last_lookup, length_seqZ in Hi. apply lookup_seqZ in Hi as [-> _].
    destruct (chunk_span_exact audio n 0 Hlen ltac:(lia)) as [_ Hend].
    fold d in Hend |- *.
    match goal with
    | |- context [(?x + 1) * d] => replace (x + 1) with n by lia
    end.
    exact Hend.
Qed.

Lemma split_chunks_partition_witness :
  let w := Scenario.world_with Scenario.asset_50mb in
  let r := split_audio_try (Scenario.env Scenario.no_body) "ep.mp3" 3 w in
  ∃ audio spans,
    span_of (w_fs w) "ep.mp3" = Some audio ∧
    (0 ≤ audio_len audio →
     ∀ span, last spans = Some span → a_end span = a_end audio - audio_len audio `mod` 3) ∧
    w_fs r.2 !! "ep.mp3" = None.
Proof.
  intros w r.
  destruct (split_audio_try (Scenario.env Scenario.no_body) "ep.mp3" 3 w)
    as [[l|e] w'] eqn:Hrun; [|vm_compute in Hrun; discriminate].
  destruct (split_chunks_partition (Scenario.env Scenario.no_body) w "ep.mp3" 3 l w'
              Hrun ltac:(lia)) as (audio & spans & Hsrc & Hparts & Hgone & _).
  exists audio, spans. split; [exact Hsrc|]. split; [|exact Hgone].
  intros Hlen. exact (proj2 (proj2 (proj2 (proj2 (Hparts Hlen))))).
Defined.

(** ** Stores into the status dictionary *)





Lemma replay_app (d2 d1 : list (string * string * value)) (d : gmap string value) :
  replay (d2 ++ d1) d = replay d2 (replay d1 d).
Proof. unfold replay. by rewrite foldr_app. Qed.

(** A key that [delta] does not store keeps its value. *)
Lemma replay_other_key (delta : list (string * string * value)) d key :
  key ∉ keys_of delta → replay delta d !! key = d !! key.
Proof.
  induction delta as [|[[t k] v] delta IH]; [done|]. simpl.
  intros Hnot. apply not_elem_of_cons in Hnot as [Hk Hrest].
  rewrite lookup_insert_ne by done. by apply IH.
Qed.

Lemma run_from_refl task_id w w' :
  w_trace w' = w_trace w → w_status w' = w_status w → run_from task_id w w' [].
Proof.
  intros Ht Hs. split; [done|]. split; [constructor|].
  split; [intros d Hd; by rewrite Hs|intros other _; by rewrite Hs].
Qed.

Lemma run_from_trans task_id w w1 w2 d1 d2 :
  run_from task_id w w1 d1 → run_from task_id w1 w2 d2 →
  run_from task_id w w2 (d2 ++ d1).
Proof.
  intros (Ht1 & Hf1 & Hd1 & Ho1) (Ht2 & Hf2 & Hd2 & Ho2).
  split; [by rewrite Ht2, Ht1, app_assoc|].
  split; [by apply Forall_app|].
  split.
  - intros d Hd. rewrite replay_app. by apply Hd2, Hd1.
  - intros other Hother. by rewrite Ho2, Ho1.
Qed.

(** A store into the dictionary of a task that is there succeeds. *)
Lemma set_status_run task_id key v w d :
  w_status w !! task_id = Some d →
  ∃ w', set_status task_id key v w = (Ok tt, w') ∧
        run_from task_id w w' [(task_id, key, v)] ∧
        w_fs w' = w_fs w ∧ w_results w' = w_results w ∧ w_ticks w' = w_ticks w.
Proof.
  intros Hd. unfold set_status. rewrite Hd. eexists. split; [done|].
  split; [|done]. split; [done|]. split; [by repeat constructor|]. simpl.
  split.
  - intros d' Hd'. rewrite lookup_insert_eq. congruence.
  - intros other Hother. by rewrite lookup_insert_ne.
Qed.

Lemma run_from_present task_id w w' delta d :
  run_from task_id w w' delta → w_status w !! task_id = Some d →
  w_status w' !! task_id = Some (replay delta d).
Proof. intros (_ & _ & H & _). apply H. Qed.

Lemma bind_step {A B} (m : M A) (k : A → M B) (w : world) (a : A) (w1 : world) :
  m w = (Ok a, w1) → (m ≫= k) w = k a w1.
Proof. unfold mbind, M_bind. by intros ->. Qed.

Lemma bind_raise {A B} (m : M A) (k : A → M B) (w : world) (e : exn) (w1 : world) :
  m w = (Raise e, w1) → (m ≫= k) w = (Raise e, w1).
Proof. unfold mbind, M_bind. by intros ->. Qed.

(** ** [download_audio] *)


Lemma download_blocks_run env filename task_id total_size start_time blocks :
  ∀ downloaded w d, w_status w !! task_id = Some d →
  ∃ w' delta,
    download_blocks env filename task_id total_size start_time blocks downloaded w
      = (Ok (downloaded + total_bytes blocks), w') ∧
    run_from task_id w w' delta ∧
    (∀ k, k ∈ keys_of delta → k ∈ download_keys) ∧
    stored task_id "download_progress" delta
      = (if 0 <? total_size
         then (λ t, VFloat (inject_Z t / inject_Z total_size * 100)%Q)
                <$> running_totals downloaded blocks
         else []) ∧
    (∀ p, p ≠ filename → w_fs w' !! p = w_fs w !! p) ∧
    w_results w' = w_results w.
Proof.
  induction blocks as [|b rest IH]; intros downloaded w d Hd.
  - exists w, []. simpl. rewrite Z.add_0_r. split; [done|].
    split; [by apply run_from_refl|]. split; [by intros k ?%elem_of_nil|].
    split; [by destruct (0 <? total_size)|done].
  - simpl. destruct (Z.eqb_spec b 0) as [->|Hb].
    { destruct (IH downloaded w d Hd) as (w' & delta & Hrun & Hrest).
      exists w', delta. rewrite Hrun. split; [f_equal; f_equal; lia|done]. }
    set (w1 := set_fs (<[filename := AudioFile (downloaded + b) None]> (w_fs w)) w).
    assert (put_file filename (AudioFile (downloaded + b) None) w = (Ok tt, w1))
      as Hput by done.
    rewrite (bind_step _ _ _ _ _ Hput).
    assert (∃ w2 delta2,
              (if 0 <? total_size
               then
                 let progress :=
                   (inject_Z (downloaded + b) / inject_Z total_size * 100)%Q in
                 now ← time_time env;
                 let elapsed := (now - start_time)%Q in
                 (if Py.gt progress 0
                  then
                    let eta_seconds := (elapsed / progress * (100 - progress))%Q in
                    let eta_minutes := (eta_seconds / 60)%Q in
                    set_status task_id "eta"
                      (VStr (fmt_1f env eta_minutes +:+ " min"))
                  else mret tt);;
                 set_status task_id "download_progress" (VFloat progress);;
                 set_status task_id "download_speed"
                   (VStr (if Py.gt elapsed 0
                          then fmt_1f env
                                 (inject_Z (downloaded + b) / 1024 / 1024 / elapsed)%Q
                               +:+ " MB/s"
                          else "0 MB/s"))
               else mret tt) w1 = (Ok tt, w2) ∧
              run_from task_id w w2 delta2 ∧
              (∀ k, k ∈ keys_of delta2 → k ∈ download_keys) ∧
              stored task_id "download_progress" delta2
                = (if 0 <? total_size
                   then [VFloat (inject_Z (downloaded + b) / inject_Z total_size * 100)%Q]
                   else []) ∧
              w_fs w2 = w_fs w1 ∧ w_results w2 = w_results w)
      as (w2 & delta2 & Hreport & Hrun2 & Hkeys2 & Hstored2 & Hfs2 & Hres2).
    { destruct (0 <? total_size).
      - cbv zeta.
        assert (run_from task_id w (tick w1) []) as Hr0 by (by apply run_from_refl).
        rewrite (bind_step (time_time env) _ w1 (clock env (w_ticks w1)) (tick w1) eq_refl).
        assert (∃ w3 delta3,
                  (if Py.gt (inject_Z (downloaded + b) / inject_Z total_size * 100) 0
                   then
                     set_status task_id "eta"
                       (VStr (fmt_1f env
                          ((clock env (w_ticks w1) - start_time)
                           / (inject_Z (downloaded + b) / inject_Z total_size * 100)
                           * (100 - inject_Z (downloaded + b) / inject_Z total_size * 100)
                           / 60)%Q +:+ " min"))
                   else mret tt) (tick w1) = (Ok tt, w3) ∧
                  run_from task_id w w3 delta3 ∧
                  (∀ k, k ∈ keys_of delta3 → k ∈ download_keys) ∧
                  stored task_id "download_progress" delta3 = [] ∧
                  w_fs w3 = w_fs w1 ∧ w_results w3 = w_results w)
          as (w3 & delta3 & Heta & Hrun3 & Hkeys3 & Hstored3 & Hfs3 & Hres3).
        { destruct (Py.gt _ 0).
          - destruct (set_status_run task_id "eta"
                        (VStr (fmt_1f env
                          ((clock env (w_ticks w1) - start_time)
                           / (inject_Z (downloaded + b) / inject_Z total_size * 100)
                           * (100 - inject_Z (downloaded + b) / inject_Z total_size * 100)
                           / 60)%Q +:+ " min")) (tick w1) d Hd)
              as (w3 & Hset & Hrun3 & Hfs3 & Hres3 & _).
            eexists w3, _. split; [exact Hset|].
            split; [exact (run_from_trans _ _ _ _ _ _ Hr0 Hrun3)|].
            split.
            { intros k [->|?%elem_of_nil]%elem_of_cons; [|done].
              by apply elem_of_cons; left. }
            split; [|done]. unfold stored. simpl.
            destruct (decide (task_id = task_id ∧ "eta" = "download_progress"))
              as [[_ ?]|_]; done.
          - exists (tick w1), []. split; [done|]. split; [done|].
            split; [by intros k ?%elem_of_nil|done]. }
        rewrite (bind_step _ _ _ _ _ Heta).
        destruct (set_status_run task_id "download_progress"
                    (VFloat (inject_Z (downloaded + b) / inject_Z total_size * 100)%Q)
                    w3 _ (run_from_present _ _ _ _ _ Hrun3 Hd))
          as (w4 & Hset4 & Hrun4 & Hfs4 & Hres4 & _).
        rewrite (bind_step _ _ _ _ _ Hset4).
        pose proof (run_from_trans _ _ _ _ _ _ Hrun3 Hrun4) as Hrun34.
        destruct (set_status_run task_id "download_speed"
                    (VStr (if Py.gt (clock env (w_ticks w1) - start_time) 0
                           then fmt_1f env
                                  (inject_Z (downloaded + b) / 1024 / 1024
                                   / (clock env (w_ticks w1) - start_time))%Q
                                +:+ " MB/s"
                           else "0 MB/s"))
                    w4 _ (run_from_present _ _ _ _ _ Hrun34 Hd))
          as (w5 & Hset5 & Hrun5 & Hfs5 & Hres5 & _).
        eexists w5, _.
        split; [exact Hset5|].
        split; [exact (run_from_trans _ _ _ _ _ _ Hrun34 Hrun5)|].
        split.
        { intros k [->|[->|Hk]%elem_of_cons]%elem_of_cons.
          - by apply elem_of_cons; right; apply elem_of_cons; right;
              apply elem_of_cons; left.
          - by apply elem_of_cons; right; apply elem_of_cons; left.
          - by apply Hkeys3. }
        split; [|split; congruence].
        rewrite !stored_app, Hstored3. unfold stored. simpl.
        destruct (decide (task_id = task_id ∧ "download_progress" = "download_progress"))
          as [_|Hno]; [|by destruct Hno].
        destruct (decide (task_id = task_id ∧ "download_speed" = "download_progress"))
          as [[_ ?]|_]; done.
      - exists w1, []. split; [done|]. split; [by apply run_from_refl|].
        split; [by intros k ?%elem_of_nil|done]. }
    rewrite (bind_step _ _ _ _ _ Hreport).
    destruct (IH (downloaded + b) w2 _ (run_from_present _ _ _ _ _ Hrun2 Hd))
      as (w' & delta & Hloop & Hrun & Hkeys & Hstored & Hfs & Hres).
    exists w', (delta ++ delta2). rewrite Hloop.
    split; [f_equal; f_equal; lia|].
    split; [exact (run_from_trans _ _ _ _ _ _ Hrun2 Hrun)|].
    split.
    { unfold keys_of. rewrite fmap_app.
      intros k [Hk|Hk]%elem_of_app; [by apply Hkeys|by apply Hkeys2]. }
    split.
    { rewrite stored_app, Hstored2, Hstored. by destruct (0 <? total_size). }
    split; [|congruence].
    intros p Hp. rewrite Hfs by done. rewrite Hfs2. unfold w1. simpl.
    by rewrite lookup_insert_ne.
Qed.

Lemma running_totals_bounds (blocks : list Z) :
  Forall (λ b, 0 ≤ b) blocks →
  ∀ downloaded,
    Forall (λ t, downloaded ≤ t ≤ downloaded + total_bytes blocks)
           (running_totals downloaded blocks) ∧
    (∀ j k a b, (j < k)%nat →
       running_totals downloaded blocks !! j = Some a →
       running_totals downloaded blocks !! k = Some b → a ≤ b) ∧
    (∀ t, last (running_totals downloaded blocks) = Some t →
          t = downloaded + total_bytes blocks).
Proof.
  induction 1 as [|b rest Hb Hrest IH]; intros downloaded; simpl.
  - split; [constructor|]. split; [by intros j k a b _ ?|done].
  - change (total_bytes (b :: rest)) with (b + total_bytes rest).
    destruct (Z.eqb_spec b 0) as [->|Hne].
    + destruct (IH downloaded) as (H1 & H2 & H3).
      split; [|split; [done|]].
      * eapply Forall_impl; [exact H1|]. simpl. intros t ?. lia.
      * intros t Ht. rewrite (H3 t Ht). lia.
    + destruct (IH (downloaded + b)) as (H1 & H2 & H3).
      split; [|split].
      * assert (0 ≤ total_bytes rest).
        { clear -Hrest. induction Hrest as [|c cs Hc _ IHc]; [done|].
          change (total_bytes (c :: cs)) with (c + total_bytes cs). lia. }
        constructor; [lia|].
        eapply Forall_impl; [exact H1|]. simpl. intros t ?. lia.
      * intros j k x y Hjk Hj Hk. destruct k as [|k]; [lia|]. simpl in Hk.
        destruct j as [|j]; simpl in Hj.
        -- injection Hj as <-. rewrite Forall_forall in H1.
           apply list_elem_of_lookup_2 in Hk. specialize (H1 y Hk). lia.
        -- apply (H2 j k); [lia|done..].
      * intros t Ht.
        destruct (running_totals (downloaded + b) rest) as [|t0 l] eqn:Hl.
        -- simpl in Ht. injection Ht as <-. destruct rest as [|b' rest'].
           ++ simpl. lia.
           ++ assert (total_bytes (b' :: rest') = 0); [|lia].
              clear -Hl Hrest. revert Hl.
              generalize (downloaded + b).
              induction Hrest as [|c cs Hc Hcs IHc]; intros z; simpl; [done|].
              change (total_bytes (c :: cs)) with (c + total_bytes cs).
              destruct (Z.eqb_spec c 0) as [->|?]; [|done].
              intros H. by rewrite (IHc z H).
        -- rewrite last_cons_cons in Ht. rewrite (H3 t Ht). lia.
Qed.

(** X9: when the request is answered with a good status, the file may be
    written and the task is in the status store, the download returns the
    file name; the file then holds all the blocks, the sum of their
    lengths; of the task's dictionary only [eta], [download_progress] and
    [download_speed] change, so status and progress are as before; other
    tasks, other files and the results are untouched. *)
Theorem download_audio_succeeds env url filename task_id w d response :
  requests_get env url = inr response →
  r_status_ok response = true →
  write_denied env filename = false →
  w_status w !! task_id = Some d →
  ∃ w' d',
    download_audio env url filename task_id w = (Ok filename, w') ∧
    w_fs w'
    = <[filename := AudioFile (total_bytes (r_blocks response)) (r_decoded response)]>
        (w_fs w) ∧
    w_status w' !! task_id = Some d' ∧
    (∀ key, key ∉ download_keys → d' !! key = d !! key) ∧
    (∀ other, other ≠ task_id → w_status w' !! other = w_status w !! other) ∧
    w_results w' = w_results w.
Proof.
  intros Hget Hok Hwrite Hd.
  unfold download_audio.
  rewrite (bind_step _ _ w response w) by (unfold lift_call; by rewrite Hget).
  rewrite Hok, (bind_step (mret tt) _ w tt w eq_refl).
  rewrite (bind_step (time_time env) _ w _ (tick w) eq_refl).
  rewrite Hwrite.
  set (w1 := set_fs (<[filename := AudioFile 0 None]> (w_fs (tick w))) (tick w)).
  rewrite (bind_step (put_file filename (AudioFile 0 None)) _ (tick w) tt w1 eq_refl).
  destruct (download_blocks_run env filename task_id
              (default 0 (r_content_length response)) (clock env (w_ticks w))
              (r_blocks response) 0 w1 d Hd)
    as (w2 & delta & Hloop & Hrun & Hkeys & _ & Hfs & Hres).
  rewrite (bind_step _ _ _ _ _ Hloop).
  unfold mbind, M_bind, put_file, mret, M_ret. rewrite Z.add_0_l.
  eexists _, _. split; [done|]. simpl. split; [|split; [|split; [|split]]].
  - apply map_eq. intros p. destruct (decide (p = filename)) as [->|Hp].
    + by rewrite !lookup_insert_eq.
    + rewrite !lookup_insert_ne by done. rewrite Hfs by done. unfold w1. simpl.
      by rewrite lookup_insert_ne.
  - exact (run_from_present _ _ _ _ _ Hrun Hd).
  - intros key Hkey. apply replay_other_key. intros Hin. by apply Hkey, Hkeys.
  - intros other Hother. destruct Hrun as (_ & _ & _ & Ho). by rewrite Ho.
  - done.
Qed.

Lemma download_audio_succeeds_witness :
  ∃ w' d',
    download_audio Scenario3.env "http://pod.example/ep.mp3" "ep.mp3" "t"
      (Scenario.world_with Scenario.asset_10mb) = (Ok "ep.mp3", w') ∧
    w_fs w' !! "ep.mp3" = Some (AudioFile 83886080 (Some Scenario.audio_80mb)) ∧
    w_status w' !! "t" = Some d' ∧ d' !! "status" = None.
Proof.
  destruct (download_audio_succeeds Scenario3.env "http://pod.example/ep.mp3"
              "ep.mp3" "t" (Scenario.world_with Scenario.asset_10mb) ∅ _
              eq_refl eq_refl eq_refl eq_refl)
    as (w' & d' & Hrun & Hfs & Hd & Hkeys & _).
  exists w', d'. split; [exact Hrun|]. split; [|split; [exact Hd|]].
  - rewrite Hfs. reflexivity.
  - rewrite (Hkeys "status"); [reflexivity|].
    intros Hin. repeat (apply elem_of_cons in Hin as [Hin|Hin]; [discriminate|]).
    by apply elem_of_nil in Hin.
Defined.

Lemma non_decreasing_of_lookup (l : list Q) :
  (∀ j k a b, (j < k)%nat → l !! j = Some a → l !! k = Some b → (a <= b)%Q) →
  non_decreasing l.
Proof.
  induction l as [|x l IH]; intros H; [done|]. split.
  - apply Forall_forall. intros y Hy.
    apply list_elem_of_lookup in Hy as [k Hk].
    by apply (H 0%nat (S k)); [lia|..].
  - apply IH. intros j k a b Hjk Ha Hb. by apply (H (S j) (S k)); [lia|..].
Qed.

Lemma percent_mono (a b total : Z) :
  0 < total → a ≤ b →
  (inject_Z a / inject_Z total * 100 <= inject_Z b / inject_Z total * 100)%Q.
Proof.
  intros Ht Hab. apply inject_Z_pos in Ht. rewrite Zle_Qle in Hab.
  apply Qmult_le_compat_r; [|done].
  apply Qmult_le_compat_r; [done|]. apply Qinv_le_0_compat. lra.
Qed.



(** X11: when the request raises, the answer has an error status, or the
    file may not be written, the download raises before any block is
    written: no file is created or changed, and nothing is stored for the
    task. *)
Theorem download_audio_fails_early env url filename task_id w :
  (∃ e, requests_get env url = inl e)
  ∨ (∃ response, requests_get env url = inr response ∧
       (r_status_ok response = false ∨ write_denied env filename = true)) →
  ∃ e w',
    download_audio env url filename task_id w = (Raise e, w') ∧
    w_fs w' = w_fs w ∧ w_status w' = w_status w ∧ w_trace w' = w_trace w.
Proof.
  intros [[e Hget]|(response & Hget & Hbad)]; unfold download_audio.
  - exists e, w. split; [|done].
    apply bind_raise. unfold lift_call. by rewrite Hget.
  - rewrite (bind_step _ _ w response w) by (unfold lift_call; by rewrite Hget).
    destruct (r_status_ok response) eqn:Hok.
    + destruct Hbad as [?|Hdenied]; [done|].
      rewrite (bind_step (mret tt) _ w tt w eq_refl).
      rewrite (bind_step (time_time env) _ w _ (tick w) eq_refl).
      rewrite Hdenied. by eexists _, (tick w).
    + by eexists _, w.
Qed.

Lemma download_audio_fails_early_witness :
  ∃ e w',
    download_audio
      (Scenario.env {| r_status_code := 404; r_reason := "Not Found"; r_url := "u";
                       r_content_length := None; r_blocks := [];
                       r_decoded := None |})
      "u" "ep.mp3" "t" empty_world = (Raise e, w') ∧
    w_fs w' = w_fs empty_world.
Proof.
  destruct (download_audio_fails_early
              (Scenario.env {| r_status_code := 404; r_reason := "Not Found";
                               r_url := "u"; r_content_length := None;
                               r_blocks := []; r_decoded := None |})
              "u" "ep.mp3" "t" empty_world) as (e & w' & Hrun & Hfs & _).
  { right. eexists. split; [reflexivity|]. by left. }
  exists e, w'. split; [exact Hrun|exact Hfs].
Defined.

(** ** The stores of a run of [transcribe_audio_openai] *)

Ltac step H E a w1 :=
  match type of H with
  | (?m ≫= ?k) ?w = _ =>
      let e := fresh "e" in
      destruct (m w) as [[a|e] w1] eqn:E;
      [rewrite (bind_step m k w a w1 E) in H
      |rewrite (bind_raise m k w e w1 E) in H]
  end.

Lemma sp_of_app (d2 d1 : list (string * string * value)) :
  sp_of (d2 ++ d1) = sp_of d1 ++ sp_of d2.
Proof.
  induction d2 as [|[[t k] v] d2 IH]; simpl; [by rewrite List.app_nil_r|].
  by rewrite IH, app_assoc.
Qed.

Lemma loop_events_app (n i : Z) (a b : nat) :
  loop_events n i (a + b) = loop_events n i a ++ loop_events n (i + Z.of_nat a) b.
Proof.
  revert i. induction a as [|a IH]; intros i; simpl.
  - by rewrite Z.add_0_r.
  - replace (i + Z.of_nat (S a)) with (i + 1 + Z.of_nat a) by lia.
    by rewrite IH.
Qed.

Section quiet_steps.
  Context (w w' : world).

Lemma os_path_getsize_quiet path r : os_path_getsize path w = (r, w') → w' = w.
Proof. unfold os_path_getsize. destruct (w_fs w !! path); by intros [= _ <-]. Qed.

Lemma open_rb_quiet path r : open_rb path w = (r, w') → w' = w.
Proof. unfold open_rb. destruct (w_fs w !! path); by intros [= _ <-]. Qed.

Lemma lift_call_quiet {A} (c : exn + A) r : lift_call c w = (r, w') → w' = w.
Proof. unfold lift_call. destruct c; by intros [= _ <-]. Qed.

Lemma os_remove_stores env path r :
  os_remove env path w = (r, w') →
  same_stores w w' ∧ (∀ p, p ≠ path → w_fs w' !! p = w_fs w !! p) ∧
  (r = Ok tt → w_fs w' !! path = None).
Proof.
  unfold os_remove. destruct (w_fs w !! path); [|by intros [= <- <-]].
  destruct (remove_denied env path); intros [= <- <-]; [done|].
  split; [done|]. simpl. split; [|by rewrite lookup_delete_eq].
  intros p Hp. by rewrite lookup_delete_ne.
Qed.

Lemma write_text_stores env path text r :
  write_text env path text w = (r, w') →
  same_stores w w' ∧ (∀ p, p ≠ path → w_fs w' !! p = w_fs w !! p) ∧
  (r = Ok tt → w_fs w' !! path = Some (TextFile text)).
Proof.
  unfold write_text. destruct (write_denied env path); intros [= <- <-]; [done|].
  split; [done|]. simpl. split; [|by rewrite lookup_insert_eq].
  intros p Hp. by rewrite lookup_insert_ne.
Qed.

Lemma get_audio_duration_quiet env path r :
  get_audio_duration env path w = (r, w') → w' = w.
Proof.
  unfold get_audio_duration, try_except.
  destruct (w_fs w !! path ≫= librosa_get_duration env); [by intros [= _ <-]|].
  unfold mbind, M_bind, os_path_getsize.
  destruct (w_fs w !! path); by intros [= _ <-].
Qed.

Lemma stitch_chunk_quiet audio_duration n i ct acc r :
  stitch_chunk audio_duration n i ct acc w = (r, w') → w' = w.
Proof.
  unfold stitch_chunk, float_div, mbind, M_bind, mret, M_ret, raise.
  destruct (ct_segments ct) as [[|s l]|]; try by intros [= _ <-].
  destruct (Qeq_bool (inject_Z n) 0); by intros [= _ <-].
Qed.

Lemma split_audio_if_needed_stores env audio_file max_size_mb r :
  split_audio_if_needed env audio_file max_size_mb w = (r, w') → same_stores w w'.
Proof.
  unfold split_audio_if_needed, mbind, M_bind, os_path_getsize.
  destruct (w_fs w !! audio_file) as [f|]; [|by intros [= _ <-]].
  destruct (Py.le _ _); [by intros [= _ <-]|].
  unfold float_div. destruct (Qeq_bool max_size_mb 0); [by intros [= _ <-]|].
  unfold mret, M_ret, try_except.
  pose proof (split_audio_try_outcome env audio_file
                (Py.int (inject_Z (file_size f) / MB / max_size_mb + 1)%Q) w) as H.
  destruct (split_audio_try _ _ _ w) as [[l|e] w1]; simpl in H;
    destruct H as [H _]; by intros [= _ <-].
Qed.
End quiet_steps.

Lemma same_stores_run task_id w w' : same_stores w w' → run_from task_id w w' [].
Proof. intros (Hs & _ & Ht & _). by apply run_from_refl. Qed.

Lemma float_div_int (a : Q) (n : Z) (w : world) :
  n ≠ 0 → float_div a (inject_Z n) w = (Ok (a / inject_Z n)%Q, w).
Proof.
  intros Hn. unfold float_div.
  destruct (Qeq_bool (inject_Z n) 0) eqn:Hz; [|done].
  apply Qeq_bool_eq in Hz. unfold Qeq in Hz. simpl in Hz. lia.
Qed.

Lemma set_status_step {B} task_id key v (k : unit → M B) w d :
  w_status w !! task_id = Some d →
  ∃ w1, (set_status task_id key v ≫= k) w = k tt w1 ∧
        run_from task_id w w1 [(task_id, key, v)] ∧
        w_status w1 !! task_id = Some (<[key := v]> d) ∧
        w_fs w1 = w_fs w ∧ w_results w1 = w_results w ∧ w_ticks w1 = w_ticks w.
Proof.
  intros Hd. destruct (set_status_run task_id key v w d Hd) as (w1 & E & R & F & Rs & T).
  exists w1. split; [by apply bind_step|]. split; [done|].
  split; [|done]. by rewrite (run_from_present _ _ _ _ _ R Hd).
Qed.

Ltac store H Hd w1 R1 Hd1 F1 Rs1 T1 :=
  match type of H with
  | (set_status ?t ?key ?v ≫= ?k) ?w = _ =>
      let E := fresh "E" in
      destruct (set_status_step t key v k w _ Hd) as (w1 & E & R1 & Hd1 & F1 & Rs1 & T1);
      rewrite E in H; clear E
  end.

(** What the chunk loop stores and which files it touches, however it
    ends: the stores of status and progress are those of the chunks it
    began, in order; a loop that completes has removed every chunk file;
    files that are no chunk are not touched. *)
Lemma transcribe_chunks_run env task_id audio_duration n chunks :
  n ≠ 0 →
  ∀ i acc text w d r w',
  w_status w !! task_id = Some d →
  transcribe_chunks env task_id audio_duration n i chunks acc text w = (r, w') →
  ∃ delta k,
    run_from task_id w w' delta ∧
    sp_of delta = loop_events n i k ∧ (k ≤ length chunks)%nat ∧
    (∀ x, r = Ok x → k = length chunks ∧ ∀ p, p ∈ chunks → w_fs w' !! p = None) ∧
    w_results w' = w_results w ∧ w_ticks w' = w_ticks w ∧
    (∀ p, p ∉ chunks → w_fs w' !! p = w_fs w !! p) ∧
    keys_of delta ⊆ ["progress"; "status"].
Proof.
  intros Hn. induction chunks as [|chunk_file rest IH]; intros i acc text w d r w' Hd H.
  - injection H as <- <-. exists [], 0%nat.
    split; [by apply run_from_refl|]. split; [done|]. split; [done|].
    split; [intros x _; split; [done|]; intros p Hp; by apply elem_of_nil in Hp|].
    split; [done|]. split; [done|]. split; [done|]. apply list_subseteq_nil.
  - simpl in H. rewrite (bind_step _ _ _ _ _ (float_div_int _ n w Hn)) in H.
    store H Hd w1 R1 Hd1 F1 Rs1 T1.
    store H Hd1 w2 R2 Hd2 F2 Rs2 T2.
    pose proof (run_from_trans _ _ _ _ _ _ R1 R2) as R12. simpl in R12.
    cut (∃ delta k,
           run_from task_id w2 w' delta ∧
           sp_of delta = loop_events n (i + 1) k ∧ (k ≤ length rest)%nat ∧
           (∀ x, r = Ok x →
                 k = length rest ∧ ∀ p, p ∈ chunk_file :: rest → w_fs w' !! p = None) ∧
           w_results w' = w_results w2 ∧ w_ticks w' = w_ticks w2 ∧
           (∀ p, p ∉ chunk_file :: rest → w_fs w' !! p = w_fs w2 !! p) ∧
           keys_of delta ⊆ ["progress"; "status"]).
    { intros (delta & k & R & Hsp & Hk & HOk & Hrs & Hts & Hfs & Hkeys).
      exists (delta ++ [(task_id, "status",
                         VStr ("transcribing chunk " +:+ Py.str_int (i + 1) +:+ "/"
                               +:+ Py.str_int n));
                        (task_id, "progress",
                         VFloat (10 + inject_Z i / inject_Z n * 60)%Q)]), (S k).
      split; [by apply (run_from_trans _ _ _ _ _ _ R12 R)|].
      split; [rewrite sp_of_app, Hsp; reflexivity|].
      split; [simpl; lia|].
      split; [intros x Hx; destruct (HOk x Hx) as [-> Hn']; by split|].
      split; [congruence|]. split; [congruence|].
      split; [intros p Hp; rewrite (Hfs p Hp); congruence|].
      unfold keys_of in *. rewrite fmap_app. simpl. intros key Hin.
      apply elem_of_app in Hin as [Hin|Hin]; [by apply Hkeys|].
      repeat (apply elem_of_cons in Hin as [->|Hin]; [by repeat constructor|]).
      by apply elem_of_nil in Hin. }
    assert (∀ e, r = Raise e → w' = w2 →
            ∃ delta k,
              run_from task_id w2 w' delta ∧
              sp_of delta = loop_events n (i + 1) k ∧ (k ≤ length rest)%nat ∧
              (∀ x, r = Ok x →
                 k = length rest ∧ ∀ p, p ∈ chunk_file :: rest → w_fs w' !! p = None) ∧
              w_results w' = w_results w2 ∧ w_ticks w' = w_ticks w2 ∧
              (∀ p, p ∉ chunk_file :: rest → w_fs w' !! p = w_fs w2 !! p) ∧
              keys_of delta ⊆ ["progress"; "status"]) as Hstop.
    { intros e -> ->. exists [], 0%nat.
      split; [by apply run_from_refl|]. split; [done|]. split; [lia|].
      split; [intros x Hx; discriminate Hx|].
      split; [done|]. split; [done|]. split; [done|]. apply list_subseteq_nil. }
    step H E3 sz w3.
    2:{ injection H as <- <-. apply os_path_getsize_quiet in E3 as ->. by eapply Hstop. }
    apply os_path_getsize_quiet in E3 as ->.
    step H E4 f w3.
    2:{ injection H as <- <-. apply open_rb_quiet in E4 as ->. by eapply Hstop. }
    apply open_rb_quiet in E4 as ->.
    step H E5 ct w3.
    2:{ injection H as <- <-. apply lift_call_quiet in E5 as ->. by eapply Hstop. }
    apply lift_call_quiet in E5 as ->.
    step H E6 acc' w3.
    2:{ injection H as <- <-. apply stitch_chunk_quiet in E6 as ->. by eapply Hstop. }
    apply stitch_chunk_quiet in E6 as ->.
    step H E7 u w4.
    2:{ injection H as <- <-.
        apply os_remove_stores in E7 as ((Hs & Hrs & Ht & Hts) & Hfs & _).
        exists [], 0%nat.
        split; [by apply run_from_refl|]. split; [done|]. split; [lia|].
        split; [intros x Hx; discriminate Hx|]. split; [done|]. split; [done|].
        split; [|apply list_subseteq_nil]. intros p Hp. apply Hfs. intros ->. apply Hp. by left. }
    destruct u.
    apply os_remove_stores in E7 as ((Hs & Hrs & Ht & Hts) & Hfs & Hgone).
    specialize (Hgone eq_refl).
    assert (w_status w4 !! task_id = Some (<["status" :=
              VStr ("transcribing chunk " +:+ Py.str_int (i + 1) +:+ "/"
                    +:+ Py.str_int n)]>
              (<["progress" := VFloat (10 + inject_Z i / inject_Z n * 60)%Q]> d)))
      as Hd4 by (by rewrite Hs).
    destruct (IH _ _ _ _ _ _ _ Hd4 H)
      as (delta & k & R & Hsp & Hk & HOk & Hrs' & Hts' & Hfs' & Hkeys).
    exists delta, k.
    split.
    { pose proof (run_from_trans task_id w2 w4 w' [] delta
                    (run_from_refl _ _ _ Ht Hs) R) as R'.
      by rewrite List.app_nil_r in R'. }
    split; [done|]. split; [done|].
    split.
    { intros x Hx. destruct (HOk x Hx) as [-> Hnone]. split; [done|].
      intros p Hp. destruct (decide (p ∈ rest)) as [Hin|Hnin]; [by apply Hnone|].
      rewrite (Hfs' p Hnin). apply elem_of_cons in Hp as [->|Hp]; [done|]. done. }
    split; [congruence|]. split; [congruence|]. split; [|done].
    intros p Hp. rewrite Hfs'.
    + apply Hfs. intros ->. apply Hp. by left.
    + intros Hin. apply Hp. by right.
Qed.

Lemma run_from_quiet task_id w w1 w2 delta :
  run_from task_id w w1 delta →
  w_trace w2 = w_trace w1 → w_status w2 = w_status w1 →
  run_from task_id w w2 delta.
Proof.
  intros R Ht Hs.
  exact (run_from_trans task_id w w1 w2 delta [] R (run_from_refl _ _ _ Ht Hs)).
Qed.

Lemma set_result_stores task_id res w r w' :
  set_result task_id res w = (r, w') →
  r = Ok tt ∧ w_status w' = w_status w ∧ w_trace w' = w_trace w ∧
  w_fs w' = w_fs w ∧ w_results w' = <[task_id := res]> (w_results w).
Proof. by intros [= <- <-]. Qed.

Lemma run_events_split (n : Z) (k : nat) :
  (k ≤ Z.to_nat n)%nat →
  run_events n
  = ([ ("status", VStr "splitting"); ("progress", VInt 5);
       ("status", VStr "transcribing"); ("progress", VInt 10) ]
     ++ loop_events n 0 k)
    ++ (loop_events n (Z.of_nat k) (Z.to_nat n - k)
        ++ [ ("status", VStr "processing"); ("progress", VInt 50);
             ("progress", VInt 75);
             ("status", VStr "completed"); ("progress", VInt 100) ]).
Proof.
  intros Hk. unfold run_events.
  replace (Z.to_nat n) with (k + (Z.to_nat n - k))%nat at 1 by lia.
  rewrite loop_events_app, Z.add_0_l. by rewrite <- !app_assoc.
Qed.

Ltac store_next H :=
  match type of H with
  | (set_status ?t ?key ?v ≫= ?k) ?w = _ =>
      match goal with
      | Hd : w_status w !! t = Some _, R : run_from t _ w _ |- _ =>
          let E := fresh in
          let w1 := fresh "w" in
          let R1 := fresh in
          let R' := fresh in
          let Hd1 := fresh "Hd" in
          let F1 := fresh "F" in
          destruct (set_status_step t key v k w _ Hd) as (w1 & E & R1 & Hd1 & F1 & _);
          rewrite E in H; clear E;
          pose proof (run_from_trans _ _ _ _ _ _ R R1) as R'; simpl in R';
          clear R R1 Hd; rename R' into R
      end
  end.

Ltac carry Hs Ht :=
  match type of Hs with
  | w_status ?w2 = w_status ?w1 =>
      match goal with
      | Hd : w_status w1 !! ?t = Some _, R : run_from ?t _ w1 _ |- _ =>
          apply (λ R0, run_from_quiet _ _ _ w2 _ R0 Ht Hs) in R;
          rewrite <- Hs in Hd; clear Hs Ht
      end
  end.

Ltac tick_next H :=
  match type of H with
  | (time_time ?env ≫= ?k) ?w = _ =>
      let Hs := fresh in
      let Ht := fresh in
      rewrite (bind_step (time_time env) k w _ _ eq_refl) in H;
      pose proof (eq_refl : w_status (tick w) = w_status w) as Hs;
      pose proof (eq_refl : w_trace (tick w) = w_trace w) as Ht;
      carry Hs Ht
  end.

Ltac events_eq Hsp Hlen :=
  simpl; rewrite sp_of_app, Hsp; unfold run_events; rewrite Hlen;
  simpl; rewrite <- ?app_assoc; simpl; reflexivity.

(** The stores of the [try] block of [transcribe_audio_openai], however it
    ends: the stores of status and progress are a prefix of those of a
    whole run with some number [n] of chunks, and all of them when the
    block completes. *)
Lemma transcribe_try_run env audio_file output_txt output_srt task_id w d r w' :
  w_status w !! task_id = Some d →
  transcribe_try env audio_file output_txt output_srt task_id w = (r, w') →
  ∃ delta n pre rest,
    run_from task_id w w' delta ∧ 0 < n ∧
    run_events n = pre ++ rest ∧ sp_of delta = pre ∧
    (∀ x, r = Ok x → rest = []) ∧
    ((length pre ≤ 2)%nat ∨
     ∃ w0 chunks w1,
       w_fs w0 = w_fs w ∧
       split_audio_if_needed env audio_file 24 w0 = (Ok chunks, w1) ∧
       n = len chunks).
Proof.
  intros Hd H. unfold transcribe_try in H.
  destruct (client env).
  2:{ rewrite (bind_raise (raise _) _ _ _ _ eq_refl) in H. injection H as <- <-.
      exists [], 1, [], (run_events 1).
      split; [by apply run_from_refl|]. split; [lia|]. split; [done|]. split; [done|].
      split; [intros x Hx; discriminate Hx|]. left. simpl. lia. }
  rewrite (bind_step (mret tt) _ _ _ _ eq_refl) in H.
  pose proof (run_from_refl task_id w w eq_refl eq_refl) as R.
  store_next H. store_next H. store_next H.
  match type of H with
  | (split_audio_if_needed _ _ _ ≫= _) ?wx = _ =>
      assert (w_fs wx = w_fs w) as Hfs0 by congruence
  end.
  step H Esplit chunks wA.
  2:{ injection H as <- <-.
      apply split_audio_if_needed_stores in Esplit as (Hs & _ & Ht & _).
      eexists _, 1, _, _.
      split; [exact (run_from_quiet _ _ _ _ _ R Ht Hs)|]. split; [lia|].
      split; [|split; [reflexivity|split; [intros x Hx; discriminate Hx|]]].
      - reflexivity.
      - left. simpl. lia. }
  pose proof (split_audio_if_needed_stores _ _ _ _ _ _ Esplit) as (Hs & _ & Ht & _).
  carry Hs Ht.
  store_next H.
  destruct chunks as [|first_chunk chunks'].
  { rewrite (bind_raise (list_first []) _ _ _ _ eq_refl) in H. injection H as <- <-.
    eexists _, 1, _, _.
    split; [exact R|]. split; [lia|].
    split; [|split; [reflexivity|split; [intros x Hx; discriminate Hx|]]].
    - reflexivity.
    - left. simpl. lia. }
  step H E fc wB; [|discriminate E]. injection E as <- <-.
  set (chunks := first_chunk :: chunks') in *.
  assert (0 < len chunks) as Hpos by (unfold len; simpl; lia).
  assert (len chunks ≠ 0) as Hn by (unfold len; simpl; lia).
  assert (Z.to_nat (len chunks) = length chunks) as Hlen by (unfold len; lia).
  step H E audio_duration wC.
  2:{ injection H as <- <-. apply get_audio_duration_quiet in E as ->.
      eexists _, 1, _, _.
      split; [exact R|]. split; [lia|].
      split; [|split; [reflexivity|split; [intros x Hx; discriminate Hx|]]].
      - reflexivity.
      - left. simpl. lia. }
  apply get_audio_duration_quiet in E as ->.
  store_next H. store_next H. store_next H. store_next H.
  tick_next H.
  step H E out wD.
  2:{ injection H as <- <-.
      match goal with
      | Hd' : w_status _ !! task_id = Some _ |- _ =>
          destruct (transcribe_chunks_run _ _ _ _ _ Hn _ _ _ _ _ _ _ Hd' E)
            as (dl & k & Rl & Hsp & Hk & _)
      end.
      eexists _, (len chunks), _, _.
      split; [exact (run_from_trans _ _ _ _ _ _ R Rl)|]. split; [exact Hpos|].
      split; [|split; [reflexivity|split; [intros x Hx; discriminate Hx|]]].
      - rewrite sp_of_app, Hsp. apply (run_events_split (len chunks) k).
        rewrite Hlen. exact Hk.
      - right. by eexists _, _, _. }
  match goal with
  | Hd' : w_status _ !! task_id = Some _ |- _ =>
      destruct (transcribe_chunks_run _ _ _ _ _ Hn _ _ _ _ _ _ _ Hd' E)
        as (dl & k & Rl & Hsp & _ & HOk & _);
      pose proof (run_from_present _ _ _ _ _ Rl Hd') as HdL; clear Hd'
  end.
  destruct (HOk _ eq_refl) as [-> _]. clear HOk.
  pose proof (run_from_trans _ _ _ _ _ _ R Rl) as R'. clear R Rl.
  destruct out as [all_segments full_text]. clear E.
  assert (∀ delta rest wz,
            run_from task_id w wz delta →
            run_events (len chunks) = sp_of delta ++ rest →
            ∀ e, ∃ delta n pre rest,
              run_from task_id w wz delta ∧ 0 < n ∧
              run_events n = pre ++ rest ∧ sp_of delta = pre ∧
              (∀ x : (), @Raise () e = Ok x → rest = []) ∧
              ((length pre ≤ 2)%nat ∨
               ∃ w0 chunks w1,
                 w_fs w0 = w_fs w ∧
                 split_audio_if_needed env audio_file 24 w0 = (Ok chunks, w1) ∧
                 n = len chunks)) as Hstop.
  { intros delta rest wz Rz Hev e. exists delta, (len chunks), (sp_of delta), rest.
    split; [done|]. split; [done|]. split; [done|]. split; [done|].
    split; [intros x Hx; discriminate Hx|]. right. by eexists _, _, _. }
  store_next H. store_next H. store_next H. store_next H.
  step H E u wE.
  2:{ injection H as <- <-. apply write_text_stores in E as ((Hs & _ & Ht & _) & _).
      carry Hs Ht. eapply Hstop; [eassumption|]. events_eq Hsp Hlen. }
  apply write_text_stores in E as ((Hs & _ & Ht & _) & _). carry Hs Ht. clear u.
  store_next H.
  step H E u wF.
  2:{ injection H as <- <-. apply write_text_stores in E as ((Hs & _ & Ht & _) & _).
      carry Hs Ht. eapply Hstop; [eassumption|]. events_eq Hsp Hlen. }
  apply write_text_stores in E as ((Hs & _ & Ht & _) & _). carry Hs Ht. clear u.
  store_next H. store_next H.
  match goal with
  | Hd' : w_status ?wx !! task_id = Some ?dx |- _ =>
      rewrite (bind_step (get_status task_id "episode_title" (VStr "Unknown")) _ wx
                 (from_option id (VStr "Unknown") (dx !! "episode_title")) wx) in H
        by (unfold get_status; by rewrite Hd')
  end.
  tick_next H.
  step H E u wG; [|by apply set_result_stores in E as [? _]].
  apply set_result_stores in E as (_ & Hs & Ht & _). carry Hs Ht. clear u.
  match type of H with
  | (os_path_exists ?p ≫= ?k) ?wx = _ =>
      rewrite (bind_step (os_path_exists p) k wx _ _ eq_refl) in H
  end.
  assert (∃ delta pre rest,
            run_from task_id w w' delta ∧
            run_events (len chunks) = pre ++ rest ∧ sp_of delta = pre ∧ rest = [])
    as (delta & pre & rest & HR & Hev & Hsp' & Hrest).
  { destruct (bool_decide _).
    - destruct (os_remove env audio_file _) as [r0 w0'] eqn:E.
      apply os_remove_stores in E as ((Hs & _ & Ht & _) & _).
      injection H as <- <-. carry Hs Ht.
      eexists _, _, [].
      split; [eassumption|].
      split; [|split; [reflexivity|done]]. events_eq Hsp Hlen.
    - injection H as <- <-.
      eexists _, _, [].
      split; [eassumption|].
      split; [|split; [reflexivity|done]]. events_eq Hsp Hlen. }
  exists delta, (len chunks), pre, rest.
  split; [done|]. split; [done|]. split; [done|]. split; [done|].
  split; [done|]. right. by eexists _, _, _.
Qed.



(** The value a key of the task's dictionary has after some stores is the
    one stored last, for the keys [status] and [progress]. *)
Lemma replay_lookup_last (key : string) delta (d : gmap string value) :
  key = "status" ∨ key = "progress" →
  replay delta d !! key
  = match last (values_of key (sp_of delta)) with
    | Some v => Some v
    | None => d !! key
    end.
Proof.
  intros Hkey. induction delta as [|[[t k] v] delta IH]; [done|].
  simpl. unfold replay in IH |- *. simpl. rewrite values_of_app.
  destruct (decide (k = key)) as [->|Hne].
  - rewrite lookup_insert_eq.
    destruct Hkey as [-> | ->]; simpl; unfold values_of; simpl;
      by rewrite last_snoc.
  - rewrite lookup_insert_ne by done. rewrite IH.
    destruct ((k =? "status")%string || (k =? "progress")%string); simpl.
    + unfold values_of at 2. simpl. destruct (decide (k = key)); [done|].
      simpl. by rewrite List.app_nil_r.
    + by rewrite List.app_nil_r.
Qed.

(** The stores of a run of [transcribe_audio_openai] for a task that is in
    the status store: the function returns, and the stores of status and
    progress are those of a whole run with some number [n] of chunks, or a
    part of them followed by the status [error]. *)
Lemma transcribe_audio_openai_run env audio_file output_txt output_srt task_id w d :
  w_status w !! task_id = Some d →
  ∃ w' delta n pre rest,
    transcribe_audio_openai env audio_file output_txt output_srt task_id w
    = (Ok tt, w') ∧
    run_from task_id w w' delta ∧ 0 < n ∧
    run_events n = pre ++ rest ∧
    ((sp_of delta = pre ∧ rest = []) ∨
     (sp_of delta = pre ++ [("status", VStr "error")] ∧
      ∃ e, replay delta d !! "error" = Some (VStr (str_exn e)))) ∧
    ((length pre ≤ 2)%nat ∨
     ∃ w0 chunks w1,
       w_fs w0 = w_fs w ∧
       split_audio_if_needed env audio_file 24 w0 = (Ok chunks, w1) ∧
       n = len chunks).
Proof.
  intros Hd. unfold transcribe_audio_openai, try_except.
  destruct (transcribe_try env audio_file output_txt output_srt task_id w)
    as [[[]|e] w1] eqn:E;
    destruct (transcribe_try_run _ _ _ _ _ _ _ _ _ Hd E)
      as (delta & n & pre & rest & R & Hn & Hev & Hsp & HOk & Hlink).
  - exists w1, delta, n, pre, rest. split; [done|]. split; [done|]. split; [done|].
    split; [done|]. split; [|done]. left. split; [done|]. by eapply HOk.
  - pose proof (run_from_present _ _ _ _ _ R Hd) as Hd1.
    destruct (set_status_step task_id "status" (VStr "error")
                (λ _, set_status task_id "error" (VStr (str_exn e))) w1 _ Hd1)
      as (w2 & E2 & R2 & Hd2 & _).
    destruct (set_status_run task_id "error" (VStr (str_exn e)) w2 _ Hd2)
      as (w3 & E3 & R3 & _).
    exists w3, ([(task_id, "error", VStr (str_exn e)); (task_id, "status", VStr "error")]
                ++ delta), n, pre, rest.
    split; [by rewrite E2|].
    split; [exact (run_from_trans _ _ _ _ _ _ R (run_from_trans _ _ _ _ _ _ R2 R3))|].
    split; [done|]. split; [done|]. split; [|done].
    right. split; [by rewrite sp_of_app, Hsp|].
    exists e. unfold replay. simpl. by rewrite lookup_insert_eq.
Qed.



Lemma values_of_status_run (n : Z) :
  last (values_of "status" (run_events n)) = Some (VStr "completed").
Proof.
  unfold run_events. rewrite !values_of_app, !last_app. reflexivity.
Qed.

(** How a run for a task in the status store ends. *)
Lemma transcribe_audio_openai_ends env audio_file output_txt output_srt task_id w d :
  w_status w !! task_id = Some d →
  ∃ w' delta,
    transcribe_audio_openai env audio_file output_txt output_srt task_id w
    = (Ok tt, w') ∧
    run_from task_id w w' delta ∧
    (status_of task_id w' = Some (VStr "completed") ∨
     (status_of task_id w' = Some (VStr "error") ∧
      ∃ e d', w_status w' !! task_id = Some d' ∧
              d' !! "error" = Some (VStr (str_exn e)))).
Proof.
  intros Hd.
  destruct (transcribe_audio_openai_run env audio_file output_txt output_srt
              task_id w d Hd)
    as (w' & delta & n & pre & rest & Hrun & R & Hn & Hev & Hcase & _).
  exists w', delta. split; [done|]. split; [done|].
  pose proof (run_from_present _ _ _ _ _ R Hd) as Hd'.
  unfold status_of. rewrite Hd'. simpl.
  rewrite (replay_lookup_last "status") by by left.
  destruct Hcase as [[Hsp ->]|[Hsp [e He]]].
  - left. rewrite List.app_nil_r in Hev. rewrite Hsp, <- Hev.
    by rewrite values_of_status_run.
  - right. split.
    + rewrite Hsp, values_of_app. unfold values_of at 2. simpl.
      by rewrite last_snoc.
    + by exists e, (replay delta d).
Qed.

(** X12: for a task that is in the status store [transcribe_audio_openai]
    always returns, and leaves the task with status completed, or with
    status error and the text of the exception under error; it changes the
    dictionary of no other task. For a task that is not in the store the
    handler itself fails: KeyError leaves the function and nothing has
    changed. *)
Theorem transcribe_audio_openai_outcome env audio_file output_txt output_srt task_id w :
  match w_status w !! task_id with
  | Some d =>
      ∃ w',
        transcribe_audio_openai env audio_file output_txt output_srt task_id w
        = (Ok tt, w') ∧
        (status_of task_id w' = Some (VStr "completed") ∨
         (status_of task_id w' = Some (VStr "error") ∧
          ∃ e d', w_status w' !! task_id = Some d' ∧
                  d' !! "error" = Some (VStr (str_exn e)))) ∧
        (∀ other, other ≠ task_id → w_status w' !! other = w_status w !! other)
  | None =>
      transcribe_audio_openai env audio_file output_txt output_srt task_id w
      = (Raise (KeyError task_id), w)
  end.
Proof.
  destruct (w_status w !! task_id) as [d|] eqn:Hd.
  - destruct (transcribe_audio_openai_ends env audio_file output_txt output_srt
                task_id w d Hd) as (w' & delta & Hrun & R & Hstatus).
    exists w'. split; [done|]. split; [done|]. by destruct R as (_ & _ & _ & Ho).
  - assert (∀ B key v (k : unit → M B),
              (set_status task_id key v ≫= k) w = (Raise (KeyError task_id), w))
      as Hset.
    { intros B key v k. apply bind_raise. unfold set_status. by rewrite Hd. }
    unfold transcribe_audio_openai, try_except, transcribe_try.
    destruct (client env).
    + rewrite (bind_step (mret tt) _ _ _ _ eq_refl). by rewrite !Hset.
    + rewrite (bind_raise (raise _) _ _ _ _ eq_refl). by rewrite Hset.
Qed.

Lemma chunk_fraction_le (n i : Z) :
  0 < n → i ≤ n → (inject_Z i / inject_Z n <= 1)%Q.
Proof.
  intros Hn Hi. apply Qle_shift_div_r; [by apply inject_Z_pos|].
  rewrite Zle_Qle in Hi. lra.
Qed.

Lemma loop_progress_below (n : Z) (c : nat) :
  0 < n → ∀ i, i + Z.of_nat c ≤ n →
  Forall (λ kv, kv.1 = "progress" → (progress_number kv.2 < 100)%Q)
         (loop_events n i c).
Proof.
  intros Hn. induction c as [|c IH]; intros i Hi; [constructor|].
  simpl. constructor; [|constructor; [done|apply IH; lia]].
  intros _. simpl. pose proof (chunk_fraction_le n i Hn ltac:(lia)). lra.
Qed.

(** In the stores of a whole run the only progress value of 100 or more
    is the last store, 100, which follows the status [completed]. *)
Lemma run_events_hundred (n : Z) before v tail :
  0 < n → run_events n = before ++ ("progress", v) :: tail →
  (100 <= progress_number v)%Q →
  v = VInt 100 ∧ last before = Some ("status", VStr "completed") ∧ tail = [].
Proof.
  intros Hn Hev Hv.
  set (A := [ ("status", VStr "splitting"); ("progress", VInt 5);
              ("status", VStr "transcribing"); ("progress", VInt 10) ]
            ++ loop_events n 0 (Z.to_nat n)
            ++ [ ("status", VStr "processing"); ("progress", VInt 50);
                 ("progress", VInt 75); ("status", VStr "completed") ]).
  assert (run_events n = A ++ [("progress", VInt 100)]) as HA.
  { unfold run_events, A. by rewrite <- !app_assoc. }
  assert (Forall (λ kv, kv.1 = "progress" → (progress_number kv.2 < 100)%Q) A) as Hbelow.
  { unfold A. apply Forall_app. split; [|apply Forall_app; split].
    - repeat constructor; simpl; intros; try done; by vm_compute.
    - apply loop_progress_below; [done|lia].
    - repeat constructor; simpl; intros; try done; by vm_compute. }
  assert (last A = Some ("status", VStr "completed")) as Hlast.
  { unfold A. by rewrite !last_app. }
  rewrite HA in Hev.
  destruct (decide (tail = [])) as [->|Hne].
  - apply app_inj_tail in Hev as [<- [= <-]]. done.
  - destruct (exists_last Hne) as (tail' & z & ->).
    change (before ++ ("progress", v) :: tail' ++ [z])
      with (before ++ (("progress", v) :: tail') ++ [z]) in Hev.
    rewrite app_assoc in Hev. apply app_inj_tail in Hev as [-> _].
    rewrite Forall_app in Hbelow. destruct Hbelow as [_ Hbelow].
    apply Forall_cons in Hbelow as [Hbelow _]. specialize (Hbelow eq_refl).
    simpl in Hbelow. lra.
Qed.

(** X13: whatever happens in a run of [transcribe_audio_openai], a
    progress of 100 (or more) is stored at most once, as the value 100
    directly after the status completed; nothing but the status [error]
    can be stored after it. *)
Theorem progress_hundred_follows_completed
    env audio_file output_txt output_srt task_id w d :
  w_status w !! task_id = Some d →
  ∃ w' delta,
    transcribe_audio_openai env audio_file output_txt output_srt task_id w
    = (Ok tt, w') ∧
    w_trace w' = delta ++ w_trace w ∧
    ∀ before v after,
      sp_of delta = before ++ ("progress", v) :: after →
      (100 <= progress_number v)%Q →
      v = VInt 100 ∧ last before = Some ("status", VStr "completed") ∧
      (after = [] ∨ after = [("status", VStr "error")]).
Proof.
  intros Hd.
  destruct (transcribe_audio_openai_run env audio_file output_txt output_srt
              task_id w d Hd)
    as (w' & delta & n & pre & rest & Hrun & R & Hn & Hev & Hcase & _).
  exists w', delta. split; [done|]. split; [by destruct R|].
  intros before v after Hsp Hv.
  destruct Hcase as [[Hpre ->]|[Hpre _]].
  - rewrite List.app_nil_r in Hev. rewrite Hpre, <- Hev in Hsp.
    destruct (run_events_hundred n before v after Hn Hsp Hv) as (-> & Hlast & ->).
    by split; [|split; [|left]].
  - rewrite Hpre in Hsp.
    destruct (decide (after = [])) as [->|Hne].
    { by apply app_inj_tail in Hsp as [_ [=]]. }
    destruct (exists_last Hne) as (after' & z & ->).
    change (before ++ ("progress", v) :: after' ++ [z])
      with (before ++ (("progress", v) :: after') ++ [z]) in Hsp.
    rewrite app_assoc in Hsp. apply app_inj_tail in Hsp as [-> <-].
    rewrite <- app_assoc in Hev. simpl in Hev.
    destruct (run_events_hundred n before v (after' ++ rest) Hn Hev Hv)
      as (-> & Hlast & Hnil).
    apply app_eq_nil in Hnil as [-> _].
    by split; [|split; [|right]].
Qed.

Lemma progress_hundred_follows_completed_witness :
  ∃ w' delta,
    transcribe_audio_openai Scenario3.env "ep.mp3" "ep.txt" "ep.srt" "t"
      (Scenario.world_with Scenario.asset_10mb) = (Ok tt, w') ∧
    w_trace w' = delta ++ w_trace (Scenario.world_with Scenario.asset_10mb).
Proof.
  destruct (progress_hundred_follows_completed Scenario3.env "ep.mp3" "ep.txt"
              "ep.srt" "t" (Scenario.world_with Scenario.asset_10mb) ∅ eq_refl)
    as (w' & delta & Hrun & Htrace & _).
  exists w', delta. split; [exact Hrun|exact Htrace].
Defined.

Lemma values_of_progress_loop (n : Z) (c : nat) (i : Z) :
  progress_number <$> values_of "progress" (loop_events n i c)
  = (λ j, 10 + inject_Z j / inject_Z n * 60)%Q <$> seqZ i (Z.of_nat c).
Proof.
  revert i. induction c as [|c IH]; intros i; [done|].
  rewrite seqZ_cons by lia. simpl.
  replace (Z.pred (Z.of_nat (S c))) with (Z.of_nat c) by lia.
  change (values_of "progress" (chunk_events n i ++ loop_events n (i + 1) c))
    with (VFloat (10 + inject_Z i / inject_Z n * 60)%Q
          :: values_of "progress" (loop_events n (i + 1) c)).
  simpl. f_equal. apply IH.
Qed.

Lemma values_of_progress_run (n : Z) :
  0 ≤ n →
  progress_number <$> values_of "progress" (run_events n)
  = [5; 10]%Q
    ++ ((λ j, 10 + inject_Z j / inject_Z n * 60)%Q <$> seqZ 0 n)
    ++ [50; 75; 100]%Q.
Proof.
  intros Hn. unfold run_events. rewrite !values_of_app, !fmap_app.
  rewrite values_of_progress_loop, Z2Nat.id by done. reflexivity.
Qed.

(** The progress values of a whole run with [n] chunks never decrease
    exactly when there are at most three chunks: the value stored for the
    last chunk is [10 + (n-1)/n*60], and the next one is 50. *)
Lemma run_progress_sorted_iff (n : Z) :
  0 < n →
  non_decreasing (progress_number <$> values_of "progress" (run_events n)) ↔ n ≤ 3.
Proof.
  intros Hn. rewrite values_of_progress_run by lia. split.
  - intros Hs. apply non_decreasing_app in Hs as (_ & Hs & _).
    apply non_decreasing_app in Hs as (_ & _ & Hs).
    specialize (Hs (10 + inject_Z (n - 1) / inject_Z n * 60)%Q 50%Q).
    assert (10 + inject_Z (n - 1) / inject_Z n * 60 <= 50)%Q as Hle.
    { apply Hs; [|by left].
      apply list_elem_of_fmap. exists (n - 1). split; [done|].
      apply elem_of_seqZ. lia. }
    pose proof (inject_Z_pos n Hn) as Hpos.
    assert (inject_Z (n - 1) / inject_Z n * inject_Z n == inject_Z (n - 1))%Q as Hq.
    { field. lra. }
    assert (inject_Z (n - 1) / inject_Z n * inject_Z n <= (2 # 3) * inject_Z n)%Q as Hm.
    { apply Qmult_le_compat_r; lra. }
    rewrite Hq, inject_Z_sub in Hm. change (inject_Z 1) with 1%Q in Hm.
    assert (inject_Z n <= inject_Z 3)%Q as H3 by (change (inject_Z 3) with 3%Q; lra).
    by rewrite <- Zle_Qle in H3.
  - intros H3.
    assert (n = 1 ∨ n = 2 ∨ n = 3) as [-> | [-> | ->]] by lia;
      simpl; repeat (split || constructor); by vm_compute.
Qed.

Lemma run_events_length (n : Z) : (9 ≤ length (run_events n))%nat.
Proof. unfold run_events. rewrite !length_app. simpl. lia. Qed.

(** X14: the progress values stored by a run that ends with status
    completed never decrease exactly when the splitter returned at most
    three chunks: with four or more the value stored for the last chunk,
    [10 + (n-1)/n*60], is above the 50 stored next with status
    [processing]. *)
Theorem progress_sorted_iff_three_chunks
    env audio_file output_txt output_srt task_id w d :
  w_status w !! task_id = Some d →
  ∃ w' values,
    transcribe_audio_openai env audio_file output_txt output_srt task_id w
    = (Ok tt, w') ∧
    history task_id "progress" w' = history task_id "progress" w ++ values ∧
    (status_of task_id w' = Some (VStr "completed") →
     ∃ w0 chunks w1,
       w_fs w0 = w_fs w ∧
       split_audio_if_needed env audio_file 24 w0 = (Ok chunks, w1) ∧
       (non_decreasing (progress_number <$> values) ↔ len chunks ≤ 3)).
Proof.
  intros Hd.
  destruct (transcribe_audio_openai_run env audio_file output_txt output_srt
              task_id w d Hd)
    as (w' & delta & n & pre & rest & Hrun & R & Hn & Hev & Hcase & Hlink).
  exists w', (stored task_id "progress" delta). split; [done|].
  split; [apply history_run_from; by destruct R|].
  intros Hstatus.
  unfold status_of in Hstatus. rewrite (run_from_present _ _ _ _ _ R Hd) in Hstatus.
  simpl in Hstatus. rewrite (replay_lookup_last "status") in Hstatus by by left.
  destruct Hcase as [[Hsp ->]|[Hsp _]].
  - rewrite List.app_nil_r in Hev. subst pre.
    destruct Hlink as [Hshort|(w0 & chunks & w1 & Hfs & Hsplit & ->)].
    { pose proof (run_events_length n). lia. }
    exists w0, chunks, w1. split; [done|]. split; [done|].
    rewrite stored_values_of, Hsp; [|by right|by destruct R as (_ & HF & _)].
    by apply run_progress_sorted_iff.
  - rewrite Hsp, values_of_app in Hstatus. unfold values_of at 2 in Hstatus.
    simpl in Hstatus. by rewrite last_snoc in Hstatus.
Qed.

Lemma progress_sorted_iff_three_chunks_witness :
  ∃ w' values,
    transcribe_audio_openai Scenario3.env "ep.mp3" "ep.txt" "ep.srt" "t"
      (Scenario.world_with Scenario.asset_10mb) = (Ok tt, w') ∧
    history "t" "progress" w'
    = history "t" "progress" (Scenario.world_with Scenario.asset_10mb) ++ values.
Proof.
  destruct (progress_sorted_iff_three_chunks Scenario3.env "ep.mp3" "ep.txt"
              "ep.srt" "t" (Scenario.world_with Scenario.asset_10mb) ∅ eq_refl)
    as (w' & values & Hrun & Hhist & _).
  exists w', values. split; [exact Hrun|exact Hhist].
Defined.

(** ** The files a completed run leaves *)

Lemma set_status_Ok task_id key v w u w1 :
  set_status task_id key v w = (Ok u, w1) →
  w_fs w1 = w_fs w ∧ w_results w1 = w_results w ∧
  ∃ d, w_status w !! task_id = Some d ∧
       w_status w1 !! task_id = Some (<[key := v]> d).
Proof.
  unfold set_status. destruct (w_status w !! task_id) as [d|] eqn:Hd; [|done].
  intros [= _ <-]. simpl. split; [done|]. split; [done|].
  exists d. split; [done|]. by rewrite lookup_insert_eq.
Qed.

(** What the splitter hands to the chunk loop: the file itself, untouched,
    or chunks none of which is the file, which is gone. *)
Lemma split_result_shape env audio_file max_size_mb w chunks w1 :
  split_audio_if_needed env audio_file max_size_mb w = (Ok chunks, w1) →
  same_stores w w1 ∧
  ((chunks = [audio_file] ∧ w_fs w1 !! audio_file = w_fs w !! audio_file)
   ∨ ((audio_file ∉ chunks) ∧ w_fs w1 !! audio_file = None)).
Proof.
  intros H. split; [by eapply split_audio_if_needed_stores|]. revert H.
  unfold split_audio_if_needed, mbind, M_bind, os_path_getsize.
  destruct (w_fs w !! audio_file) as [f|] eqn:Hf; [|done].
  destruct (Py.le _ _); [intros [= <- <-]; by left|].
  unfold float_div. destruct (Qeq_bool max_size_mb 0); [done|].
  unfold mret, M_ret, try_except.
  pose proof (split_audio_try_outcome env audio_file
                (Py.int (inject_Z (file_size f) / MB / max_size_mb + 1)%Q) w) as H.
  destruct (split_audio_try _ _ _ w) as [[l|e] w2]; simpl in H;
    destruct H as [_ H]; intros [= <- <-].
  - right. destruct H as (size & audio & _ & _ & -> & Hgone & _).
    split; [|done]. intros Hin. apply list_elem_of_fmap in Hin as (i & Heq & _).
    symmetry in Heq. by apply chunk_name_ne in Heq.
  - left. split; [done|]. by rewrite Hf in H.
Qed.

Lemma set_status_entry task_id key v w u w1 :
  set_status task_id key v w = (Ok u, w1) → key ∈ run_keys →
  ∀ other, other ∉ run_keys → entry_of task_id other w1 = entry_of task_id other w.
Proof.
  intros H Hkey other Hother. apply set_status_Ok in H as (_ & _ & d & Hd & Hd1).
  unfold entry_of. rewrite Hd, Hd1. simpl. rewrite lookup_insert_ne; [done|].
  by intros ->.
Qed.

Lemma entry_of_same task_id w w1 :
  w_status w1 = w_status w →
  ∀ other, other ∉ run_keys → entry_of task_id other w1 = entry_of task_id other w.
Proof. unfold entry_of. by intros ->. Qed.

Ltac bind_inv H a w1 E := apply bind_Ok in H as (a & w1 & E & H).

Ltac inv_set H w1 Hf Hr Ht :=
  let u := fresh "u" in
  let E := fresh "E" in
  apply bind_Ok in H as (u & w1 & E & H);
  pose proof (set_status_entry _ _ _ _ _ _ E ltac:(by repeat constructor)) as Ht;
  apply set_status_Ok in E as (Hf & Hr & _); clear u.

(** What a [try] block that completes leaves behind. *)
Lemma transcribe_try_Ok env audio_file output_txt output_srt task_id w w' :
  output_txt ≠ output_srt → output_txt ≠ audio_file → output_srt ≠ audio_file →
  transcribe_try env audio_file output_txt output_srt task_id w = (Ok tt, w') →
  ∃ chunks cts audio_duration result seconds,
    Forall2 (λ _ ct, ∃ f, transcriptions_create env f = inr ct) chunks cts ∧
    let text := Py.strip (foldl (λ t ct, t +:+ (ct_text ct +:+ " ")) "" cts) in
    w_fs w' !! output_txt = Some (TextFile text) ∧
    w_fs w' !! output_srt
    = Some (TextFile (srt_content text (stitched audio_duration (len chunks) 0 cts))) ∧
    w_fs w' !! audio_file = None ∧
    (∀ p, p ∈ chunks → p ≠ output_txt → p ≠ output_srt → w_fs w' !! p = None) ∧
    w_results w' = <[task_id := result]> (w_results w) ∧
    result !! "txt_file" = Some (VStr output_txt) ∧
    result !! "srt_file" = Some (VStr output_srt) ∧
    result !! "episode_title"
    = Some (default (VStr "Unknown") (entry_of task_id "episode_title" w)) ∧
    result !! "transcription_time" = Some (VFloat seconds) ∧
    (∀ key, key ∉ run_keys → entry_of task_id key w' = entry_of task_id key w) ∧
    ∃ w0 w1 w2 first_chunk duration,
      w_fs w0 = w_fs w ∧
      split_audio_if_needed env audio_file 24 w0 = (Ok chunks, w1) ∧
      w_fs w2 = w_fs w1 ∧ head chunks = Some first_chunk ∧
      get_audio_duration env first_chunk w2 = (Ok duration, w2) ∧
      audio_duration
      = (if 1 <? len chunks then (duration * inject_Z (len chunks))%Q else duration).
Proof.
  intros Hts Hta Hsa H. unfold transcribe_try in H.
  bind_inv H u0 w0 E0.
  assert (w0 = w) as ->.
  { destruct (client env); [by injection E0 as _ <-|done]. }
  clear u0 E0.
  inv_set H w1 F1 R1 T1. inv_set H w2 F2 R2 T2. inv_set H w3 F3 R3 T3.
  bind_inv H chunks w4 Esplit.
  pose proof (split_result_shape _ _ _ _ _ _ Esplit) as [(S4 & R4 & _) Hshape].
  pose proof (entry_of_same task_id _ _ S4) as T4.
  inv_set H w5 F5 R5 T5.
  bind_inv H first_chunk w6 Efirst.
  assert (w6 = w5 ∧ chunks ≠ [] ∧ head chunks = Some first_chunk)
    as (-> & Hne & Hhead).
  { destruct chunks; [done|]. by injection Efirst as <- <-. }
  clear Efirst.
  bind_inv H duration w7 Edur.
  pose proof (get_audio_duration_quiet _ _ _ _ _ Edur) as ->.
  inv_set H w8 F8 R8 T8. inv_set H w9 F9 R9 T9. inv_set H w10 F10 R10 T10.
  apply bind_Ok in H as (u & w11 & E11 & H).
  pose proof (set_status_entry _ _ _ _ _ _ E11 ltac:(by repeat constructor)) as T11.
  apply set_status_Ok in E11 as (F11 & R11 & d11 & _ & Hd11). clear u.
  bind_inv H upload_start w12 E12. injection E12 as _ <-.
  bind_inv H out w13 Eloop. destruct out as [all_segments full_text].
  assert (len chunks ≠ 0) as Hn.
  { unfold len. destruct chunks; [done|]. simpl. lia. }
  destruct (transcribe_chunks_run _ _ _ _ _ Hn _ _ _ (tick w11) _ _ _ Hd11 Eloop)
    as (dl & k & Rl & _ & _ & HOk & R13 & _ & F13 & Hkeys).
  destruct (HOk _ eq_refl) as [_ Hgone]. clear HOk.
  unfold tick in F13, R13. simpl in F13, R13.
  assert (∀ key, key ∉ run_keys →
            entry_of task_id key w13 = entry_of task_id key w11) as T13.
  { intros key Hkey. unfold entry_of. rewrite (run_from_present _ _ _ _ _ Rl Hd11).
    rewrite Hd11. simpl. apply replay_other_key. intros Hin. apply Hkey.
    apply Hkeys in Hin.
    repeat (apply elem_of_cons in Hin as [->|Hin]; [by repeat constructor|]).
    by apply elem_of_nil in Hin. }
  destruct (transcribe_chunks_Ok _ _ _ _ _ _ _ _ _ _ _ _ Eloop)
    as (cts & Hcts & -> & ->).
  clear Eloop Rl.
  inv_set H w14 F14 R14 T14. inv_set H w15 F15 R15 T15.
  inv_set H w16 F16 R16 T16. inv_set H w17 F17 R17 T17.
  bind_inv H u w18 Etxt. destruct u.
  apply write_text_stores in Etxt as ((S18 & R18 & _) & F18 & Htxt).
  pose proof (entry_of_same task_id _ _ S18) as T18.
  specialize (Htxt eq_refl).
  inv_set H w19 F19 R19 T19.
  bind_inv H u w20 Esrt. destruct u.
  apply write_text_stores in Esrt as ((S20 & R20 & _) & F20 & Hsrt).
  pose proof (entry_of_same task_id _ _ S20) as T20.
  specialize (Hsrt eq_refl).
  inv_set H w21 F21 R21 T21. inv_set H w22 F22 R22 T22.
  bind_inv H episode_title w23 Eget.
  assert (w23 = w22 ∧
          episode_title
          = default (VStr "Unknown") (entry_of task_id "episode_title" w22))
    as [-> ->].
  { unfold get_status in Eget. unfold entry_of.
    destruct (w_status w22 !! task_id) as [d22|]; [|done].
    injection Eget as <- <-. split; [done|]. simpl. by destruct (d22 !! _). }
  clear Eget.
  bind_inv H now w24 Enow. injection Enow as <- <-.
  bind_inv H u w25 Eres. apply set_result_stores in Eres as (_ & S25 & _ & F25 & R25).
  pose proof (entry_of_same task_id _ _ S25) as T25.
  clear u. unfold tick in F25, R25. simpl in F25, R25.
  change (∀ key, key ∉ run_keys →
            entry_of task_id key w25 = entry_of task_id key w22) in T25.
  bind_inv H still_there w26 Eex. injection Eex as <- <-.
  assert (w_fs w13 !! audio_file = None) as Haudio.
  { destruct Hshape as [[-> _]|[Hnin Hnone]].
    - apply Hgone. by left.
    - rewrite (F13 _ Hnin), F11, F10, F9, F8, F5. exact Hnone. }
  assert (w_fs w25 !! audio_file = None) as Haudio'.
  { rewrite F25, F22, F21, F20, F19, F18, F17, F16, F15, F14; done. }
  rewrite bool_decide_eq_false_2 in H by (rewrite Haudio'; by intros [? ?]).
  injection H as <-.
  assert (∀ key, key ∉ run_keys →
            entry_of task_id key w22 = entry_of task_id key w) as Hentry.
  { intros key Hkey.
    rewrite T22, T21, T20, T19, T18, T17, T16, T15, T14, T13 by done.
    rewrite T11, T10, T9, T8, T5, T4, T3, T2, T1 by done. done. }
  assert ("episode_title" ∉ run_keys) as Htitle.
  { intros Hin. repeat (apply elem_of_cons in Hin as [?|Hin]; [done|]).
    by apply elem_of_nil in Hin. }
  eexists chunks, cts, _, _, _. split; [exact Hcts|]. simpl.
  split. { rewrite F25, F22, F21, F20, F19 by done. exact Htxt. }
  split. { rewrite F25, F22, F21. rewrite List.app_nil_l in Hsrt. exact Hsrt. }
  split; [exact Haudio'|].
  split.
  { intros p Hp Hpt Hps.
    rewrite F25, F22, F21, F20, F19, F18, F17, F16, F15, F14 by done.
    by apply Hgone. }
  split.
  { rewrite R25, R22, R21, R20, R19, R18, R17, R16, R15, R14, R13.
    rewrite R11, R10, R9, R8, R5, R4, R3, R2, R1. reflexivity. }
  split; [done|]. split; [by rewrite lookup_insert_ne, lookup_insert_eq|].
  split. { rewrite <- (Hentry _ Htitle). by repeat (rewrite lookup_insert_ne by done). }
  split; [by repeat (rewrite lookup_insert_ne by done)|].
  split; [intros key Hkey; rewrite T25 by done; by apply Hentry|].
  exists w3, w4, w5, first_chunk, duration.
  split; [by rewrite F3, F2, F1|]. by repeat (split; [done|]).
Qed.

(** A run that leaves the status [completed] is one whose [try] block
    completed. *)
Lemma completed_try_block env audio_file output_txt output_srt task_id w d w' :
  w_status w !! task_id = Some d →
  transcribe_audio_openai env audio_file output_txt output_srt task_id w
  = (Ok tt, w') →
  status_of task_id w' = Some (VStr "completed") →
  transcribe_try env audio_file output_txt output_srt task_id w = (Ok tt, w').
Proof.
  intros Hd Hrun Hstatus. unfold transcribe_audio_openai, try_except in Hrun.
  destruct (transcribe_try env audio_file output_txt output_srt task_id w)
    as [[[]|e] w1] eqn:E; [done|].
  destruct (transcribe_try_run _ _ _ _ _ _ _ _ _ Hd E) as (delta & _ & _ & _ & R & _).
  pose proof (run_from_present _ _ _ _ _ R Hd) as Hd1.
  destruct (set_status_step task_id "status" (VStr "error")
              (λ _, set_status task_id "error" (VStr (str_exn e))) w1 _ Hd1)
    as (w2 & E2 & _ & Hd2 & _).
  rewrite E2 in Hrun.
  apply set_status_Ok in Hrun as (_ & _ & d2 & Hd2' & Hd3).
  unfold status_of in Hstatus. rewrite Hd3 in Hstatus. simpl in Hstatus.
  rewrite Hd2 in Hd2'. injection Hd2' as <-.
  by rewrite lookup_insert_ne, lookup_insert_eq in Hstatus.
Qed.



(** A chunk that was written before the split failed is in no list and
    stays: when the second chunk cannot be exported, the whole file is
    transcribed, the run ends with the status completed, and the first
    chunk file is still there. *)
Example failed_split_leaves_chunk :
  let w := Scenario.world_with asset_25mb in
  let run := transcribe_audio_openai first_export_only "ep.mp3" "ep.txt" "ep.srt"
               "t" w in
  (split_audio_if_needed first_export_only "ep.mp3" 24 w).1 = Ok ["ep.mp3"] ∧
  run.1 = Ok tt ∧
  status_of "t" run.2 = Some (VStr "completed") ∧
  w_fs run.2 !! "ep.mp3" = None ∧
  w_fs run.2 !! "ep_chunk_1.mp3"
  = Some (AudioFile 12000000 (Some {| a_start := 0; a_end := 750000 |})).
Proof. vm_compute. done. Qed.

(** ** The background thread *)

Lemma sp_of_download_keys (delta : list (string * string * value)) :
  (∀ k, k ∈ keys_of delta → k ∈ download_keys) → sp_of delta = [].
Proof.
  induction delta as [|[[t k] v] delta IH]; intros Hkeys; [done|].
  simpl. rewrite IH.
  - assert (k ∈ download_keys) as Hk by (apply Hkeys; by left).
    repeat (apply elem_of_cons in Hk as [->|Hk]; [done|]).
    by apply elem_of_nil in Hk.
  - intros k' Hk'. apply Hkeys. by right.
Qed.

(** What a download stores, however it ends: nothing under [status] or
    [progress]. *)
Lemma download_audio_run env url filename task_id w d :
  w_status w !! task_id = Some d →
  ∃ r w1 delta,
    download_audio env url filename task_id w = (r, w1) ∧
    run_from task_id w w1 delta ∧ sp_of delta = [] ∧
    w_results w1 = w_results w ∧
    (∀ p, p ≠ filename → w_fs w1 !! p = w_fs w !! p).
Proof.
  intros Hd. unfold download_audio.
  destruct (requests_get env url) as [e|response] eqn:Hget.
  { eexists _, w, []. split; [by apply bind_raise|].
    split; [by apply run_from_refl|done]. }
  rewrite (bind_step _ _ w response w) by done.
  destruct (r_status_ok response).
  2:{ eexists _, w, []. split; [by apply bind_raise|].
      split; [by apply run_from_refl|done]. }
  rewrite (bind_step (mret tt) _ w tt w eq_refl).
  rewrite (bind_step (time_time env) _ w _ (tick w) eq_refl).
  destruct (write_denied env filename).
  { eexists _, (tick w), []. split; [by apply bind_raise|].
    split; [by apply run_from_refl|done]. }
  set (w1 := set_fs (<[filename := AudioFile 0 None]> (w_fs (tick w))) (tick w)).
  rewrite (bind_step (put_file filename (AudioFile 0 None)) _ (tick w) tt w1 eq_refl).
  destruct (download_blocks_run env filename task_id
              (default 0 (r_content_length response)) (clock env (w_ticks w))
              (r_blocks response) 0 w1 d Hd)
    as (w2 & delta & Hloop & Hrun & Hkeys & _ & Hfs & Hres).
  rewrite (bind_step _ _ _ _ _ Hloop).
  unfold mbind, M_bind, put_file, mret, M_ret.
  eexists _, _, delta. split; [done|].
  split.
  { destruct Hrun as (Ht & Hall & Hp & Ho). split; [done|]. by split. }
  split; [by apply sp_of_download_keys|]. split; [done|].
  intros p Hp. simpl. rewrite lookup_insert_ne by done. rewrite Hfs by done.
  unfold w1. simpl. by rewrite lookup_insert_ne.
Qed.

(** What the thread of a task in the status store does. *)
Lemma transcribe_thread_run env th w d :
  w_status w !! th_task_id th = Some d →
  ∃ w' delta,
    transcribe_thread env th w = (Ok tt, w') ∧
    run_from (th_task_id th) w w' delta ∧
    head (sp_of delta) = Some ("status", VStr "downloading") ∧
    (status_of (th_task_id th) w' = Some (VStr "completed") ∨
     (status_of (th_task_id th) w' = Some (VStr "error") ∧
      ∃ e d', w_status w' !! th_task_id th = Some d' ∧
              d' !! "error" = Some (VStr (str_exn e)))).
Proof.
  intros Hd. unfold transcribe_thread, try_except.
  destruct (set_status_step (th_task_id th) "status" (VStr "downloading")
              (λ _, download_audio env (ep_audio_url (th_episode th))
                      (th_audio_filename th) (th_task_id th);;
                    transcribe_audio_openai env (th_audio_filename th)
                      (th_txt_filename th) (th_srt_filename th) (th_task_id th))
              w d Hd) as (w1 & E1 & R1 & Hd1 & _).
  rewrite E1. clear E1.
  destruct (download_audio_run env (ep_audio_url (th_episode th))
              (th_audio_filename th) (th_task_id th) w1 _ Hd1)
    as (r & w2 & delta2 & E2 & R2 & Hsp2 & _).
  pose proof (run_from_present _ _ _ _ _ R2 Hd1) as Hd2.
  destruct r as [name|e].
  - rewrite (bind_step _ _ _ _ _ E2).
    destruct (transcribe_audio_openai_ends env (th_audio_filename th)
                (th_txt_filename th) (th_srt_filename th) (th_task_id th) w2 _ Hd2)
      as (w3 & delta3 & E3 & R3 & Hstatus).
    rewrite E3.
    pose proof (run_from_trans _ _ _ _ _ _ (run_from_trans _ _ _ _ _ _ R1 R2) R3) as R.
    eexists w3, _. split; [done|]. split; [exact R|].
    split; [by rewrite !sp_of_app, Hsp2|]. done.
  - rewrite (bind_raise _ _ _ _ _ E2).
    destruct (set_status_step (th_task_id th) "status" (VStr "error")
                (λ _, set_status (th_task_id th) "error" (VStr (str_exn e)))
                w2 _ Hd2) as (w3 & E3 & R3 & Hd3 & _).
    destruct (set_status_run (th_task_id th) "error" (VStr (str_exn e)) w3 _ Hd3)
      as (w4 & E4 & R4 & _).
    pose proof (run_from_present _ _ _ _ _ R4 Hd3) as Hd4.
    pose proof (run_from_trans _ _ _ _ _ _
                  (run_from_trans _ _ _ _ _ _ (run_from_trans _ _ _ _ _ _ R1 R2) R3)
                  R4) as R.
    eexists w4, _. split; [by rewrite E3|]. split; [exact R|].
    split; [by rewrite !sp_of_app, Hsp2|].
    right. unfold status_of. rewrite Hd4. unfold replay. simpl. split.
    + by rewrite lookup_insert_ne, lookup_insert_eq.
    + eexists e, _. split; [done|]. by rewrite lookup_insert_eq.
Qed.

(** X16: the thread of a task that is in the status store never raises:
    it first stores the status downloading, and ends with the status
    completed, or with the status error and the text of the exception
    under error, also when the download fails; it changes the dictionary
    of no other task. *)
Theorem transcribe_thread_outcome env th w d :
  w_status w !! th_task_id th = Some d →
  ∃ w' delta,
    transcribe_thread env th w = (Ok tt, w') ∧
    w_trace w' = delta ++ w_trace w ∧
    head (sp_of delta) = Some ("status", VStr "downloading") ∧
    (status_of (th_task_id th) w' = Some (VStr "completed") ∨
     (status_of (th_task_id th) w' = Some (VStr "error") ∧
      ∃ e d', w_status w' !! th_task_id th = Some d' ∧
              d' !! "error" = Some (VStr (str_exn e)))) ∧
    (∀ other, other ≠ th_task_id th → w_status w' !! other = w_status w !! other).
Proof.
  intros Hd.
  destruct (transcribe_thread_run env th w d Hd)
    as (w' & delta & Hrun & R & Hhead & Hstatus).
  exists w', delta. split; [done|]. split; [by destruct R|].
  split; [done|]. split; [done|]. by destruct R as (_ & _ & _ & Ho).
Qed.

Lemma transcribe_thread_outcome_witness :
  ∃ w' delta,
    transcribe_thread Scenario3.env
      {| th_episode := {| ep_index := 0; ep_title := "Episode 1";
                          ep_published := "Unknown date";
                          ep_audio_url := "http://pod.example/ep.mp3";
                          ep_description := "First" |};
         th_task_id := "t"; th_audio_filename := "ep.mp3";
         th_txt_filename := "ep.txt"; th_srt_filename := "ep.srt" |}
      (Scenario.world_with Scenario.asset_10mb) = (Ok tt, w') ∧
    w_trace w' = delta ++ w_trace (Scenario.world_with Scenario.asset_10mb) ∧
    head (sp_of delta) = Some ("status", VStr "downloading").
Proof.
  destruct (transcribe_thread_outcome Scenario3.env
              {| th_episode := {| ep_index := 0; ep_title := "Episode 1";
                                  ep_published := "Unknown date";
                                  ep_audio_url := "http://pod.example/ep.mp3";
                                  ep_description := "First" |};
                 th_task_id := "t"; th_audio_filename := "ep.mp3";
                 th_txt_filename := "ep.txt"; th_srt_filename := "ep.srt" |}
              (Scenario.world_with Scenario.asset_10mb) ∅ eq_refl)
    as (w' & delta & Hrun & Htrace & Hhead & _).
  exists w', delta. split; [exact Hrun|]. split; [exact Htrace|exact Hhead].
Defined.

(** ** A task from its submission to the end of its thread *)

(** X17: a submission that is accepted gives the answer with the new task
    id once its thread has ended, never an exception; the statuses stored
    for the task begin with starting and downloading, the task ends with
    the status completed or error, and no other task is changed. *)
Theorem run_task_ends env request w episodes i :
  get_episodes_from_rss env (form_rss_url request) = (Some episodes, None) →
  form_episode_index request = Some i →
  - len episodes ≤ i < len episodes →
  let task_id := uuid4 env (w_ticks w) in
  ∃ w' later,
    run_task env request w = (Ok (JsonTask task_id), w') ∧
    history task_id "status" w'
    = history task_id "status" w ++ [VStr "starting"; VStr "downloading"] ++ later ∧
    (status_of task_id w' = Some (VStr "completed") ∨
     status_of task_id w' = Some (VStr "error")) ∧
    (∀ other, other ≠ task_id → w_status w' !! other = w_status w !! other).
Proof.
  intros Hfeed Hindex Hrange task_id.
  destruct (start_transcription_started env request w episodes i Hfeed Hindex Hrange)
    as (ep & th & w1 & d & _ & Hstart & _ & Hid & _ & _ & _ & Hd & _ & _ & _
        & Hother & _ & _ & Hhist).
  fold task_id in Hstart, Hid, Hd, Hother, Hhist.
  rewrite <- Hid in Hd.
  destruct (transcribe_thread_run env th w1 d Hd)
    as (w2 & delta & Hrun & R & Hhead & Hstatus).
  rewrite Hid in R, Hstatus.
  unfold run_task. rewrite (bind_step _ _ _ _ _ Hstart).
  rewrite (bind_step _ _ _ _ _ Hrun).
  destruct (sp_of delta) as [|first_store stores] eqn:Hsp; [done|].
  injection Hhead as ->.
  exists w2, (values_of "status" stores). split; [done|].
  split.
  { rewrite (history_run_from task_id "status" w1 w2 delta) by by destruct R.
    rewrite Hhist, <- app_assoc. f_equal.
    rewrite stored_values_of, Hsp; [done|by left|by destruct R as (_ & HF & _)]. }
  split; [destruct Hstatus as [?|[? _]]; [by left|by right]|].
  intros other Hne. destruct R as (_ & _ & _ & Ho). rewrite Ho by done.
  by apply Hother.
Qed.

Lemma run_task_ends_witness :
  ∃ w' later,
    run_task Scenario3.env Scenario.submit empty_world = (Ok (JsonTask "t"), w') ∧
    history "t" "status" w'
    = history "t" "status" empty_world ++ [VStr "starting"; VStr "downloading"] ++ later.
Proof.
  destruct (run_task_ends Scenario3.env Scenario.submit empty_world _ 0
              eq_refl eq_refl)
    as (w' & later & Hrun & Hhist & _).
  { by vm_compute. }
  exists w', later. split; [exact Hrun|exact Hhist].
Defined.

(** ** The routes that read the stores *)

Lemma run_key_absent (key : string) :
  key = "episode_title" ∨ key = "start_time" → key ∉ run_keys.
Proof.
  intros [-> | ->] Hin;
    repeat (apply elem_of_cons in Hin as [?|Hin]; [done|]);
    by apply elem_of_nil in Hin.
Qed.

(** X18: once a run has left the status completed (the three file names
    differing), [download_file] sends the text file for [txt] and the
    subtitle file for [srt], each under the episode title with every space
    replaced by an underscore, and answers 400 for any other file type. *)
Theorem completed_task_can_be_downloaded
    env out audio_file output_txt output_srt task_id w d w' title :
  w_status w !! task_id = Some d →
  output_txt ≠ output_srt → output_txt ≠ audio_file → output_srt ≠ audio_file →
  default (VStr "Unknown") (d !! "episode_title") = VStr title →
  transcribe_audio_openai env audio_file output_txt output_srt task_id w
  = (Ok tt, w') →
  status_of task_id w' = Some (VStr "completed") →
  let stem := str_replace " " "_" title in
  Routes.download_file out task_id "txt" w'
  = (Ok (Routes.SendFile (VStr output_txt) (stem +:+ ".txt")), w') ∧
  Routes.download_file out task_id "srt" w'
  = (Ok (Routes.SendFile (VStr output_srt) (stem +:+ ".srt")), w') ∧
  (∀ file_type, file_type ≠ "txt" → file_type ≠ "srt" →
     Routes.download_file out task_id file_type w'
     = (Ok (Routes.TextAnswer "Invalid file type" 400), w')).
Proof.
  intros Hd Hts Hta Hsa Htitle Hrun Hstatus stem.
  destruct (transcribe_try_Ok env audio_file output_txt output_srt task_id w w'
              Hts Hta Hsa)
    as (chunks & cts & ad & result & seconds & _ & Htxt & Hsrt & _ & _ & Hres
        & Hrt & Hrs & Hre & _);
    [by eapply completed_try_block|].
  assert (w_results w' !! task_id = Some result) as Hresult
    by (rewrite Hres; apply lookup_insert_eq).
  assert (result !! "episode_title" = Some (VStr title)) as Hre'.
  { rewrite Hre. unfold entry_of. rewrite Hd. simpl. by rewrite Htitle. }
  unfold Routes.download_file. rewrite Hresult.
  split; [|split].
  - simpl. unfold Routes.item, mbind, M_bind. rewrite Hrt, Hre'. simpl.
    unfold os_path_exists. rewrite Htxt. by rewrite bool_decide_eq_true_2.
  - simpl. unfold Routes.item, mbind, M_bind. rewrite Hrs, Hre'. simpl.
    unfold os_path_exists. rewrite Hsrt. by rewrite bool_decide_eq_true_2.
  - intros file_type Ht Hs.
    apply String.eqb_neq in Ht, Hs. by rewrite Ht, Hs.
Qed.

Lemma completed_task_can_be_downloaded_witness :
  let w := Scenario.world_with Scenario.asset_10mb in
  let w' := (transcribe_audio_openai Scenario3.env "ep.mp3" "ep.txt" "ep.srt" "t" w).2 in
  let out := {| Routes.url_for_download_file := λ task_id file_type,
                  "/download/" +:+ task_id +:+ "/" +:+ file_type;
                Routes.fd_exists := λ _, false |} in
  Routes.download_file out "t" "txt" w'
  = (Ok (Routes.SendFile (VStr "ep.txt") "Unknown.txt"), w').
Proof.
  intros w w' out.
  destruct (completed_task_can_be_downloaded Scenario3.env out "ep.mp3" "ep.txt"
              "ep.srt" "t" w ∅ w' "Unknown" eq_refl)
    as (Htxt & _); [done|done|done|done|by vm_compute|by vm_compute|].
  exact Htxt.
Defined.

(** X19: once a run has left the status completed (the three file names
    differing, the start time of the task a number or missing), the status
    route answers with the task's dictionary, its status completed, to
    which both download links and the transcription time have been added;
    answering changes neither store nor any file. *)
Theorem status_route_after_completed
    env out audio_file output_txt output_srt task_id w d w' :
  w_status w !! task_id = Some d →
  output_txt ≠ output_srt → output_txt ≠ audio_file → output_srt ≠ audio_file →
  (∀ v, d !! "start_time" = Some v → is_Some (Routes.number_of v)) →
  transcribe_audio_openai env audio_file output_txt output_srt task_id w
  = (Ok tt, w') →
  status_of task_id w' = Some (VStr "completed") →
  ∃ status seconds w'',
    Routes.get_status env out task_id w' = (inr (Routes.StatusJson status), w'') ∧
    status !! "status" = Some (VStr "completed") ∧
    status !! "download_txt"
    = Some (VStr (Routes.url_for_download_file out task_id "txt")) ∧
    status !! "download_srt"
    = Some (VStr (Routes.url_for_download_file out task_id "srt")) ∧
    status !! "actual_transcription_time"
    = Some (VStr (fmt_1f env seconds +:+ " seconds")) ∧
    w_status w'' = w_status w' ∧ w_results w'' = w_results w' ∧ w_fs w'' = w_fs w'.
Proof.
  intros Hd Hts Hta Hsa Hstart Hrun Hstatus.
  destruct (transcribe_try_Ok env audio_file output_txt output_srt task_id w w'
              Hts Hta Hsa)
    as (chunks & cts & ad & result & seconds & _ & _ & _ & _ & _ & Hres
        & _ & _ & _ & Htime & Hentry & _);
    [by eapply completed_try_block|].
  assert (w_results w' !! task_id = Some result) as Hresult
    by (rewrite Hres; apply lookup_insert_eq).
  specialize (Hentry "start_time" (run_key_absent _ (or_intror eq_refl))).
  unfold entry_of in Hentry. rewrite Hd in Hentry. simpl in Hentry.
  unfold status_of in Hstatus.
  destruct (w_status w' !! task_id) as [d'|] eqn:Hd'; [|done].
  simpl in Hstatus, Hentry.
  unfold Routes.get_status. rewrite Hd'.
  destruct (d' !! "start_time") as [v|] eqn:Hv.
  - destruct (Hstart v) as [t Ht]; [done|]. rewrite Ht.
    rewrite lookup_insert_ne by done. rewrite Hstatus. simpl.
    rewrite Hresult, Htime. simpl.
    eexists _, seconds, _. split; [reflexivity|].
    split; [by repeat (rewrite lookup_insert_ne by done)|].
    split; [by rewrite lookup_insert_ne, lookup_insert_ne, lookup_insert_eq|].
    split; [by rewrite lookup_insert_ne, lookup_insert_eq|].
    split; [by rewrite lookup_insert_eq|done].
  - rewrite Hstatus. simpl. rewrite Hresult, Htime. simpl.
    eexists _, seconds, _. split; [reflexivity|].
    split; [by repeat (rewrite lookup_insert_ne by done)|].
    split; [by rewrite lookup_insert_ne, lookup_insert_ne, lookup_insert_eq|].
    split; [by rewrite lookup_insert_ne, lookup_insert_eq|].
    split; [by rewrite lookup_insert_eq|done].
Qed.

Lemma status_route_after_completed_witness :
  let w := Scenario.world_with Scenario.asset_10mb in
  let w' := (transcribe_audio_openai Scenario3.env "ep.mp3" "ep.txt" "ep.srt" "t" w).2 in
  let out := {| Routes.url_for_download_file := λ task_id file_type,
                  "/download/" +:+ task_id +:+ "/" +:+ file_type;
                Routes.fd_exists := λ _, false |} in
  ∃ status w'',
    Routes.get_status Scenario3.env out "t" w' = (inr (Routes.StatusJson status), w'') ∧
    status !! "download_txt" = Some (VStr "/download/t/txt").
Proof.
  intros w w' out.
  destruct (status_route_after_completed Scenario3.env out "ep.mp3" "ep.txt"
              "ep.srt" "t" w ∅ w' eq_refl)
    as (status & seconds & w'' & Hroute & _ & Htxt & _);
    [done|done|done|by intros v Hv|by vm_compute|by vm_compute|].
  exists status, w''. split; [exact Hroute|exact Htxt].
Defined.

(** X20: [parse_rss] never raises, and what it answers is settled by the
    address and the feed. Without an address it flashes 'Please enter an
    RSS feed URL'. With one, the feed gives either an error, which is not
    empty and is flashed, or a list of episodes and no error; then the
    selection page is shown with the address, the whole list and its first
    ten episodes, all of them when there are at most ten, and it says that
    there are more exactly when the list has more than ten, that is when
    some are not shown. *)
Theorem parse_rss_shows_first_ten env rss_url :
  match rss_url with
  | None | Some EmptyString =>
      Routes.parse_rss env rss_url
      = inr (Routes.FlashRedirect "Please enter an RSS feed URL")
  | Some url =>
      match get_episodes_from_rss env rss_url with
      | (None, Some message) =>
          message ≠ "" ∧
          Routes.parse_rss env rss_url = inr (Routes.FlashRedirect message)
      | (Some all_episodes, None) =>
          let shown := take 10 all_episodes in
          let has_more := bool_decide (10 < length all_episodes)%nat in
          Routes.parse_rss env rss_url
          = inr (Routes.EpisodeSelection shown all_episodes url has_more) ∧
          shown `prefix_of` all_episodes ∧
          length shown = Nat.min 10 (length all_episodes) ∧
          (has_more = true ↔ shown ≠ all_episodes)
      | _ => False
      end
  end.
Proof.
  unfold Routes.parse_rss.
  destruct rss_url as [[|c url]|]; [done| |done].
  assert (∀ l : list episode, (length l ≤ 10)%nat → take 10 l = l) as Hall.
  { intros l Hl. by apply take_ge. }
  assert (∀ l : list episode, (10 < length l)%nat → take 10 l ≠ l) as Hsome.
  { intros l Hl Heq. apply (f_equal length) in Heq. rewrite length_take in Heq. lia. }
  destruct (get_episodes_from_rss env (Some (String c url)))
    as [episodes error] eqn:Hfeed.
  unfold get_episodes_from_rss in Hfeed.
  destruct (feedparser_parse env (Some (String c url))) as [e|[|e0 rest]].
  - rewrite str_app_cons in Hfeed. by injection Hfeed as <- <-.
  - by injection Hfeed as <- <-.
  - destruct (collect_episodes 0 (e0 :: rest) []) as [e|res].
    + rewrite str_app_cons in Hfeed. by injection Hfeed as <- <-.
    + injection Hfeed as <- <-. cbv zeta.
      split.
      { unfold len. do 2 f_equal. apply bool_decide_ext. lia. }
      split; [apply prefix_take|]. split; [apply length_take|].
      split.
      * intros Hmore. apply bool_decide_eq_true in Hmore. by apply Hsome.
      * intros Hne. apply bool_decide_eq_true.
        destruct (decide (length res ≤ 10)%nat) as [Hle|Hgt]; [|lia].
        by rewrite Hall in Hne.
Qed.

(** The feed of one episode is shown whole. *)
Example parse_rss_one_episode :
  ∃ ep,
    Routes.parse_rss (Scenario.env Scenario.no_body) (Some "http://pod.example/rss")
    = inr (Routes.EpisodeSelection [ep] [ep] "http://pod.example/rss" false).
Proof. eexists. reflexivity. Qed.

(** ** The command line tool *)

Lemma truthy_url_Some (audio_url : option string) (url : string) :
  truthy_url audio_url = Some url → audio_url = Some url ∧ url ≠ "".
Proof. destruct audio_url as [[|c s]|]; [done| |done]. by intros [= <-]. Qed.

Lemma list_entries_titles (entries : list entry) :
  Cli.list_entries entries = inr tt ↔ Forall (λ e, is_Some (e_title e)) entries.
Proof.
  induction entries as [|e rest IH]; simpl; [done|].
  rewrite Forall_cons. simpl. destruct (e_title e) as [title|].
  - rewrite IH. split; [intros H; split; [by eexists|done]|by intros [_ ?]].
  - split; [done|]. by intros [[? ?] _].
Qed.

Lemma list_entries_error (entries : list entry) (e : exn) :
  Cli.list_entries entries = inl e → e = AttributeError "title".
Proof.
  induction entries as [|e0 rest IH]; simpl; [done|].
  destruct (e_title e0); [done|]. by intros [= <-].
Qed.

(** What the tool has found when it returns. *)
Lemma cli_result_inv env rss_url i url title :
  Cli.get_audio_url_from_rss env rss_url i = inr (url, title) →
  ∃ entries e enc,
    feedparser_parse env (Some rss_url) = inr entries ∧
    - len entries ≤ i < len entries ∧
    entries !! Z.to_nat (if i <? 0 then len entries + i else i) = Some e ∧
    e_title e = Some title ∧
    first_audio e = Some enc ∧ enc_href enc = Some url ∧ url ≠ "" ∧
    Forall (λ e, is_Some (e_title e)) (take 10 entries).
Proof.
  unfold Cli.get_audio_url_from_rss.
  destruct (feedparser_parse env (Some rss_url)) as [e|entries]; [done|].
  destruct entries as [|e0 rest]; [done|]. set (entries := e0 :: rest).
  destruct (Cli.list_entries (take 10 entries)) as [e|[]] eqn:Hlist; [done|].
  apply list_entries_titles in Hlist.
  destruct (bool_decide (len entries ≤ i)) eqn:Hhigh; [done|].
  apply bool_decide_eq_false in Hhigh.
  unfold Cli.index.
  destruct (Z.ltb_spec (if i <? 0 then len entries + i else i) 0) as [?|Hlow]; [done|].
  destruct (entries !! Z.to_nat (if i <? 0 then len entries + i else i))
    as [e|] eqn:He; [|done].
  destruct (e_title e) as [t|] eqn:Ht; [|done].
  destruct (from_option find_audio_enclosure (inr None) (e_enclosures e))
    as [err|found] eqn:Hfind; [done|].
  destruct (truthy_url found) as [u|] eqn:Hu; [|done].
  intros [= -> ->]. apply truthy_url_Some in Hu as [-> Hne].
  assert (∃ enc, first_audio e = Some enc ∧ enc_href enc = Some url) as (enc & H1 & H2).
  { unfold first_audio. destruct (e_enclosures e) as [encs|]; [|done].
    simpl in Hfind. by apply find_audio_enclosure_first in Hfind. }
  exists entries, e, enc. split; [done|].
  split; [destruct (Z.ltb_spec i 0); lia|]. done.
Qed.

(** X21: when the command line tool returns an address and a title, they
    are those of the feed entry at the given position (counted from the
    end when negative): the address of its first audio enclosure, which is
    not empty, and its title; and each of the first ten entries of the
    feed has a title. *)
Theorem cli_selects_feed_entry env rss_url i url title :
  Cli.get_audio_url_from_rss env rss_url i = inr (url, title) →
  ∃ entries e enc,
    feedparser_parse env (Some rss_url) = inr entries ∧
    - len entries ≤ i < len entries ∧
    entries !! Z.to_nat (if i <? 0 then len entries + i else i) = Some e ∧
    e_title e = Some title ∧
    first_audio e = Some enc ∧ enc_href enc = Some url ∧ url ≠ "" ∧
    Forall (λ e, is_Some (e_title e)) (take 10 entries).
Proof. apply cli_result_inv. Qed.

Lemma cli_selects_feed_entry_witness :
  ∃ entries e,
    feedparser_parse (Scenario.env Scenario.no_body) (Some "http://pod.example/rss")
    = inr entries ∧
    entries !! 0%nat = Some e ∧ e_title e = Some "Episode 1".
Proof.
  destruct (cli_selects_feed_entry (Scenario.env Scenario.no_body)
              "http://pod.example/rss" 0 "http://pod.example/ep.mp3" "Episode 1"
              eq_refl)
    as (entries & e & enc & Hparse & _ & He & Htitle & _).
  exists entries, e. split; [exact Hparse|]. split; [exact He|exact Htitle].
Defined.

(** A listing that succeeds has looked through the enclosures of every
    entry without an exception. *)
Lemma collect_episodes_searches (entries : list entry) :
  ∀ i acc res, collect_episodes i entries acc = inr res →
  ∀ k e, entries !! k = Some e →
    ∃ found, from_option find_audio_enclosure (inr None) (e_enclosures e) = inr found.
Proof.
  induction entries as [|e0 rest IH]; intros i acc res H k e Hk; [done|].
  simpl in H.
  destruct (from_option find_audio_enclosure (inr None) (e_enclosures e0))
    as [err|found] eqn:Hfind; [done|].
  destruct k as [|k]; simpl in Hk.
  - injection Hk as <-. by exists found.
  - destruct (truthy_url found); [destruct (e_title e0); [|done]|]; by eapply IH.
Qed.

(** X22: the command line tool and the web listing agree on a feed that
    the web listing accepts. What the tool returns for a position that is
    not negative is the address and the title of the listed episode with
    that feed position. When each of the first ten entries of the feed has
    a title, the tool returns, for the feed position of every listed
    episode, that episode's address and title; when one of them has none,
    the tool's listing fails and the tool raises [AttributeError] for every
    position. *)
Theorem cli_agrees_with_listing env rss_url episodes :
  get_episodes_from_rss env (Some rss_url) = (Some episodes, None) →
  ∃ entries,
    feedparser_parse env (Some rss_url) = inr entries ∧
    (∀ i url title,
       0 ≤ i → Cli.get_audio_url_from_rss env rss_url i = inr (url, title) →
       ∃ ep, ep ∈ episodes ∧ ep_index ep = i ∧
             ep_audio_url ep = url ∧ ep_title ep = title) ∧
    (Forall (λ e, is_Some (e_title e)) (take 10 entries) →
     ∀ ep, ep ∈ episodes →
       Cli.get_audio_url_from_rss env rss_url (ep_index ep)
       = inr (ep_audio_url ep, ep_title ep)) ∧
    (¬ Forall (λ e, is_Some (e_title e)) (take 10 entries) →
     ∀ i, Cli.get_audio_url_from_rss env rss_url i
          = inl (Routes.Builtin (AttributeError "title"))).
Proof.
  intros (entries & Hparse & Hne & Hc)%get_episodes_success.
  exists entries. split; [done|].
  pose proof (collect_episodes_searches _ _ _ _ Hc) as Hsearch.
  apply collect_episodes_inr in Hc as (new & -> & Hsound & _ & Hcomplete).
  simpl. split; [|split].
  - intros i url title Hi Hcli.
    apply cli_result_inv in Hcli
      as (entries' & e & enc & Hparse' & Hrange & He & Htitle & Henc & Hhref & Hurl & _).
    rewrite Hparse in Hparse'. injection Hparse' as <-.
    destruct (Z.ltb_spec i 0) as [?|_]; [lia|].
    destruct (Hcomplete _ _ _ _ He Henc Hhref Hurl) as (ep & Hep & Hindex).
    exists ep. split; [done|]. split; [lia|].
    destruct (Hsound ep Hep) as (_ & e' & enc' & He' & Henc' & Hhref' & _ & Htitle' & _).
    replace (Z.to_nat (ep_index ep - 0)) with (Z.to_nat i) in He' by lia.
    assert (e' = e) as -> by congruence.
    split; congruence.
  - intros Htitles ep Hep.
    destruct (Hsound ep Hep)
      as (Hpos & e & enc & He & Henc & Hhref & Hurl & Htitle & _).
    rewrite Z.sub_0_r in He.
    unfold Cli.get_audio_url_from_rss. rewrite Hparse.
    destruct entries as [|e0 rest]; [done|]. set (entries := e0 :: rest) in *.
    apply list_entries_titles in Htitles. rewrite Htitles.
    apply lookup_lt_Some in He as Hlt.
    rewrite bool_decide_eq_false_2 by (unfold len; lia).
    unfold Cli.index. destruct (Z.ltb_spec (ep_index ep) 0) as [?|_]; [lia|].
    destruct (Z.ltb_spec (ep_index ep) 0) as [?|_]; [lia|].
    rewrite He, Htitle.
    destruct (Hsearch _ _ He) as [found Hfind]. rewrite Hfind.
    unfold first_audio in Henc. destruct (e_enclosures e) as [encs|]; [|done].
    simpl in Hfind, Henc. apply find_audio_enclosure_first in Hfind.
    destruct found as [href|].
    + destruct Hfind as (enc' & Hhead & Hhref').
      assert (href = ep_audio_url ep) as -> by congruence.
      by destruct (ep_audio_url ep).
    + by rewrite Hfind in Henc.
  - intros Htitles i.
    unfold Cli.get_audio_url_from_rss. rewrite Hparse.
    destruct entries as [|e0 rest]; [done|]. set (entries := e0 :: rest) in *.
    destruct (Cli.list_entries (take 10 entries)) as [err|[]] eqn:Hlist.
    + by apply list_entries_error in Hlist as ->.
    + by apply list_entries_titles in Hlist.
Qed.

Lemma cli_agrees_with_listing_witness :
  Cli.get_audio_url_from_rss (Scenario.env Scenario.no_body) "http://pod.example/rss" 0
  = inr ("http://pod.example/ep.mp3", "Episode 1").
Proof.
  destruct (cli_agrees_with_listing (Scenario.env Scenario.no_body)
              "http://pod.example/rss" _ eq_refl)
    as (entries & Hfeed & _ & Hlisted & _).
  injection Hfeed as <-.
  refine (Hlisted _ {| ep_index := 0; ep_title := "Episode 1";
                       ep_published := "Unknown date";
                       ep_audio_url := "http://pod.example/ep.mp3";
                       ep_description := "First" |} (list_elem_of_here _ _)).
  repeat constructor. by eexists.
Defined.

(** A picture without a title among the first ten entries does not stop
    the web listing, which skips it, but stops the tool. *)
Example cli_needs_titles :
  let env := with_feed (Scenario.env Scenario.no_body)
               (Scenario.entries
                ++ [ {| e_title := None; e_published := None; e_description := None;
                        e_enclosures := None |} ]) in
  (∃ ep, get_episodes_from_rss env (Some "http://pod.example/rss") = (Some [ep], None))
  ∧ Cli.get_audio_url_from_rss env "http://pod.example/rss" 0
    = inl (Routes.Builtin (AttributeError "title")).
Proof. split; [by eexists|reflexivity]. Qed.

(** ** The earlier version of the application *)

Lemma stores_only_for_refl task_id w w' :
  w_trace w' = w_trace w → w_status w' = w_status w → stores_only_for task_id w w'.
Proof. intros Ht Hs. exists []. split; [done|]. split; [done|]. by rewrite Hs. Qed.

Lemma stores_only_for_trans task_id w w1 w2 :
  stores_only_for task_id w w1 → stores_only_for task_id w1 w2 →
  stores_only_for task_id w w2.
Proof.
  intros (d1 & Ht1 & Hf1 & Ho1) (d2 & Ht2 & Hf2 & Ho2). exists (d2 ++ d1).
  split; [by rewrite Ht2, Ht1, app_assoc|]. split; [by apply Forall_app|].
  intros other Hother. by rewrite Ho2, Ho1.
Qed.

Lemma set_status_stores_only task_id key v w r w' :
  set_status task_id key v w = (r, w') → stores_only_for task_id w w'.
Proof.
  unfold set_status. destruct (w_status w !! task_id) as [d|].
  - intros [= _ <-]. exists [(task_id, key, v)]. split; [done|].
    split; [by repeat constructor|]. intros other Hother. simpl.
    by rewrite lookup_insert_ne.
  - intros [= _ <-]. by apply stores_only_for_refl.
Qed.

Lemma old_download_blocks_stores filename total_size blocks :
  ∀ downloaded w r w',
    Old.download_blocks filename total_size blocks downloaded w = (r, w') →
    stores_only_for filename w w'.
Proof.
  induction blocks as [|chunk rest IH]; intros downloaded w r w' H.
  - injection H as _ <-. by apply stores_only_for_refl.
  - simpl in H. destruct (chunk =? 0); [by eapply IH|].
    rewrite (bind_step (put_file _ _) _ _ _ _ eq_refl) in H.
    set (w1 := set_fs _ w) in H.
    assert (stores_only_for filename w w1) as H1 by by apply stores_only_for_refl.
    destruct (0 <? total_size).
    + rewrite (bind_step (Old.status_has filename ≫= _) _ w1 tt
                 (if bool_decide (is_Some (w_status w1 !! filename))
                  then (set_status filename "download_progress"
                          (VFloat (inject_Z (downloaded + chunk)
                                   / inject_Z total_size * 100)%Q) w1).2
                  else w1)) in H.
      * eapply stores_only_for_trans; [|by eapply IH].
        eapply stores_only_for_trans; [exact H1|].
        destruct (bool_decide _); [|by apply stores_only_for_refl].
        eapply set_status_stores_only. apply surjective_pairing.
      * unfold mbind, M_bind, Old.status_has. simpl.
        destruct (bool_decide (is_Some (w_status w !! filename))) eqn:Hb; [|done].
        apply bool_decide_eq_true in Hb as [d Hd].
        unfold set_status. change (w_status w1) with (w_status w). by rewrite Hd.
    + rewrite (bind_step (mret tt) _ _ _ _ eq_refl) in H.
      eapply stores_only_for_trans; [exact H1|by eapply IH].
Qed.

Lemma old_download_audio_stores env url filename w r w' :
  Old.download_audio env url filename w = (r, w') → stores_only_for filename w w'.
Proof.
  unfold Old.download_audio. intros H.
  step H E resp w1.
  2:{ injection H as _ <-. apply lift_call_quiet in E as ->.
      by apply stores_only_for_refl. }
  apply lift_call_quiet in E as ->.
  destruct (r_status_ok resp).
  2:{ rewrite (bind_raise (raise _) _ _ _ _ eq_refl) in H. injection H as _ <-.
      by apply stores_only_for_refl. }
  rewrite (bind_step (mret tt) _ _ _ _ eq_refl) in H.
  destruct (write_denied env filename).
  { rewrite (bind_raise (raise _) _ _ _ _ eq_refl) in H. injection H as _ <-.
    by apply stores_only_for_refl. }
  rewrite (bind_step (put_file _ _) _ _ _ _ eq_refl) in H.
  step H E downloaded w2.
  2:{ injection H as _ <-. apply old_download_blocks_stores in E.
      eapply stores_only_for_trans; [|exact E]. by apply stores_only_for_refl. }
  apply old_download_blocks_stores in E.
  injection H as _ <-.
  eapply stores_only_for_trans; [|by apply stores_only_for_refl].
  eapply stores_only_for_trans; [|exact E]. by apply stores_only_for_refl.
Qed.

Lemma stored_other_task task_id key (delta : list (string * string * value)) other :
  other ≠ task_id → Forall (λ e, e.1.1 = task_id) delta → stored other key delta = [].
Proof.
  intros Hne Hall. unfold stored. apply Forall_reverse in Hall.
  induction Hall as [|[[t k] v] l Ht Hall IH]; [done|]. simpl in *.
  rewrite decide_False; [done|]. intros [-> _]. by apply Hne.
Qed.

Lemma temp_audio_name_ne (task_id ext : string) :
  task_id ≠ ("temp_audio_" +:+ task_id) +:+ ext.
Proof.
  intros H. apply (f_equal String.length) in H.
  rewrite !str_length_app in H. simpl in H. lia.
Qed.

(** X23: the earlier [download_audio] stores its progress under the file
    name, not under the task: with the file name that the thread passes,
    [temp_audio_<task_id><ext>], the dictionary of the task itself is the
    same after the download as before, and nothing has been stored for
    it, so that its [download_progress] stays as the submission left it. *)
Theorem old_download_reports_no_progress env url task_id ext w r w' :
  Old.download_audio env url (("temp_audio_" +:+ task_id) +:+ ext) w = (r, w') →
  w_status w' !! task_id = w_status w !! task_id ∧
  ∀ key, history task_id key w' = history task_id key w.
Proof.
  intros (delta & Htrace & Hall & Hother)%old_download_audio_stores.
  pose proof (temp_audio_name_ne task_id ext) as Hne.
  split; [by apply Hother|]. intros key.
  rewrite (history_run_from task_id key w w' delta Htrace).
  rewrite (stored_other_task _ _ _ _ Hne Hall). apply List.app_nil_r.
Qed.

Lemma old_download_reports_no_progress_witness :
  let w := Scenario.world_with Scenario.asset_10mb in
  let w' := (Old.download_audio Scenario3.env "http://pod.example/ep.mp3"
               "temp_audio_t.mp3" w).2 in
  w_status w' !! "t" = w_status w !! "t".
Proof.
  intros w w'.
  exact (proj1 (old_download_reports_no_progress Scenario3.env
                  "http://pod.example/ep.mp3" "t" ".mp3" w _ w'
                  (surjective_pairing _))).
Defined.

Lemma old_write_segments_stores env path content t w r w' :
  Old.write_segments env path content t w = (r, w') →
  w_status w' = w_status w ∧ w_trace w' = w_trace w.
Proof.
  unfold Old.write_segments. intros H. step H E u w1.
  - apply write_text_stores in E as ((Hs & _ & Ht & _) & _).
    destruct (Old.tr_failure t); injection H as _ <-; done.
  - apply write_text_stores in E as ((Hs & _ & Ht & _) & _).
    by injection H as _ <-.
Qed.

(** The stores of the [try] block of the earlier [transcribe_audio],
    however it ends: the stores of status and progress are a prefix of
    those of a whole run, and all of them when the block completes. *)
Lemma old_transcribe_try_run env whisper audio_file output_txt output_srt task_id
    w d r w' :
  w_status w !! task_id = Some d →
  Old.transcribe_try env whisper audio_file output_txt output_srt task_id w = (r, w') →
  ∃ delta pre rest,
    run_from task_id w w' delta ∧
    old_events = pre ++ rest ∧ sp_of delta = pre ∧
    (∀ x, r = Ok x → rest = []).
Proof.
  intros Hd H. unfold Old.transcribe_try in H.
  pose proof (run_from_refl task_id w w eq_refl eq_refl) as R.
  assert (∀ delta rest wz (ret : result ()),
            run_from task_id w wz delta →
            old_events = sp_of delta ++ rest →
            (∀ x, ret = Ok x → rest = []) →
            ∃ delta pre rest,
              run_from task_id w wz delta ∧
              old_events = pre ++ rest ∧ sp_of delta = pre ∧
              (∀ x, ret = Ok x → rest = [])) as Hstop.
  { intros delta rest wz ret Rz Hev Hret. by exists delta, (sp_of delta), rest. }
  store_next H. store_next H.
  destruct (Old.load_model whisper) as [e|]; cbn [from_option] in H.
  { rewrite (bind_raise (raise e) _ _ _ _ eq_refl) in H. injection H as <- <-.
    eapply Hstop; [eassumption|reflexivity|done]. }
  rewrite (bind_step (mret tt) _ _ _ _ eq_refl) in H.
  store_next H. store_next H.
  match type of H with
  | (?m ≫= ?k) ?wx = _ => rewrite (bind_step m k wx _ wx eq_refl) in H
  end.
  step H E first_call wA.
  2:{ injection H as <- <-. apply lift_call_quiet in E as ->.
      eapply Hstop; [eassumption|reflexivity|done]. }
  apply lift_call_quiet in E as ->.
  store_next H. store_next H. store_next H.
  step H E u wB.
  2:{ injection H as <- <-. apply old_write_segments_stores in E as [Hs Ht].
      carry Hs Ht. eapply Hstop; [eassumption|reflexivity|done]. }
  apply old_write_segments_stores in E as [Hs Ht]. carry Hs Ht. clear u.
  store_next H.
  match type of H with
  | (?m ≫= ?k) ?wx = _ => rewrite (bind_step m k wx _ wx eq_refl) in H
  end.
  step H E second_call wC.
  2:{ injection H as <- <-. apply lift_call_quiet in E as ->.
      eapply Hstop; [eassumption|reflexivity|done]. }
  apply lift_call_quiet in E as ->.
  step H E u wD.
  2:{ injection H as <- <-. apply old_write_segments_stores in E as [Hs Ht].
      carry Hs Ht. eapply Hstop; [eassumption|reflexivity|done]. }
  apply old_write_segments_stores in E as [Hs Ht]. carry Hs Ht. clear u.
  store_next H. store_next H.
  match goal with
  | Hd' : w_status ?wx !! task_id = Some ?dx |- _ =>
      rewrite (bind_step (get_status task_id "episode_title" (VStr "Unknown")) _ wx
                 (from_option id (VStr "Unknown") (dx !! "episode_title")) wx) in H
        by (unfold get_status; by rewrite Hd')
  end.
  step H E u wG; [|by apply set_result_stores in E as [? _]].
  apply set_result_stores in E as (_ & Hs & Ht & _). carry Hs Ht. clear u.
  match type of H with
  | (os_path_exists ?p ≫= ?k) ?wx = _ =>
      rewrite (bind_step (os_path_exists p) k wx _ _ eq_refl) in H
  end.
  destruct (bool_decide _).
  - destruct (os_remove env audio_file _) as [r0 w0'] eqn:E.
    apply os_remove_stores in E as ((Hs & _ & Ht & _) & _).
    injection H as <- <-. carry Hs Ht.
    eapply Hstop; [eassumption|reflexivity|done].
  - injection H as <- <-.
    eapply Hstop; [eassumption|reflexivity|done].
Qed.

(** X24: the earlier [transcribe_audio] never raises for a task that is in
    the status store, and the progress values it stores never decrease:
    they are the first values of 0, 10, 50, 75, 100, all five when the
    task ends with the status completed; otherwise it ends with the status
    error. *)
Theorem old_progress_never_decreases
    env whisper audio_file output_txt output_srt task_id w d :
  w_status w !! task_id = Some d →
  ∃ w' values,
    Old.transcribe_audio env whisper audio_file output_txt output_srt task_id w
    = (Ok tt, w') ∧
    history task_id "progress" w' = history task_id "progress" w ++ values ∧
    values `prefix_of` [VInt 0; VInt 10; VInt 50; VInt 75; VInt 100] ∧
    non_decreasing (progress_number <$> values) ∧
    ((status_of task_id w' = Some (VStr "completed") ∧
      values = [VInt 0; VInt 10; VInt 50; VInt 75; VInt 100])
     ∨ status_of task_id w' = Some (VStr "error")).
Proof.
  intros Hd. unfold Old.transcribe_audio, try_except.
  assert (∀ pre rest, old_events = pre ++ rest →
            values_of "progress" pre
              `prefix_of` [VInt 0; VInt 10; VInt 50; VInt 75; VInt 100] ∧
            non_decreasing (progress_number <$> values_of "progress" pre)) as Hpre.
  { intros pre rest Hev.
    assert (values_of "progress" pre ++ values_of "progress" rest
            = [VInt 0; VInt 10; VInt 50; VInt 75; VInt 100]) as Hfive.
    { by rewrite <- values_of_app, <- Hev. }
    split; [by exists (values_of "progress" rest)|].
    assert (non_decreasing
              (progress_number <$> [VInt 0; VInt 10; VInt 50; VInt 75; VInt 100]))
      as Hsorted by (simpl; repeat (split || constructor); by vm_compute).
    rewrite <- Hfive, fmap_app in Hsorted.
    by apply non_decreasing_app in Hsorted as [? _]. }
  destruct (Old.transcribe_try env whisper audio_file output_txt output_srt task_id w)
    as [[[]|e] w1] eqn:E;
    destruct (old_transcribe_try_run _ _ _ _ _ _ _ _ _ _ Hd E)
      as (delta & pre & rest & R & Hev & Hsp & HOk).
  - exists w1, (stored task_id "progress" delta). split; [done|].
    split; [apply history_run_from; by destruct R|].
    rewrite stored_values_of, Hsp; [|by right|by destruct R as (_ & HF & _)].
    destruct (Hpre pre rest Hev) as [H1 H2]. split; [done|]. split; [done|].
    left. rewrite (HOk tt eq_refl), List.app_nil_r in Hev. subst pre.
    split; [|done].
    unfold status_of. rewrite (run_from_present _ _ _ _ _ R Hd). simpl.
    rewrite (replay_lookup_last "status") by by left. by rewrite Hsp.
  - pose proof (run_from_present _ _ _ _ _ R Hd) as Hd1.
    destruct (set_status_step task_id "status" (VStr "error")
                (λ _, set_status task_id "error" (VStr (str_exn e))) w1 _ Hd1)
      as (w2 & E2 & R2 & Hd2 & _).
    destruct (set_status_run task_id "error" (VStr (str_exn e)) w2 _ Hd2)
      as (w3 & E3 & R3 & _).
    pose proof (run_from_present _ _ _ _ _ R3 Hd2) as Hd3.
    pose proof (run_from_trans _ _ _ _ _ _ R (run_from_trans _ _ _ _ _ _ R2 R3)) as R'.
    exists w3, (stored task_id "progress" delta). split; [by rewrite E2|].
    split.
    { rewrite (history_run_from task_id "progress" w w3 _ (proj1 R')).
      f_equal. rewrite stored_app, (stored_values_of task_id "progress" (_ ++ _));
        [apply List.app_nil_r|by right|by repeat constructor]. }
    rewrite stored_values_of, Hsp; [|by right|by destruct R as (_ & HF & _)].
    destruct (Hpre pre rest Hev) as [H1 H2]. split; [done|]. split; [done|].
    right. unfold status_of. rewrite Hd3. unfold replay. simpl.
    by rewrite lookup_insert_ne, lookup_insert_eq.
Qed.

Lemma old_progress_never_decreases_witness :
  ∃ w' values,
    Old.transcribe_audio Scenario3.env
      {| Old.load_model := None;
         Old.model_transcribe := λ _ _, inl (BackendError "no model") |}
      "ep.mp3" "ep.txt" "ep.srt" "t" (Scenario.world_with Scenario.asset_10mb)
    = (Ok tt, w') ∧
    history "t" "progress" w'
    = history "t" "progress" (Scenario.world_with Scenario.asset_10mb) ++ values ∧
    non_decreasing (progress_number <$> values).
Proof.
  destruct (old_progress_never_decreases Scenario3.env
              {| Old.load_model := None;
                 Old.model_transcribe := λ _ _, inl (BackendError "no model") |}
              "ep.mp3" "ep.txt" "ep.srt" "t"
              (Scenario.world_with Scenario.asset_10mb) ∅ eq_refl)
    as (w' & values & Hrun & Hhist & _ & Hsorted & _).
  exists w', values. split; [exact Hrun|]. split; [exact Hhist|exact Hsorted].
Defined.

Lemma old_write_segments_Ok env path content t w w' :
  Old.write_segments env path content t w = (Ok tt, w') →
  Old.tr_failure t = None ∧
  w_results w' = w_results w ∧ w_status w' = w_status w ∧
  w_fs w' !! path = Some (TextFile content) ∧
  (∀ p, p ≠ path → w_fs w' !! p = w_fs w !! p).
Proof.
  unfold Old.write_segments. intros H.
  apply bind_Ok in H as ([] & w1 & E & H).
  apply write_text_stores in E as ((Hs & Hr & _) & Hfs & Hfile).
  destruct (Old.tr_failure t); [done|]. injection H as <-.
  split; [done|]. split; [done|]. split; [done|]. split; [by apply Hfile|done].
Qed.

Lemma old_completed_try_block env whisper audio_file output_txt output_srt task_id
    w d w' :
  w_status w !! task_id = Some d →
  Old.transcribe_audio env whisper audio_file output_txt output_srt task_id w
  = (Ok tt, w') →
  status_of task_id w' = Some (VStr "completed") →
  Old.transcribe_try env whisper audio_file output_txt output_srt task_id w
  = (Ok tt, w').
Proof.
  intros Hd Hrun Hstatus. unfold Old.transcribe_audio, try_except in Hrun.
  destruct (Old.transcribe_try env whisper audio_file output_txt output_srt task_id w)
    as [[[]|e] w1] eqn:E; [done|].
  destruct (old_transcribe_try_run _ _ _ _ _ _ _ _ _ _ Hd E) as (delta & _ & _ & R & _).
  pose proof (run_from_present _ _ _ _ _ R Hd) as Hd1.
  destruct (set_status_step task_id "status" (VStr "error")
              (λ _, set_status task_id "error" (VStr (str_exn e))) w1 _ Hd1)
    as (w2 & E2 & _ & Hd2 & _).
  rewrite E2 in Hrun.
  apply set_status_Ok in Hrun as (_ & _ & d2 & Hd2' & Hd3).
  unfold status_of in Hstatus. rewrite Hd3 in Hstatus. simpl in Hstatus.
  rewrite Hd2 in Hd2'. injection Hd2' as <-.
  by rewrite lookup_insert_ne, lookup_insert_eq in Hstatus.
Qed.

(** X25: when the three file names differ, a run of the earlier
    [transcribe_audio] that leaves the status completed has written the
    text of every segment of the first transcription, each followed by a
    space, to the text file, and the numbered records of the segments of
    the second transcription to the subtitle file, which is empty when
    there are none; it has stored both names in the results of the task
    and has removed the audio file. *)
Theorem old_completed_run_outputs
    env whisper audio_file output_txt output_srt task_id w d w' :
  w_status w !! task_id = Some d →
  output_txt ≠ output_srt → output_txt ≠ audio_file → output_srt ≠ audio_file →
  Old.transcribe_audio env whisper audio_file output_txt output_srt task_id w
  = (Ok tt, w') →
  status_of task_id w' = Some (VStr "completed") →
  ∃ first_call second_call result,
    Old.model_transcribe whisper 0 (w_fs w !! audio_file) = inr first_call ∧
    Old.model_transcribe whisper 1 (w_fs w !! audio_file) = inr second_call ∧
    Old.tr_failure first_call = None ∧ Old.tr_failure second_call = None ∧
    w_fs w' !! output_txt
    = Some (TextFile (Old.txt_content (Old.tr_segments first_call))) ∧
    w_fs w' !! output_srt
    = Some (TextFile (srt_loop 1 (Old.tr_segments second_call) "")) ∧
    (Old.tr_segments second_call = [] → w_fs w' !! output_srt = Some (TextFile "")) ∧
    w_fs w' !! audio_file = None ∧
    w_results w' = <[task_id := result]> (w_results w) ∧
    result !! "txt_file" = Some (VStr output_txt) ∧
    result !! "srt_file" = Some (VStr output_srt).
Proof.
  intros Hd Hts Hta Hsa Hrun Hstatus.
  pose proof (old_completed_try_block _ _ _ _ _ _ _ _ _ Hd Hrun Hstatus) as H.
  clear Hrun Hstatus. unfold Old.transcribe_try in H.
  inv_set H w1 F1 R1 T1. inv_set H w2 F2 R2 T2.
  bind_inv H u w3 E3.
  assert (w3 = w2) as ->.
  { destruct (Old.load_model whisper); [done|]. by injection E3 as _ <-. }
  clear u E3.
  inv_set H w4 F4 R4 T4. inv_set H w5 F5 R5 T5.
  bind_inv H audio w6 E6. injection E6 as <- <-.
  bind_inv H first_call w7 E7.
  pose proof (lift_call_quiet _ _ _ _ E7) as ->.
  assert (Old.model_transcribe whisper 0 (w_fs w5 !! audio_file) = inr first_call)
    as Hfirst.
  { unfold lift_call in E7.
    destruct (Old.model_transcribe whisper 0 (w_fs w5 !! audio_file)); [done|].
    by injection E7 as ->. }
  clear E7.
  inv_set H w8 F8 R8 T8. inv_set H w9 F9 R9 T9. inv_set H w10 F10 R10 T10.
  bind_inv H u w11 E11. destruct u.
  apply old_write_segments_Ok in E11 as (Hok1 & R11 & _ & Htxt & F11).
  inv_set H w12 F12 R12 T12.
  bind_inv H audio w13 E13. injection E13 as <- <-.
  bind_inv H second_call w14 E14.
  pose proof (lift_call_quiet _ _ _ _ E14) as ->.
  assert (Old.model_transcribe whisper 1 (w_fs w12 !! audio_file) = inr second_call)
    as Hsecond.
  { unfold lift_call in E14.
    destruct (Old.model_transcribe whisper 1 (w_fs w12 !! audio_file)); [done|].
    by injection E14 as ->. }
  clear E14.
  bind_inv H u w15 E15. destruct u.
  apply old_write_segments_Ok in E15 as (Hok2 & R15 & _ & Hsrt & F15).
  inv_set H w16 F16 R16 T16. inv_set H w17 F17 R17 T17.
  bind_inv H episode_title w18 Eget.
  assert (w18 = w17) as ->.
  { unfold get_status in Eget. destruct (w_status w17 !! task_id); [|done].
    by injection Eget as _ <-. }
  clear Eget.
  bind_inv H u w19 Eres. apply set_result_stores in Eres as (_ & _ & _ & F19 & R19).
  clear u.
  bind_inv H still_there w20 Eex. injection Eex as <- <-.
  assert (w_fs w5 !! audio_file = w_fs w !! audio_file) as Ha5
    by (by rewrite F5, F4, F2, F1).
  assert (w_fs w12 !! audio_file = w_fs w !! audio_file) as Ha12
    by (by rewrite F12, F11, F10, F9, F8).
  assert (w_fs w19 !! output_txt
          = Some (TextFile (Old.txt_content (Old.tr_segments first_call)))) as Htxt'
    by (by rewrite F19, F17, F16, F15, F12).
  assert (w_fs w19 !! output_srt
          = Some (TextFile (srt_loop 1 (Old.tr_segments second_call) ""))) as Hsrt'
    by (by rewrite F19, F17, F16).
  match type of R19 with
  | _ = <[_ := ?res]> _ => set (result := res) in *
  end.
  assert (w_results w19 = <[task_id := result]> (w_results w)) as Hres.
  { rewrite R19, R17, R16, R15, R12, R11, R10, R9, R8, R5, R4, R2, R1. reflexivity. }
  assert (∃ wz, (w' = w19 ∨ (w_fs w19 !! audio_file ≠ None ∧
                             os_remove env audio_file w19 = (Ok tt, w'))) ∧ wz = w')
    as (wz & Hend & ->).
  { exists w'. split; [|done]. destruct (bool_decide _) eqn:Hb.
    - right. apply bool_decide_eq_true in Hb as [f Hf]. split; [by rewrite Hf|done].
    - left. by injection H as <-. }
  assert (w_fs w' !! audio_file = None ∧ w_results w' = w_results w19 ∧
          ∀ p, p ≠ audio_file → w_fs w' !! p = w_fs w19 !! p) as (Hgone & Hr' & Hf').
  { destruct Hend as [->|[Hthere Hrm]].
    - split; [|done]. destruct (bool_decide _) eqn:Hb; [|clear H].
      + apply bool_decide_eq_true in Hb as Hsome.
        destruct (w_fs w19 !! audio_file) eqn:Hf; [|by destruct Hsome].
        apply os_remove_stores in H as (_ & _ & Hnone).
        rewrite <- Hf. by apply Hnone.
      + apply bool_decide_eq_false in Hb.
        destruct (w_fs w19 !! audio_file); [|done]. destruct Hb. by eexists.
    - apply os_remove_stores in Hrm as ((_ & Hr & _) & Hfs & Hnone).
      split; [by apply Hnone|]. by split. }
  exists first_call, second_call, result.
  split; [by rewrite <- Ha5|]. split; [by rewrite <- Ha12|].
  split; [done|]. split; [done|].
  split; [by rewrite Hf'|]. split; [by rewrite Hf'|].
  split; [intros Hnil; rewrite Hf' by done; by rewrite Hsrt', Hnil|].
  split; [done|]. split; [by rewrite Hr'|].
  split; [done|]. unfold result. by rewrite lookup_insert_ne, lookup_insert_eq.
Qed.

Lemma old_completed_run_outputs_witness :
  let whisper :=
    {| Old.load_model := None;
       Old.model_transcribe := λ _ _,
         inr {| Old.tr_segments :=
                  [ {| seg_start := 0; seg_end := 5; seg_text := " hei" |} ];
                Old.tr_failure := None;
                Old.tr_language := "no";
                Old.tr_language_probability := 1 |} |} in
  let w := Scenario.world_with Scenario.asset_10mb in
  let w' := (Old.transcribe_audio Scenario3.env whisper "ep.mp3" "ep.txt" "ep.srt"
               "t" w).2 in
  w_fs w' !! "ep.txt" = Some (TextFile " hei ") ∧ w_fs w' !! "ep.mp3" = None.
Proof.
  intros whisper w w'.
  destruct (old_completed_run_outputs Scenario3.env whisper "ep.mp3" "ep.txt"
              "ep.srt" "t" w ∅ w' eq_refl)
    as (first_call & second_call & result & Hfirst & _ & _ & _ & Htxt & _ & _
        & Haudio & _);
    [done|done|done|by vm_compute|by vm_compute|].
  split; [|exact Haudio].
  injection Hfirst as <-. exact Htxt.
Defined.

(** ** Time stamps *)

Lemma two_digit_value (z : Z) :
  0 ≤ z < 100 →
  ∃ c1 c2, Py.fmt_0d 2 z = String c1 (String c2 "") ∧
           digits_value 0 (String c1 (String c2 "")) = Some z.
Proof.
  intros Hz.
  assert (forallb (λ z, match Py.fmt_0d 2 z with
                        | String c1 (String c2 EmptyString) =>
                            bool_decide
                              (digits_value 0 (String c1 (String c2 "")) = Some z)
                        | _ => false
                        end) (seqZ 0 100) = true) as H
    by (vm_compute; reflexivity).
  rewrite forallb_forall in H.
  specialize (H z ltac:(apply list_elem_of_In, elem_of_seqZ; lia)).
  destruct (Py.fmt_0d 2 z) as [|c1 [|c2 [|]]]; try done.
  apply bool_decide_eq_true in H. by exists c1, c2.
Qed.

Lemma three_digit_value (z : Z) :
  0 ≤ z < 1000 →
  ∃ c1 c2 c3, Py.fmt_0d 3 z = String c1 (String c2 (String c3 "")) ∧
              digits_value 0 (String c1 (String c2 (String c3 ""))) = Some z.
Proof.
  intros Hz.
  assert (forallb (λ z, match Py.fmt_0d 3 z with
                        | String c1 (String c2 (String c3 EmptyString)) =>
                            bool_decide
                              (digits_value 0 (String c1 (String c2 (String c3 "")))
                               = Some z)
                        | _ => false
                        end) (seqZ 0 1000) = true) as H
    by (vm_compute; reflexivity).
  rewrite forallb_forall in H.
  specialize (H z ltac:(apply list_elem_of_In, elem_of_seqZ; lia)).
  destruct (Py.fmt_0d 3 z) as [|c1 [|c2 [|c3 [|]]]]; try done.
  apply bool_decide_eq_true in H. by exists c1, c2, c3.
Qed.

Lemma timestamp_ms_fields (h m s ms : Z) :
  0 ≤ h < 100 → 0 ≤ m < 100 → 0 ≤ s < 100 → 0 ≤ ms < 1000 →
  timestamp_ms (Py.fmt_0d 2 h +:+ ":" +:+ Py.fmt_0d 2 m +:+ ":"
                +:+ Py.fmt_0d 2 s +:+ "," +:+ Py.fmt_0d 3 ms)
  = Some (((h * 60 + m) * 60 + s) * 1000 + ms).
Proof.
  intros Hh Hm Hs Hms. unfold timestamp_ms.
  rewrite srt_timestamp_shape
    by (by apply fmt_two_digits || by apply fmt_three_digits).
  destruct (two_digit_value h Hh) as (h1 & h2 & -> & Vh).
  destruct (two_digit_value m Hm) as (m1 & m2 & -> & Vm).
  destruct (two_digit_value s Hs) as (s1 & s2 & -> & Vs).
  destruct (three_digit_value ms Hms) as (x1 & x2 & x3 & -> & Vx).
  change (OsPath.take 2 _) with (String h1 (String h2 "")) at 1.
  change (OsPath.take 2 (OsPath.drop 3 _)) with (String m1 (String m2 "")).
  change (OsPath.take 2 (OsPath.drop 6 _)) with (String s1 (String s2 "")).
  change (OsPath.drop 9 _) with (String x1 (String x2 (String x3 ""))).
  by rewrite Vh, Vm, Vs, Vx.
Qed.

(** The whole milliseconds of a time are those of its whole seconds and
    those of its fraction. *)
Lemma Qfloor_millis (x : Q) :
  Qfloor (x * 1000) = Qfloor x * 1000 + Qfloor ((x - inject_Z (Qfloor x)) * 1000).
Proof.
  assert ((x - inject_Z (Qfloor x)) * 1000 == x * 1000 - inject_Z (Qfloor x * 1000))%Q
    as E.
  { rewrite inject_Z_mult. change (inject_Z 1000) with 1000%Q. ring. }
  rewrite (Qfloor_comp _ _ E), Qfloor_sub_Z. lia.
Qed.

(** The milliseconds a stamp denotes: those of the whole seconds and the
    milliseconds field. *)
Lemma timestamp_ms_format (seconds : Q) :
  Double.is_double seconds → (0 <= seconds)%Q → (seconds < 360000)%Q →
  let millisecs := Py.int (Double.round64 (Py.mod_ seconds 1 * 1000)) in
  timestamp_ms (format_timestamp seconds) = Some (Qfloor seconds * 1000 + millisecs) ∧
  Qfloor (seconds * 1000) ≤ Qfloor seconds * 1000 + millisecs
    ≤ Qfloor (seconds * 1000) + 1.
Proof.
  intros Hd Hlo Hhi millisecs.
  destruct (millisecs_bounds seconds Hd Hlo) as (Hms & Hrange & _).
  fold millisecs in Hms, Hrange.
  split; [|rewrite (Qfloor_millis seconds); lia].
  rewrite format_timestamp_fields by done. cbv zeta. fold millisecs.
  pose proof (Qfloor_nonneg seconds Hlo) as Hw.
  assert (Qfloor seconds < 360000) as Hw'.
  { rewrite Zlt_Qlt. eapply Qle_lt_trans; [apply Qfloor_le|done]. }
  set (W := Qfloor seconds) in *.
  pose proof (Z.mod_pos_bound W 60 ltac:(lia)).
  pose proof (Z.mod_pos_bound (W `div` 60) 60 ltac:(lia)).
  pose proof (Z.div_mod W 60 ltac:(lia)).
  pose proof (Z.div_mod (W `div` 60) 60 ltac:(lia)).
  assert (W `div` 3600 = (W `div` 60) `div` 60) as Hdd
    by (rewrite Z.div_div by lia; done).
  assert (0 ≤ W `div` 3600 < 100).
  { split; [apply Z.div_pos; lia|apply Z.div_lt_upper_bound; lia]. }
  rewrite timestamp_ms_fields by lia. f_equal. lia.
Qed.

(** X26: a time that is a double, at least 0 and below 100 hours can be
    read back from its time stamp to within a millisecond: the stamp denotes
    the milliseconds of the whole seconds plus the milliseconds field, which
    is the whole number of milliseconds of the time or, when the product
    for the field is rounded up, one more; so the time lies within a
    millisecond of what its stamp denotes, and two such times with the
    same stamp differ by at most one in their whole milliseconds. *)
Theorem format_timestamp_round_trip (seconds : Q) :
  Double.is_double seconds → (0 <= seconds)%Q → (seconds < 360000)%Q →
  ∃ ms,
    timestamp_ms (format_timestamp seconds) = Some ms ∧
    ms = Qfloor seconds * 1000
         + Py.int (Double.round64 (Py.mod_ seconds 1 * 1000)) ∧
    Qfloor (seconds * 1000) ≤ ms ≤ Qfloor (seconds * 1000) + 1 ∧
    (inject_Z ms - 1 <= seconds * 1000)%Q ∧ (seconds * 1000 < inject_Z ms + 1)%Q ∧
    ∀ other,
      Double.is_double other → (0 <= other)%Q → (other < 360000)%Q →
      format_timestamp seconds = format_timestamp other →
      Qfloor (seconds * 1000) - 1 ≤ Qfloor (other * 1000)
        ≤ Qfloor (seconds * 1000) + 1.
Proof.
  intros Hd Hlo Hhi.
  destruct (timestamp_ms_format seconds Hd Hlo Hhi) as [Hback Hnear].
  eexists. split; [exact Hback|]. split; [done|]. split; [done|].
  set (ms := Qfloor seconds * 1000
             + Py.int (Double.round64 (Py.mod_ seconds 1 * 1000))) in *.
  assert (∀ other,
            Double.is_double other → (0 <= other)%Q → (other < 360000)%Q →
            format_timestamp seconds = format_timestamp other →
            Qfloor (seconds * 1000) - 1 ≤ Qfloor (other * 1000)
              ≤ Qfloor (seconds * 1000) + 1) as Hothers.
  { intros other Hd' Hlo' Hhi' Heq.
    destruct (timestamp_ms_format other Hd' Hlo' Hhi') as [Hback' Hnear'].
    rewrite <- Heq, Hback in Hback'. injection Hback' as Hsame.
    fold ms in Hsame. rewrite <- Hsame in Hnear'. lia. }
  pose proof (Qfloor_le (seconds * 1000)) as Hf.
  pose proof (Qlt_floor (seconds * 1000)) as Hc.
  rewrite inject_Z_plus in Hc. change (inject_Z 1) with 1%Q in Hc.
  destruct Hnear as [H1 H2]. rewrite Zle_Qle in H1, H2.
  rewrite inject_Z_plus in H2. change (inject_Z 1) with 1%Q in H2.
  clearbody ms. split; [lra|]. split; [lra|done].
Qed.

(** 0.29 is read as a double just below it, of 289 whole milliseconds; its
    stamp denotes 290. *)
Lemma format_timestamp_round_trip_witness :
  let seconds := Double.literal (29 # 100) in
  Double.is_double seconds ∧ (0 <= seconds)%Q ∧ (seconds < 360000)%Q ∧
  Qfloor (seconds * 1000) = 289 ∧
  timestamp_ms (format_timestamp seconds) = Some 290.
Proof.
  intros seconds.
  assert (Double.is_double seconds) as Hd.
  { exists 5224175567749775, (-54). split; [lia|]. split; [lia|reflexivity]. }
  assert (0 <= seconds)%Q as H0 by (vm_compute; discriminate).
  assert (seconds < 360000)%Q as H1 by (vm_compute; reflexivity).
  split; [exact Hd|]. split; [exact H0|]. split; [exact H1|].
  split; [vm_compute; reflexivity|].
  destruct (format_timestamp_round_trip seconds Hd H0 H1) as (ms & Hback & Hms & _).
  rewrite Hback, Hms. vm_compute. reflexivity.
Defined.

(** ** Offsets and chunk positions *)

Lemma split_many_chunks env audio_file max_size_mb w chunks w1 :
  split_audio_if_needed env audio_file max_size_mb w = (Ok chunks, w1) →
  1 < len chunks →
  ∃ n, split_audio_try env audio_file n w = (Ok chunks, w1).
Proof.
  unfold split_audio_if_needed, mbind, M_bind, os_path_getsize.
  destruct (w_fs w !! audio_file) as [f|]; [|done].
  destruct (Py.le _ _); [by intros [= <- <-]|].
  unfold float_div. destruct (Qeq_bool max_size_mb 0); [done|].
  unfold mret, M_ret, try_except.
  destruct (split_audio_try _ _ _ w) as [[l|e] w2] eqn:E; intros [= <- <-]; [|done].
  intros _. by eexists.
Qed.



(** ** A download that fails *)

Lemma download_audio_raises env url filename task_id w e :
  download_failure env url filename = Some e →
  ∃ w1, download_audio env url filename task_id w = (Raise e, w1) ∧
        w_fs w1 = w_fs w ∧ w_status w1 = w_status w ∧
        w_trace w1 = w_trace w ∧ w_results w1 = w_results w.
Proof.
  unfold download_failure, download_audio. intros Hfail.
  destruct (requests_get env url) as [e0|response].
  - injection Hfail as ->. exists w. split; [|done]. by apply bind_raise.
  - rewrite (bind_step _ _ w response w) by done.
    destruct (r_status_ok response); simpl in Hfail.
    + destruct (write_denied env filename); [|done]. injection Hfail as <-.
      rewrite (bind_step (mret tt) _ w tt w eq_refl).
      rewrite (bind_step (time_time env) _ w _ (tick w) eq_refl).
      by exists (tick w).
    + injection Hfail as <-. by exists w.
Qed.

(** X28: when the request for the audio raises, is answered with an error
    status, or the audio file may not be written, the thread ends with the
    status error and the text of that exception under error, for an error
    status the text [raise_for_status] composes from the status code, the
    reason and the address of the answer; it has stored the statuses
    downloading and error and no progress, has not tried to transcribe, and
    has changed no file and no result. *)
Theorem thread_download_failure env th w d e :
  w_status w !! th_task_id th = Some d →
  download_failure env (ep_audio_url (th_episode th)) (th_audio_filename th) = Some e →
  ∃ w',
    transcribe_thread env th w = (Ok tt, w') ∧
    status_of (th_task_id th) w' = Some (VStr "error") ∧
    entry_of (th_task_id th) "error" w' = Some (VStr (str_exn e)) ∧
    (∀ response,
       requests_get env (ep_audio_url (th_episode th)) = inr response →
       r_status_ok response = false →
       e = HTTPError (http_error_msg response) ∧
       entry_of (th_task_id th) "error" w' = Some (VStr (http_error_msg response))) ∧
    history (th_task_id th) "status" w'
    = history (th_task_id th) "status" w ++ [VStr "downloading"; VStr "error"] ∧
    history (th_task_id th) "progress" w' = history (th_task_id th) "progress" w ∧
    w_fs w' = w_fs w ∧ w_results w' = w_results w.
Proof.
  intros Hd Hfail. unfold transcribe_thread, try_except.
  set (task_id := th_task_id th) in *.
  destruct (set_status_run task_id "status" (VStr "downloading") w d Hd)
    as (w1 & E1 & R1 & F1 & Rs1 & _).
  pose proof (run_from_present _ _ _ _ _ R1 Hd) as Hd1.
  destruct (download_audio_raises env (ep_audio_url (th_episode th))
              (th_audio_filename th) task_id w1 e Hfail)
    as (w2 & E2 & F2 & S2 & T2 & Rs2).
  rewrite (bind_step _ _ _ _ _ E1), (bind_raise _ _ _ _ _ E2).
  rewrite <- S2 in Hd1.
  destruct (set_status_run task_id "status" (VStr "error") w2 _ Hd1)
    as (w3 & E3 & R3 & F3 & Rs3 & _).
  pose proof (run_from_present _ _ _ _ _ R3 Hd1) as Hd3.
  destruct (set_status_run task_id "error" (VStr (str_exn e)) w3 _ Hd3)
    as (w4 & E4 & R4 & F4 & Rs4 & _).
  pose proof (run_from_present _ _ _ _ _ R4 Hd3) as Hd4.
  exists w4. split; [by rewrite (bind_step _ _ _ _ _ E3)|].
  assert (w_trace w4
          = [ (task_id, "error", VStr (str_exn e)); (task_id, "status", VStr "error");
              (task_id, "status", VStr "downloading") ] ++ w_trace w) as Htrace.
  { destruct R4 as [-> _]. destruct R3 as [-> _]. rewrite T2.
    by destruct R1 as [-> _]. }
  unfold status_of, entry_of. rewrite Hd4. unfold replay. simpl.
  split; [by rewrite lookup_insert_ne, lookup_insert_eq|].
  split; [by rewrite lookup_insert_eq|].
  split.
  { intros response Hget Hbad. unfold download_failure in Hfail.
    rewrite Hget, Hbad in Hfail. injection Hfail as <-.
    by rewrite lookup_insert_eq. }
  split.
  { rewrite (history_run_from task_id "status" w w4 _ Htrace).
    rewrite stored_values_of; [done|by left|by repeat constructor]. }
  split.
  { rewrite (history_run_from task_id "progress" w w4 _ Htrace).
    rewrite stored_values_of; [by rewrite List.app_nil_r|by right|by repeat constructor]. }
  split; [by rewrite F4, F3, F2, F1|by rewrite Rs4, Rs3, Rs2, Rs1].
Qed.

Lemma thread_download_failure_witness :
  ∃ w',
    transcribe_thread
      (Scenario.env {| r_status_code := 404; r_reason := "Not Found";
                       r_url := "http://pod.example/ep.mp3";
                       r_content_length := None; r_blocks := [];
                       r_decoded := None |})
      {| th_episode := {| ep_index := 0; ep_title := "Episode 1";
                          ep_published := "Unknown date";
                          ep_audio_url := "http://pod.example/ep.mp3";
                          ep_description := "First" |};
         th_task_id := "t"; th_audio_filename := "ep.mp3";
         th_txt_filename := "ep.txt"; th_srt_filename := "ep.srt" |}
      (Scenario.world_with Scenario.asset_10mb) = (Ok tt, w') ∧
    status_of "t" w' = Some (VStr "error") ∧
    entry_of "t" "error" w'
    = Some (VStr "404 Client Error: Not Found for url: http://pod.example/ep.mp3").
Proof.
  destruct (thread_download_failure
              (Scenario.env {| r_status_code := 404; r_reason := "Not Found";
                               r_url := "http://pod.example/ep.mp3";
                               r_content_length := None;
                               r_blocks := []; r_decoded := None |})
              {| th_episode := {| ep_index := 0; ep_title := "Episode 1";
                                  ep_published := "Unknown date";
                                  ep_audio_url := "http://pod.example/ep.mp3";
                                  ep_description := "First" |};
                 th_task_id := "t"; th_audio_filename := "ep.mp3";
                 th_txt_filename := "ep.txt"; th_srt_filename := "ep.srt" |}
              (Scenario.world_with Scenario.asset_10mb) ∅
              (HTTPError
                 "404 Client Error: Not Found for url: http://pod.example/ep.mp3")
              eq_refl eq_refl)
    as (w' & Hrun & Hstatus & Herror & _).
  exists w'. split; [exact Hrun|]. split; [exact Hstatus|exact Herror].
Defined.
